(** * ROM catalog and preview resolver of Main_MiSTer: a shallow embedding

    The development follows [rom_catalog.cpp] (station registry, entry
    store, scanner, browse view, sort, filter) and [rom_preview.cpp]
    (preview slot, local lookup, download, online fetch, cache test,
    background fetch flags, batch download).

    Conventions.
    - A C string is the list of its characters before the terminating NUL.
    - [uint32_t] and [int] values are integers in [Z]; unsigned arithmetic
      is reduced with [u32], conversions to [int] go through [int32].
    - Array indices and element counts ([rom_count], [rom_capacity],
      [filtered_count], loop counters) are natural numbers: they index an
      array held in memory, so they stay far below 2^31.
    - A pointer into [g_rom_catalog.roms] is the index of the element.
    - Services that live outside these two files (directory listing, file
      tests, the allocator, qsort, the resolver, wget, Imlib2, pthreads) are
      fields of an environment record or of the modelled world. *)

From Stdlib Require Import ZArith List String Ascii Bool Lia.
From stdpp Require Import base list.

Open Scope Z_scope.

(** ** C strings *)

Module CStr.

Abbreviation cstr := (list ascii).

(** String literals of the source. *)
Definition lit (s : string) : cstr := list_ascii_of_string s.

Definition char_code (c : ascii) : Z := Z.of_nat (nat_of_ascii c).

(** [tolower] of the C locale. *)
Definition tolower (c : ascii) : ascii :=
  let n := nat_of_ascii c in
  if ((65 <=? n) && (n <=? 90))%nat then ascii_of_nat (n + 32) else c.

Definition char_eqb (a b : ascii) : bool := Ascii.eqb a b.

(** [strrchr s c]: offset of the last occurrence of [c], if any. *)
Fixpoint strrchr (s : cstr) (c : ascii) : option nat :=
  match s with
  | [] => None
  | x :: s' =>
      match strrchr s' c with
      | Some k => Some (S k)
      | None => if char_eqb x c then Some 0%nat else None
      end
  end.

(** [strcmp]: only the sign of the result is specified; it is the sign of
    the difference of the first pair of characters that differ, the end of
    a string coming before every character. *)
Fixpoint strcmp (a b : cstr) : Z :=
  match a, b with
  | [], [] => 0
  | [], _ :: _ => -1
  | _ :: _, [] => 1
  | x :: a', y :: b' =>
      if char_eqb x y then strcmp a' b'
      else if char_code x <? char_code y then -1 else 1
  end.

Definition strcasecmp (a b : cstr) : Z :=
  strcmp (map tolower a) (map tolower b).

(** Does [needle] start [hay], ignoring case? *)
Fixpoint prefix_nocase (needle hay : cstr) : bool :=
  match needle, hay with
  | [], _ => true
  | _ :: _, [] => false
  | n :: needle', h :: hay' =>
      char_eqb (tolower n) (tolower h) && prefix_nocase needle' hay'
  end.

(** [strcasestr hay needle]: offset of the first case-insensitive
    occurrence of [needle] in [hay]; [None] is the NULL result. *)
Fixpoint strcasestr (hay needle : cstr) : option nat :=
  if prefix_nocase needle hay then Some 0%nat
  else match hay with
       | [] => None
       | _ :: hay' => option_map S (strcasestr hay' needle)
       end.

(** [strncpy (dst, src, n)] into a zeroed or afterwards terminated buffer:
    the first [n] characters of [src]. *)
Definition strncpy (src : cstr) (n : nat) : cstr := take n src.

(** [snprintf (buf, size, ...)]: the formatted text cut to [size - 1]. *)
Definition snprintf (size : nat) (text : cstr) : cstr := take (size - 1) text.

End CStr.

Import CStr.

(** ** Machine integers *)

Definition u32 (z : Z) : Z := z mod 2 ^ 32.
Definition int32 (z : Z) : Z := (z + 2 ^ 31) mod 2 ^ 32 - 2 ^ 31.

(** ** Data model ([rom_catalog.h]) *)

Definition ROM_MAX_STATIONS : Z := 32.
Definition ROM_NAME_LEN : nat := 256.
Definition ROM_PATH_LEN : nat := 1024.
Definition ROM_EXT_LEN : nat := 32.

Module rom_entry.
Record t := mk {
  name : cstr;
  filename : cstr;
  path : cstr;
  station_id : Z;
  size : Z;
  date : Z;
  has_preview : Z;
  preview_path : cstr
}.
(** An element after [memset (rom, 0, sizeof (rom_entry_t))]. *)
Definition zero : t := mk [] [] [] 0 0 0 0 [].
End rom_entry.
Abbreviation rom_entry_t := rom_entry.t.

Module rom_station.
Record t := mk {
  id : Z;
  name : cstr;
  short_name : cstr;
  rom_path : cstr;
  core_path : cstr;
  extensions : cstr;
  enabled : Z;
  rom_count : Z
}.
Definition zero : t := mk 0 [] [] [] [] [] 0 0.
Definition set_enabled (v : Z) (s : t) : t :=
  mk (id s) (name s) (short_name s) (rom_path s) (core_path s)
     (extensions s) v (rom_count s).
Definition set_rom_count (v : Z) (s : t) : t :=
  mk (id s) (name s) (short_name s) (rom_path s) (core_path s)
     (extensions s) (enabled s) v.
End rom_station.
Abbreviation rom_station_t := rom_station.t.

Inductive rom_sort_mode_t :=
  | ROM_SORT_NAME_ASC
  | ROM_SORT_NAME_DESC
  | ROM_SORT_STATION_ASC
  | ROM_SORT_STATION_DESC
  | ROM_SORT_DATE_ASC
  | ROM_SORT_DATE_DESC
  | ROM_SORT_SIZE_ASC
  | ROM_SORT_SIZE_DESC.

(** ** Extension matching and display names ([rom_catalog.cpp]) *)

Definition space : ascii := " "%char.
Definition dot_char : ascii := "."%char.
Definition underscore : ascii := "_"%char.

(** The inner loop that advances [p] over spaces. *)
Fixpoint skip_spaces (p : cstr) : cstr :=
  match p with
  | c :: p' => if char_eqb c space then skip_spaces p' else p
  | [] => []
  end.

(** The inner loop that advances [p] to the next space or to the end. *)
Fixpoint skip_token (p : cstr) : cstr :=
  match p with
  | c :: p' => if char_eqb c space then p else skip_token p'
  | [] => []
  end.

(** The token loop of [match_extension]; one unit of [fuel] per round of
    the outer while loop. *)
Fixpoint match_tokens (fuel : nat) (ext_lower p : cstr) : Z :=
  match fuel with
  | O => 0
  | S fuel' =>
      match p with
      | [] => 0
      | _ :: _ =>
          let p1 := skip_spaces p in
          match p1 with
          | [] => 0
          | _ :: _ =>
              let start := p1 in
              let p2 := skip_token p1 in
              let token_len := (length start - length p2)%nat in
              if ((0 <? token_len) && (token_len <=? 8))%nat
                 && (strcmp ext_lower (map tolower (take token_len start)) =? 0)
              then 1
              else match_tokens fuel' ext_lower p2
          end
      end
  end.

(** [extensions] is [None] for a NULL pointer. Every round of the token
    loop consumes at least one character, so [length extensions] rounds
    are enough (see [match_tokens_fuel]). *)
Definition match_extension (filename : cstr) (extensions : option cstr) : Z :=
  match extensions with
  | None => 1
  | Some [] => 1
  | Some exts =>
      match strrchr filename dot_char with
      | None => 0
      | Some k =>
          let dot := drop (S k) filename in
          let ext_len := if (8 <? length dot)%nat then 8%nat else length dot in
          let ext_lower := map tolower (take ext_len dot) in
          match_tokens (length exts) ext_lower exts
      end
  end.

Definition replace_underscores (s : cstr) : cstr :=
  map (fun c => if char_eqb c underscore then space else c) s.

Definition extract_display_name (filename : cstr) (max_len : nat) : cstr :=
  let len := match strrchr filename dot_char with
             | Some k => k
             | None => length filename
             end in
  let len := if (max_len <=? len)%nat then (max_len - 1)%nat else len in
  replace_underscores (take len filename).

(** ** Catalog state *)

Module rom_catalog.
Record t := mk {
  stations : list rom_station_t;
  station_count : Z;
  roms : list rom_entry_t;
  rom_count : nat;
  rom_capacity : nat;
  initialized : Z;
  scanning : Z;
  scan_progress : Z;
  scan_status : cstr
}.
Definition set_stations (v : list rom_station_t) (c : t) : t :=
  mk v (station_count c) (roms c) (rom_count c) (rom_capacity c)
     (initialized c) (scanning c) (scan_progress c) (scan_status c).
Definition set_station_count (v : Z) (c : t) : t :=
  mk (stations c) v (roms c) (rom_count c) (rom_capacity c)
     (initialized c) (scanning c) (scan_progress c) (scan_status c).
Definition set_roms (v : list rom_entry_t) (c : t) : t :=
  mk (stations c) (station_count c) v (rom_count c) (rom_capacity c)
     (initialized c) (scanning c) (scan_progress c) (scan_status c).
Definition set_rom_count (v : nat) (c : t) : t :=
  mk (stations c) (station_count c) (roms c) v (rom_capacity c)
     (initialized c) (scanning c) (scan_progress c) (scan_status c).
Definition set_rom_capacity (v : nat) (c : t) : t :=
  mk (stations c) (station_count c) (roms c) (rom_count c) v
     (initialized c) (scanning c) (scan_progress c) (scan_status c).
Definition set_initialized (v : Z) (c : t) : t :=
  mk (stations c) (station_count c) (roms c) (rom_count c) (rom_capacity c)
     v (scanning c) (scan_progress c) (scan_status c).
Definition set_scanning (v : Z) (c : t) : t :=
  mk (stations c) (station_count c) (roms c) (rom_count c) (rom_capacity c)
     (initialized c) v (scan_progress c) (scan_status c).
Definition set_scan_progress (v : Z) (c : t) : t :=
  mk (stations c) (station_count c) (roms c) (rom_count c) (rom_capacity c)
     (initialized c) (scanning c) v (scan_status c).
Definition set_scan_status (v : cstr) (c : t) : t :=
  mk (stations c) (station_count c) (roms c) (rom_count c) (rom_capacity c)
     (initialized c) (scanning c) (scan_progress c) v.
End rom_catalog.
Abbreviation rom_catalog_t := rom_catalog.t.

(** The file-scope variables of [rom_catalog.cpp], with the catalog and the
    content last handed to [FileSaveConfig] for [rom_stations.cfg]. The
    array [filtered_roms] is [None] when the pointer is NULL; otherwise it
    lists the elements written so far, each a pointer into the store. *)
Module globals.
Record t := mk {
  g_rom_catalog : rom_catalog_t;
  iSelectedEntry : Z;
  iFirstEntry : Z;
  browse_station_filter : Z;
  filtered_roms : option (list nat);
  filtered_count : nat;
  filtered_capacity : nat;
  search_filter : cstr;
  scan_cancel_flag : Z;
  current_sort_mode : rom_sort_mode_t;
  rom_stations_cfg : option (list rom_station_t)
}.
Definition set_g_rom_catalog (v : rom_catalog_t) (g : t) : t :=
  mk v (iSelectedEntry g) (iFirstEntry g) (browse_station_filter g)
     (filtered_roms g) (filtered_count g) (filtered_capacity g)
     (search_filter g) (scan_cancel_flag g) (current_sort_mode g)
     (rom_stations_cfg g).
Definition set_cursor (first selected : Z) (g : t) : t :=
  mk (g_rom_catalog g) selected first (browse_station_filter g)
     (filtered_roms g) (filtered_count g) (filtered_capacity g)
     (search_filter g) (scan_cancel_flag g) (current_sort_mode g)
     (rom_stations_cfg g).
Definition set_browse_station_filter (v : Z) (g : t) : t :=
  mk (g_rom_catalog g) (iSelectedEntry g) (iFirstEntry g) v
     (filtered_roms g) (filtered_count g) (filtered_capacity g)
     (search_filter g) (scan_cancel_flag g) (current_sort_mode g)
     (rom_stations_cfg g).
Definition set_view (ptrs : option (list nat)) (count capacity : nat) (g : t) : t :=
  mk (g_rom_catalog g) (iSelectedEntry g) (iFirstEntry g)
     (browse_station_filter g) ptrs count capacity
     (search_filter g) (scan_cancel_flag g) (current_sort_mode g)
     (rom_stations_cfg g).
Definition set_search_filter (v : cstr) (g : t) : t :=
  mk (g_rom_catalog g) (iSelectedEntry g) (iFirstEntry g)
     (browse_station_filter g) (filtered_roms g) (filtered_count g)
     (filtered_capacity g) v (scan_cancel_flag g) (current_sort_mode g)
     (rom_stations_cfg g).
Definition set_scan_cancel_flag (v : Z) (g : t) : t :=
  mk (g_rom_catalog g) (iSelectedEntry g) (iFirstEntry g)
     (browse_station_filter g) (filtered_roms g) (filtered_count g)
     (filtered_capacity g) (search_filter g) v (current_sort_mode g)
     (rom_stations_cfg g).
Definition set_current_sort_mode (v : rom_sort_mode_t) (g : t) : t :=
  mk (g_rom_catalog g) (iSelectedEntry g) (iFirstEntry g)
     (browse_station_filter g) (filtered_roms g) (filtered_count g)
     (filtered_capacity g) (search_filter g) (scan_cancel_flag g) v
     (rom_stations_cfg g).
Definition set_rom_stations_cfg (v : option (list rom_station_t)) (g : t) : t :=
  mk (g_rom_catalog g) (iSelectedEntry g) (iFirstEntry g)
     (browse_station_filter g) (filtered_roms g) (filtered_count g)
     (filtered_capacity g) (search_filter g) (scan_cancel_flag g)
     (current_sort_mode g) v.
(** Update the catalog in place. *)
Definition with_catalog (f : rom_catalog_t -> rom_catalog_t) (g : t) : t :=
  set_g_rom_catalog (f (g_rom_catalog g)) g.
End globals.
Abbreviation globals_t := globals.t.

(** ** Services used by the catalog *)

Inductive file_kind := S_IFDIR | S_IFREG | S_IFOTHER.

Record stat_t := mk_stat { st_mode : file_kind; st_size : Z; st_mtime : Z }.

(** What the catalog code asks of its surroundings: [getFullPath],
    [opendir] with the names [readdir] yields in order, [stat],
    [PathIsDir], [FileExists], whether [malloc] or [realloc] grants a
    block of [n] elements, and the order [qsort] leaves an array in for a
    given comparison, and the number of rows of the on-screen display. *)
Record env_t := mk_env {
  games_dir : cstr;
  root_dir : cstr;
  opendir : cstr -> option (list cstr);
  stat : cstr -> option stat_t;
  PathIsDir : cstr -> bool;
  FileExists : cstr -> bool;
  alloc_ok : nat -> bool;
  qsort : (nat -> nat -> Z) -> list nat -> list nat;
  OsdGetSize : Z
}.

(** ** Station management *)

Definition rom_catalog_save (g : globals_t) : globals_t :=
  globals.set_rom_stations_cfg
    (Some (rom_catalog.stations (globals.g_rom_catalog g))) g.

(** The loop of [rom_station_add] that looks for the first slot that is
    not enabled; [-1] when there is none. *)
Fixpoint first_free_slot (slots : list rom_station_t) (i : Z) : Z :=
  match slots with
  | [] => -1
  | s :: slots' =>
      if rom_station.enabled s =? 0 then i else first_free_slot slots' (i + 1)
  end.

Definition rom_station_add (name short_name rom_path core_path extensions : cstr)
    (g : globals_t) : Z * globals_t :=
  let c := globals.g_rom_catalog g in
  let slot :=
    first_free_slot (take (Z.to_nat ROM_MAX_STATIONS) (rom_catalog.stations c)) 0 in
  if slot <? 0 then (-1, g)
  else
    let station :=
      rom_station.mk slot (strncpy name (ROM_NAME_LEN - 1))
        (strncpy short_name 31) (strncpy rom_path (ROM_PATH_LEN - 1))
        (strncpy core_path (ROM_PATH_LEN - 1))
        (strncpy extensions (ROM_EXT_LEN - 1)) 1 0 in
    let c := rom_catalog.set_stations
               (<[Z.to_nat slot := station]> (rom_catalog.stations c)) c in
    let c := rom_catalog.set_station_count
               (u32 (rom_catalog.station_count c + 1)) c in
    (slot, rom_catalog_save (globals.set_g_rom_catalog c g)).

(** The compaction loop shared, statement for statement, by
    [rom_station_remove] and [rom_scan_station]: [n] elements remain to be
    visited, [i] is the read index and [write_idx] the write index. Reading
    past the allocated array does not happen while
    [rom_count <= rom_capacity]; the model stops there. *)
Fixpoint purge_loop (station_id : Z) (n i write_idx : nat)
    (roms : list rom_entry_t) : list rom_entry_t * nat :=
  match n with
  | O => (roms, write_idx)
  | S n' =>
      match roms !! i with
      | None => (roms, write_idx)
      | Some rom =>
          if negb (rom_entry.station_id rom =? station_id) then
            let roms' := if negb (write_idx =? i)%nat
                         then <[write_idx := rom]> roms else roms in
            purge_loop station_id n' (S i) (S write_idx) roms'
          else purge_loop station_id n' (S i) write_idx roms
      end
  end.

Definition purge_station_roms (station_id : Z) (c : rom_catalog_t) : rom_catalog_t :=
  let '(roms', write_idx) :=
    purge_loop station_id (rom_catalog.rom_count c) 0 0 (rom_catalog.roms c) in
  rom_catalog.set_rom_count write_idx (rom_catalog.set_roms roms' c).

(** [None] is the NULL result. *)
Definition rom_station_get (c : rom_catalog_t) (station_id : Z) : option rom_station_t :=
  if station_id >=? ROM_MAX_STATIONS then None
  else match rom_catalog.stations c !! Z.to_nat station_id with
       | Some s => if rom_station.enabled s =? 0 then None else Some s
       | None => None
       end.

(** ** Browse view *)

(** The loop of [rebuild_filtered_list]: [n] elements remain, [i] is the
    index of the element looked at, [ptrs] holds the pointers stored so far
    and [count] is [filtered_count]. *)
Fixpoint rebuild_loop (c : rom_catalog_t) (station_filter : Z) (search : cstr)
    (n i : nat) (ptrs : list nat) (count : nat) : list nat * nat :=
  match n with
  | O => (ptrs, count)
  | S n' =>
      match rom_catalog.roms c !! i with
      | None => (ptrs, count)
      | Some rom =>
          if (station_filter >=? 0)
             && negb (int32 (rom_entry.station_id rom) =? station_filter)
          then rebuild_loop c station_filter search n' (S i) ptrs count
          else
            match search with
            | _ :: _ =>
                match strcasestr (rom_entry.name rom) search with
                | None => rebuild_loop c station_filter search n' (S i) ptrs count
                | Some _ =>
                    rebuild_loop c station_filter search n' (S i)
                      (ptrs ++ [i]) (S count)
                end
            | [] =>
                rebuild_loop c station_filter search n' (S i)
                  (ptrs ++ [i]) (S count)
            end
      end
  end.

(** The value given to [filtered_capacity]. *)
Definition view_capacity (c : rom_catalog_t) : nat :=
  if (0 <? rom_catalog.rom_count c)%nat then rom_catalog.rom_count c else 64%nat.

Definition rebuild_filtered_list (E : env_t) (g : globals_t) : globals_t :=
  let c := globals.g_rom_catalog g in
  let capacity := view_capacity c in
  if negb (alloc_ok E capacity) then globals.set_view None 0 capacity g
  else
    let '(ptrs, count) :=
      rebuild_loop c (globals.browse_station_filter g) (globals.search_filter g)
        (rom_catalog.rom_count c) 0 [] 0 in
    globals.set_view (Some ptrs) count capacity g.

Definition rom_browse_init (E : env_t) (filter_station_id : Z) (g : globals_t) : globals_t :=
  let g := globals.set_browse_station_filter filter_station_id g in
  let g := globals.set_cursor 0 0 g in
  let g := globals.set_search_filter [] g in
  rebuild_filtered_list E g.

Definition rom_browse_available (g : globals_t) : Z :=
  Z.of_nat (globals.filtered_count g).

Definition rom_station_remove (E : env_t) (station_id : Z) (g : globals_t)
    : Z * globals_t :=
  let c := globals.g_rom_catalog g in
  if station_id >=? ROM_MAX_STATIONS then (-1, g)
  else match rom_catalog.stations c !! Z.to_nat station_id with
       | None => (-1, g)
       | Some s =>
           if rom_station.enabled s =? 0 then (-1, g)
           else
             let c := purge_station_roms station_id c in
             let c := rom_catalog.set_stations
                        (<[Z.to_nat station_id := rom_station.set_enabled 0 s]>
                           (rom_catalog.stations c)) c in
             let c := rom_catalog.set_station_count
                        (u32 (rom_catalog.station_count c - 1)) c in
             let g := rom_catalog_save (globals.set_g_rom_catalog c g) in
             (0, rebuild_filtered_list E g)
       end.

(** [memcpy] of the whole structure into the slot. *)
Definition rom_station_update (station_id : Z) (station : rom_station_t)
    (g : globals_t) : Z * globals_t :=
  if station_id >=? ROM_MAX_STATIONS then (-1, g)
  else
    let c := globals.g_rom_catalog g in
    let c := rom_catalog.set_stations
               (<[Z.to_nat station_id := station]> (rom_catalog.stations c)) c in
    (0, rom_catalog_save (globals.set_g_rom_catalog c g)).

Definition rom_station_count (g : globals_t) : Z :=
  int32 (rom_catalog.station_count (globals.g_rom_catalog g)).

(** ** Scanning *)

(** The station an entry is attributed to is passed as its slot: the
    source passes [&g_rom_catalog.stations[slot]]. *)
Definition add_rom_entry (E : env_t) (slot : nat) (path filename : cstr)
    (size date : Z) (g : globals_t) : Z * globals_t :=
  let c := globals.g_rom_catalog g in
  let grown :=
    if (rom_catalog.rom_capacity c <=? rom_catalog.rom_count c)%nat then
      let new_capacity := (rom_catalog.rom_capacity c * 2)%nat in
      if alloc_ok E new_capacity then
        Some (rom_catalog.set_rom_capacity new_capacity
                (rom_catalog.set_roms
                   (rom_catalog.roms c
                    ++ replicate (new_capacity - length (rom_catalog.roms c))
                         rom_entry.zero) c))
      else None
    else Some c in
  match grown with
  | None => (-1, g)
  | Some c =>
      let station := default rom_station.zero (rom_catalog.stations c !! slot) in
      let name := extract_display_name filename ROM_NAME_LEN in
      let preview1 :=
        snprintf ROM_PATH_LEN
          (games_dir E ++ lit "/previews/" ++ name ++ lit ".png") in
      let preview2 :=
        snprintf ROM_PATH_LEN
          (games_dir E ++ lit "/" ++ rom_station.short_name station
           ++ lit "/previews/" ++ name ++ lit ".png") in
      let '(has_preview, preview_path) :=
        if FileExists E preview1 then (1, strncpy preview1 (ROM_PATH_LEN - 1))
        else if FileExists E preview2 then (1, strncpy preview2 (ROM_PATH_LEN - 1))
        else (0, []) in
      let rom :=
        rom_entry.mk name (strncpy filename (ROM_NAME_LEN - 1))
          (strncpy path (ROM_PATH_LEN - 1)) (rom_station.id station)
          (u32 size) (u32 date) has_preview preview_path in
      let c := rom_catalog.set_roms
                 (<[rom_catalog.rom_count c := rom]> (rom_catalog.roms c)) c in
      let c := rom_catalog.set_rom_count (S (rom_catalog.rom_count c)) c in
      let c := rom_catalog.set_stations
                 (<[slot := rom_station.set_rom_count
                              (u32 (rom_station.rom_count station + 1)) station]>
                    (rom_catalog.stations c)) c in
      (0, globals.set_g_rom_catalog c g)
  end.

(** One round of the [readdir] loop; [recurse] is the call for a
    subdirectory. Once the cancel flag is up the loop is left, so the
    remaining names change nothing. *)
Definition scan_dir_entry (E : env_t) (slot : nat) (dir_path : cstr)
    (recurse : cstr -> globals_t -> globals_t) (g : globals_t) (d_name : cstr)
    : globals_t :=
  if negb (globals.scan_cancel_flag g =? 0) then g
  else if match d_name with c :: _ => char_eqb c dot_char | [] => false end then g
  else
    let full_path := snprintf ROM_PATH_LEN (dir_path ++ lit "/" ++ d_name) in
    match stat E full_path with
    | None => g
    | Some st =>
        match st_mode st with
        | S_IFDIR => recurse full_path g
        | S_IFREG =>
            let station :=
              default rom_station.zero
                (rom_catalog.stations (globals.g_rom_catalog g) !! slot) in
            if negb (match_extension d_name
                       (Some (rom_station.extensions station)) =? 0)
            then snd (add_rom_entry E slot full_path d_name
                        (st_size st) (st_mtime st) g)
            else g
        | S_IFOTHER => g
        end
    end.

(** [levels] is [6 - depth]: the source returns at once when [depth > 5],
    which is [levels = 0] here, and the first call has [depth = 0]. *)
Fixpoint scan_directory_recursive (levels : nat) (E : env_t) (slot : nat)
    (dir_path : cstr) (g : globals_t) : globals_t :=
  match levels with
  | O => g
  | S levels' =>
      if negb (globals.scan_cancel_flag g =? 0) then g
      else
        match opendir E dir_path with
        | None => g
        | Some names =>
            fold_left
              (scan_dir_entry E slot dir_path
                 (scan_directory_recursive levels' E slot))
              names g
        end
  end.

Definition scan_storage_dir (E : env_t) (slot : nat) (rom_path : cstr)
    (g : globals_t) (storage_dir : cstr) : globals_t :=
  if negb (globals.scan_cancel_flag g =? 0) then g
  else
    let full_path := snprintf ROM_PATH_LEN (storage_dir ++ lit "/" ++ rom_path) in
    if PathIsDir E full_path then scan_directory_recursive 6 E slot full_path g
    else g.

Definition rom_scan_station (E : env_t) (station_id : Z) (g : globals_t)
    : Z * globals_t :=
  match rom_station_get (globals.g_rom_catalog g) station_id with
  | None => (-1, g)
  | Some station =>
      let slot := Z.to_nat station_id in
      let g := globals.set_scan_cancel_flag 0 g in
      let g := globals.with_catalog (rom_catalog.set_scanning 1) g in
      let g := globals.with_catalog
                 (rom_catalog.set_scan_status
                    (snprintf 256 (lit "Scanning "
                                   ++ rom_station.short_name station ++ lit "...")))
                 g in
      let g := globals.with_catalog (purge_station_roms station_id) g in
      let g := globals.with_catalog
                 (fun c => rom_catalog.set_stations
                             (<[slot := rom_station.set_rom_count 0 station]>
                                (rom_catalog.stations c)) c) g in
      let g := fold_left (scan_storage_dir E slot (rom_station.rom_path station))
                 [games_dir E; root_dir E] g in
      let g := globals.with_catalog (rom_catalog.set_scanning 0) g in
      let g := rebuild_filtered_list E g in
      let station :=
        default rom_station.zero
          (rom_catalog.stations (globals.g_rom_catalog g) !! slot) in
      (int32 (rom_station.rom_count station), g)
  end.

(** What a reader of [rom_scan_progress] sees while a station is being
    scanned: the slot and the value of [scan_progress] set just before the
    call of [rom_scan_station]. *)
Definition progress_trace := list (Z * Z).

(** The loop of [rom_scan_all] over the slots [i], [i + 1], ...; [n] slots
    remain. The division traps when [station_count] is 0: the result is
    [None]. *)
Fixpoint scan_all_loop (E : env_t) (n : nat) (i : Z) (total : Z)
    (trace : progress_trace) (g : globals_t)
    : option (Z * progress_trace * globals_t) :=
  match n with
  | O => Some (total, trace, g)
  | S n' =>
      if negb (globals.scan_cancel_flag g =? 0) then Some (total, trace, g)
      else
        let c := globals.g_rom_catalog g in
        let station := default rom_station.zero
                         (rom_catalog.stations c !! Z.to_nat i) in
        if negb (rom_station.enabled station =? 0) then
          if rom_catalog.station_count c =? 0 then None
          else
            let progress := u32 (i * 100) / rom_catalog.station_count c in
            let g := globals.with_catalog
                       (rom_catalog.set_scan_progress progress) g in
            let '(r, g) := rom_scan_station E i g in
            scan_all_loop E n' (i + 1) (total + r) (trace ++ [(i, progress)]) g
        else scan_all_loop E n' (i + 1) total trace g
  end.

Definition rom_scan_all (E : env_t) (g : globals_t)
    : option (Z * progress_trace * globals_t) :=
  let g := globals.set_scan_cancel_flag 0 g in
  let g := globals.with_catalog (rom_catalog.set_scanning 1) g in
  match scan_all_loop E (Z.to_nat ROM_MAX_STATIONS) 0 0 [] g with
  | None => None
  | Some (total, trace, g) =>
      let g := globals.with_catalog (rom_catalog.set_scanning 0) g in
      let g := globals.with_catalog (rom_catalog.set_scan_progress 100) g in
      let g := globals.with_catalog
                 (rom_catalog.set_scan_status (lit "Scan complete")) g in
      Some (total, trace, g)
  end.

Definition rom_scan_cancel (g : globals_t) : globals_t :=
  globals.set_scan_cancel_flag 1 g.

Definition rom_scan_progress (g : globals_t) : Z :=
  int32 (rom_catalog.scan_progress (globals.g_rom_catalog g)).

(** ** Sorting and filtering *)

(** [compare_roms] on two pointers into the store. The numeric keys are
    [uint32_t]: their difference wraps and is then read as an [int]. *)
Definition compare_roms (c : rom_catalog_t) (mode : rom_sort_mode_t)
    (a b : nat) : Z :=
  match rom_catalog.roms c !! a, rom_catalog.roms c !! b with
  | Some ra, Some rb =>
      match mode with
      | ROM_SORT_NAME_ASC => strcasecmp (rom_entry.name ra) (rom_entry.name rb)
      | ROM_SORT_NAME_DESC => strcasecmp (rom_entry.name rb) (rom_entry.name ra)
      | ROM_SORT_STATION_ASC =>
          if negb (rom_entry.station_id ra =? rom_entry.station_id rb)
          then int32 (u32 (rom_entry.station_id ra - rom_entry.station_id rb))
          else strcasecmp (rom_entry.name ra) (rom_entry.name rb)
      | ROM_SORT_STATION_DESC =>
          if negb (rom_entry.station_id ra =? rom_entry.station_id rb)
          then int32 (u32 (rom_entry.station_id rb - rom_entry.station_id ra))
          else strcasecmp (rom_entry.name ra) (rom_entry.name rb)
      | ROM_SORT_DATE_ASC => int32 (u32 (rom_entry.date ra - rom_entry.date rb))
      | ROM_SORT_DATE_DESC => int32 (u32 (rom_entry.date rb - rom_entry.date ra))
      | ROM_SORT_SIZE_ASC => int32 (u32 (rom_entry.size ra - rom_entry.size rb))
      | ROM_SORT_SIZE_DESC => int32 (u32 (rom_entry.size rb - rom_entry.size ra))
      end
  | _, _ => 0
  end.

Definition rom_sort (E : env_t) (mode : rom_sort_mode_t) (g : globals_t) : globals_t :=
  let g := globals.set_current_sort_mode mode g in
  match globals.filtered_roms g with
  | Some ptrs =>
      if (0 <? globals.filtered_count g)%nat then
        let n := globals.filtered_count g in
        let sorted :=
          qsort E (compare_roms (globals.g_rom_catalog g) mode) (take n ptrs) in
        globals.set_view (Some (sorted ++ drop n ptrs))
          (globals.filtered_count g) (globals.filtered_capacity g) g
      else g
  | None => g
  end.

Definition rom_filter_set (E : env_t) (search_text : cstr) (g : globals_t) : globals_t :=
  let g := globals.set_search_filter (strncpy search_text 255) g in
  let g := rebuild_filtered_list E g in
  globals.set_cursor 0 0 g.

Definition rom_filter_clear (E : env_t) (g : globals_t) : globals_t :=
  let g := globals.set_search_filter [] g in
  rebuild_filtered_list E g.

Definition rom_filter_active (g : globals_t) : Z :=
  match globals.search_filter g with
  | [] => 0
  | _ :: _ => 1
  end.

Definition rom_get_count (g : globals_t) : Z :=
  Z.of_nat (rom_catalog.rom_count (globals.g_rom_catalog g)).

Definition rom_get_by_index (g : globals_t) (index : Z) : option rom_entry_t :=
  if (index <? 0) || (index >=? rom_get_count g) then None
  else rom_catalog.roms (globals.g_rom_catalog g) !! Z.to_nat index.

(** ** Preview resolver ([rom_preview.h], [rom_preview.cpp]) *)

Definition PREVIEW_CACHE_DIR : cstr := lit "previews".
Definition PREVIEW_FETCH_TIMEOUT : cstr := lit "10".

Inductive preview_status_t :=
  | PREVIEW_STATUS_NONE
  | PREVIEW_STATUS_LOADING
  | PREVIEW_STATUS_READY
  | PREVIEW_STATUS_NOT_FOUND
  | PREVIEW_STATUS_ERROR
  | PREVIEW_STATUS_NO_INTERNET.

(** A decoded Imlib2 image, as far as the resolver looks at it. *)
Record image_t := mk_image { image_width : Z; image_height : Z }.

Module rom_preview_data.
Record t := mk {
  status : preview_status_t;
  image_data : option image_t;
  width : Z;
  height : Z;
  rom_name : cstr;
  station_id : Z
}.
Definition zero : t := mk PREVIEW_STATUS_NONE None 0 0 [] 0.
Definition set_status (v : preview_status_t) (p : t) : t :=
  mk v (image_data p) (width p) (height p) (rom_name p) (station_id p).
End rom_preview_data.
Abbreviation rom_preview_data_t := rom_preview_data.t.

(** A file is there or not; when it is there it decodes to an image or it
    does not. *)
Definition files_t := cstr -> option (option image_t).

Fixpoint cstr_eqb (a b : cstr) : bool :=
  match a, b with
  | [], [] => true
  | x :: a', y :: b' => char_eqb x y && cstr_eqb a' b'
  | _, _ => false
  end.

Definition remove_file (path : cstr) (files : files_t) : files_t :=
  fun p => if cstr_eqb p path then None else files p.

(** Calls that leave the process, in the order they are made. *)
Inductive os_call :=
  | call_getaddrinfo (node service : cstr)
  | call_FileCreatePath (path : cstr)
  | call_system (cmd : cstr)
  | call_unlink (path : cstr)
  | call_imlib_load_image (path : cstr)
  | call_imlib_free_image
  | call_pthread_create
  | call_pthread_join.

(** What the resolver asks of its surroundings: the result of
    [getaddrinfo], the exit status of a command run by [system] with what
    it leaves in the file system, and the result of [pthread_create]. *)
Record sys_t := mk_sys {
  full_games_dir : cstr;
  getaddrinfo : cstr -> cstr -> Z;
  system : cstr -> files_t -> Z * files_t;
  pthread_create : Z
}.

(** The variables of [rom_preview.cpp], the files and the calls made so
    far. [fetch_thread] is [Some arg] from a successful [pthread_create]
    until the body of the thread has run; the body runs in one piece,
    either when the scheduler picks it ([run_fetch_thread]) or at the
    latest inside [pthread_join]. *)
Module world.
Record t := mk {
  g_current_preview : rom_preview_data_t;
  fetch_thread : option (option rom_entry_t);
  fetch_in_progress : Z;
  fetch_cancel : Z;
  files : files_t;
  calls : list os_call
}.
Definition set_g_current_preview (v : rom_preview_data_t) (w : t) : t :=
  mk v (fetch_thread w) (fetch_in_progress w) (fetch_cancel w) (files w) (calls w).
Definition set_fetch_thread (v : option (option rom_entry_t)) (w : t) : t :=
  mk (g_current_preview w) v (fetch_in_progress w) (fetch_cancel w) (files w)
     (calls w).
Definition set_fetch_in_progress (v : Z) (w : t) : t :=
  mk (g_current_preview w) (fetch_thread w) v (fetch_cancel w) (files w) (calls w).
Definition set_fetch_cancel (v : Z) (w : t) : t :=
  mk (g_current_preview w) (fetch_thread w) (fetch_in_progress w) v (files w)
     (calls w).
Definition set_files (v : files_t) (w : t) : t :=
  mk (g_current_preview w) (fetch_thread w) (fetch_in_progress w)
     (fetch_cancel w) v (calls w).
Definition log (c : os_call) (w : t) : t :=
  mk (g_current_preview w) (fetch_thread w) (fetch_in_progress w)
     (fetch_cancel w) (files w) (calls w ++ [c]).
Definition set_status (v : preview_status_t) (w : t) : t :=
  set_g_current_preview (rom_preview_data.set_status v (g_current_preview w)) w.
(** The state the statics are initialised to, over given files. *)
Definition initial (fs : files_t) : t :=
  mk rom_preview_data.zero None 0 0 fs [].
End world.
Abbreviation world_t := world.t.

Definition FileExists_in (w : world_t) (path : cstr) : bool :=
  match world.files w path with Some _ => true | None => false end.

Definition rom_preview_check_internet (sys : sys_t) (w : world_t) : Z * world_t :=
  let w := world.log (call_getaddrinfo (lit "github.com") (lit "443")) w in
  let result := getaddrinfo sys (lit "github.com") (lit "443") in
  (if result =? 0 then 1 else 0, w).

Definition rom_preview_clear (w : world_t) : world_t :=
  let w := match rom_preview_data.image_data (world.g_current_preview w) with
           | Some _ => world.log call_imlib_free_image w
           | None => w
           end in
  world.set_g_current_preview rom_preview_data.zero w.

Definition rom_preview_get_status (w : world_t) : preview_status_t :=
  rom_preview_data.status (world.g_current_preview w).

(** [imlib_load_image_with_error_return]. *)
Definition imlib_load_image (path : cstr) (w : world_t) : option image_t * world_t :=
  let w := world.log (call_imlib_load_image path) w in
  (match world.files w path with Some (Some img) => Some img | _ => None end, w).

(** The assignments made once an image has been loaded. *)
Definition preview_ready (img : image_t) (rom : rom_entry_t) (w : world_t) : world_t :=
  world.set_g_current_preview
    (rom_preview_data.mk PREVIEW_STATUS_READY (Some img) (image_width img)
       (image_height img) (strncpy (rom_entry.name rom) 255)
       (rom_entry.station_id rom)) w.

(** The three formats of [preview_dirs] applied to the same four
    arguments; the last one has three conversions and leaves the entry name
    unused. *)
Definition preview_candidates (sys : sys_t) (station_name name : cstr) : list cstr :=
  [ snprintf 1024 (full_games_dir sys ++ lit "/" ++ PREVIEW_CACHE_DIR ++ lit "/"
                   ++ station_name ++ lit "/" ++ name ++ lit ".png");
    snprintf 1024 (full_games_dir sys ++ lit "/" ++ PREVIEW_CACHE_DIR ++ lit "/"
                   ++ station_name ++ lit "/" ++ name ++ lit ".jpg");
    snprintf 1024 (full_games_dir sys ++ lit "/" ++ PREVIEW_CACHE_DIR ++ lit "/"
                   ++ station_name ++ lit ".png") ].

(** The loop over [preview_dirs]. *)
Fixpoint load_first_candidate (paths : list cstr) (rom : rom_entry_t)
    (w : world_t) : Z * world_t :=
  match paths with
  | [] => (-1, world.set_status PREVIEW_STATUS_NOT_FOUND w)
  | preview_path :: paths' =>
      if FileExists_in w preview_path then
        let '(img, w) := imlib_load_image preview_path w in
        match img with
        | Some img => (0, preview_ready img rom w)
        | None => load_first_candidate paths' rom w
        end
      else load_first_candidate paths' rom w
  end.

Definition rom_preview_load_local (sys : sys_t) (c : rom_catalog_t)
    (rom : option rom_entry_t) (w : world_t) : Z * world_t :=
  match rom with
  | None => (-1, w)
  | Some rom =>
      let w := rom_preview_clear w in
      let '(first, w) :=
        match rom_entry.has_preview rom =? 0, rom_entry.preview_path rom with
        | false, _ :: _ => imlib_load_image (rom_entry.preview_path rom) w
        | _, _ => (None, w)
        end in
      match first with
      | Some img => (0, preview_ready img rom w)
      | None =>
          let station_name :=
            match rom_station_get c (rom_entry.station_id rom) with
            | Some station => rom_station.short_name station
            | None => lit "unknown"
            end in
          load_first_candidate
            (preview_candidates sys station_name (rom_entry.name rom)) rom w
      end
  end.

Definition hex_digit (n : nat) : ascii :=
  nth n (lit "0123456789ABCDEF") "0"%char.

Definition url_unreserved (c : ascii) : bool :=
  let n := nat_of_ascii c in
  ((65 <=? n) && (n <=? 90) || (97 <=? n) && (n <=? 122)
   || (48 <=? n) && (n <=? 57)
   || char_eqb c "-" || char_eqb c "_" || char_eqb c "." || char_eqb c "~")%nat.

(** The loop of [url_encode]; [i] is the number of characters written. *)
Fixpoint url_encode_loop (src : cstr) (i dst_size : nat) : cstr :=
  match src with
  | [] => []
  | c :: src' =>
      if (i <? dst_size - 4)%nat then
        if url_unreserved c then c :: url_encode_loop src' (i + 1) dst_size
        else if char_eqb c space then
          "+"%char :: url_encode_loop src' (i + 1) dst_size
        else
          "%"%char :: hex_digit (nat_of_ascii c / 16)
            :: hex_digit (nat_of_ascii c mod 16)
            :: url_encode_loop src' (i + 3) dst_size
      else []
  end.

Definition url_encode (src : cstr) (dst_size : nat) : cstr :=
  url_encode_loop src 0 dst_size.

Definition libretro_mappings : list (cstr * cstr) :=
  [ (lit "NES", lit "Nintendo_-_Nintendo_Entertainment_System");
    (lit "SNES", lit "Nintendo_-_Super_Nintendo_Entertainment_System");
    (lit "Genesis", lit "Sega_-_Mega_Drive_-_Genesis");
    (lit "SMS", lit "Sega_-_Master_System_-_Mark_III");
    (lit "GB", lit "Nintendo_-_Game_Boy");
    (lit "GBC", lit "Nintendo_-_Game_Boy_Color");
    (lit "GBA", lit "Nintendo_-_Game_Boy_Advance");
    (lit "N64", lit "Nintendo_-_Nintendo_64");
    (lit "A2600", lit "Atari_-_2600");
    (lit "A7800", lit "Atari_-_7800");
    (lit "A5200", lit "Atari_-_5200");
    (lit "TG16", lit "NEC_-_PC_Engine_-_TurboGrafx_16");
    (lit "NeoGeo", lit "SNK_-_Neo_Geo");
    (lit "Arcade", lit "MAME");
    (lit "PS1", lit "Sony_-_PlayStation");
    (lit "PSX", lit "Sony_-_PlayStation");
    (lit "SegaCD", lit "Sega_-_Mega-CD_-_Sega_CD");
    (lit "Saturn", lit "Sega_-_Saturn");
    (lit "S32X", lit "Sega_-_32X");
    (lit "C64", lit "Commodore_-_64");
    (lit "Amiga", lit "Commodore_-_Amiga");
    (lit "AtariST", lit "Atari_-_ST");
    (lit "MSX", lit "Microsoft_-_MSX");
    (lit "Spectrum", lit "Sinclair_-_ZX_Spectrum");
    (lit "CPC", lit "Amstrad_-_CPC");
    (lit "Coleco", lit "Coleco_-_ColecoVision");
    (lit "Intv", lit "Mattel_-_Intellivision");
    (lit "Vectrex", lit "GCE_-_Vectrex");
    (lit "WS", lit "Bandai_-_WonderSwan");
    (lit "NGP", lit "SNK_-_Neo_Geo_Pocket") ].

Fixpoint lookup_mapping (mappings : list (cstr * cstr)) (short_name : cstr) : cstr :=
  match mappings with
  | [] => short_name
  | (key, libretro_name) :: mappings' =>
      if strcasecmp short_name key =? 0 then libretro_name
      else lookup_mapping mappings' short_name
  end.

Definition get_libretro_system_name (short_name : cstr) : cstr :=
  lookup_mapping libretro_mappings short_name.

Definition dquote : ascii := ascii_of_nat 34.

Definition download_file (sys : sys_t) (url save_path : cstr) (w : world_t)
    : Z * world_t :=
  let cmd :=
    snprintf 2048
      (lit "wget -q -T " ++ PREVIEW_FETCH_TIMEOUT ++ lit " -O " ++ [dquote]
       ++ save_path ++ [dquote] ++ lit " " ++ [dquote] ++ url ++ [dquote]
       ++ lit " 2>/dev/null") in
  let w := world.log (call_system cmd) w in
  let '(ret, files') := system sys cmd (world.files w) in
  let w := world.set_files files' w in
  if (ret =? 0) && FileExists_in w save_path then (0, w)
  else
    let w := world.log (call_unlink save_path) w in
    (-1, world.set_files (remove_file save_path (world.files w)) w).

Definition thumbnail_url (libretro_system category encoded_name : cstr) : cstr :=
  snprintf 1024
    (lit "https://thumbnails.libretro.com/" ++ libretro_system ++ lit "/"
     ++ category ++ lit "/" ++ encoded_name ++ lit ".png").

(** The three attempts of [rom_preview_fetch_online], in source order. *)
Fixpoint fetch_categories (sys : sys_t) (c : rom_catalog_t)
    (categories : list cstr) (libretro_system encoded_name save_path : cstr)
    (rom : rom_entry_t) (w : world_t) : Z * world_t :=
  match categories with
  | [] => (-1, world.set_status PREVIEW_STATUS_NOT_FOUND w)
  | category :: categories' =>
      let url := thumbnail_url libretro_system category encoded_name in
      let '(r, w) := download_file sys url save_path w in
      if r =? 0 then rom_preview_load_local sys c (Some rom) w
      else fetch_categories sys c categories' libretro_system encoded_name
             save_path rom w
  end.

Definition rom_preview_fetch_online (sys : sys_t) (c : rom_catalog_t)
    (rom : option rom_entry_t) (w : world_t) : Z * world_t :=
  match rom with
  | None => (-1, w)
  | Some rom =>
      match rom_station_get c (rom_entry.station_id rom) with
      | None => (-1, w)
      | Some station =>
          let '(online, w) := rom_preview_check_internet sys w in
          if online =? 0 then
            (-1, world.set_status PREVIEW_STATUS_NO_INTERNET w)
          else
            let w := world.set_status PREVIEW_STATUS_LOADING w in
            let save_dir :=
              snprintf 512
                (full_games_dir sys ++ lit "/" ++ PREVIEW_CACHE_DIR ++ lit "/"
                 ++ rom_station.short_name station) in
            let w := world.log (call_FileCreatePath save_dir) w in
            let save_path :=
              snprintf 1024
                (save_dir ++ lit "/" ++ rom_entry.name rom ++ lit ".png") in
            let libretro_system :=
              get_libretro_system_name (rom_station.short_name station) in
            let encoded_name := url_encode (rom_entry.name rom) 512 in
            fetch_categories sys c
              [lit "Named_Boxarts"; lit "Named_Snaps"; lit "Named_Titles"]
              libretro_system encoded_name save_path rom w
      end
  end.

(** ** Background fetch *)

Definition fetch_thread_func (sys : sys_t) (c : rom_catalog_t)
    (arg : option rom_entry_t) (w : world_t) : world_t :=
  let w :=
    match world.fetch_cancel w =? 0, arg with
    | true, Some rom => snd (rom_preview_fetch_online sys c (Some rom) w)
    | _, _ => w
    end in
  world.set_fetch_in_progress 0 w.

(** The scheduler lets the created thread run. *)
Definition run_fetch_thread (sys : sys_t) (c : rom_catalog_t) (w : world_t) : world_t :=
  match world.fetch_thread w with
  | Some arg => fetch_thread_func sys c arg (world.set_fetch_thread None w)
  | None => w
  end.

(** [pthread_join (fetch_thread, NULL)]: returns once the body has run. *)
Definition pthread_join (sys : sys_t) (c : rom_catalog_t) (w : world_t) : world_t :=
  run_fetch_thread sys c (world.log call_pthread_join w).

Definition rom_preview_fetch_async (sys : sys_t) (c : rom_catalog_t)
    (rom : option rom_entry_t) (w : world_t) : Z * world_t :=
  let w :=
    if negb (world.fetch_in_progress w =? 0) then
      pthread_join sys c (world.set_fetch_cancel 1 w)
    else w in
  let w := world.set_fetch_cancel 0 w in
  let w := world.set_fetch_in_progress 1 w in
  let w := world.set_status PREVIEW_STATUS_LOADING w in
  let w := world.log call_pthread_create w in
  if negb (pthread_create sys =? 0) then
    let w := world.set_fetch_in_progress 0 w in
    (-1, world.set_status PREVIEW_STATUS_ERROR w)
  else (0, world.set_fetch_thread (Some rom) w).

Definition rom_preview_fetch_poll (w : world_t) : Z :=
  if world.fetch_in_progress w =? 0 then 1 else 0.

(** ** Cursor movement *)

(** The [SCANF_*] modes of [file_io.h] that [rom_browse_scan] tells apart;
    any other value is [SCANF_OTHER]. *)
Inductive scan_mode :=
  | SCANF_INIT
  | SCANF_END
  | SCANF_NEXT
  | SCANF_PREV
  | SCANF_NEXT_PAGE
  | SCANF_PREV_PAGE
  | SCANF_OTHER.

Definition rom_browse_scan (E : env_t) (mode : scan_mode) (g : globals_t) : globals_t :=
  let count := Z.of_nat (globals.filtered_count g) in
  let sel := globals.iSelectedEntry g in
  let first := globals.iFirstEntry g in
  let osd_size := OsdGetSize E in
  let to_end :=
    let sel := count - 1 in
    let first := sel - osd_size + 1 in
    globals.set_cursor (if first <? 0 then 0 else first) sel g in
  match mode with
  | SCANF_INIT => globals.set_cursor 0 0 g
  | _ =>
      if count =? 0 then g
      else
        match mode with
        | SCANF_END => to_end
        | SCANF_PREV =>
            if sel <=? 0 then to_end
            else
              let sel := sel - 1 in
              globals.set_cursor (if sel <? first then sel else first) sel g
        | SCANF_NEXT =>
            if sel + 1 <? count then
              let sel := sel + 1 in
              globals.set_cursor
                (if sel >? first + osd_size - 1 then sel - osd_size + 1 else first)
                sel g
            else globals.set_cursor 0 0 g
        | SCANF_NEXT_PAGE =>
            if sel <? first + osd_size - 1 then
              let sel := first + osd_size - 1 in
              globals.set_cursor first (if sel >=? count then count - 1 else sel) g
            else
              let sel := sel + osd_size in
              let first := first + osd_size in
              if sel >=? count then
                let sel := count - 1 in
                let first := sel - osd_size + 1 in
                globals.set_cursor (if first <? 0 then 0 else first) sel g
              else if first + osd_size >? count then
                globals.set_cursor (count - osd_size) sel g
              else globals.set_cursor first sel g
        | SCANF_PREV_PAGE =>
            if negb (sel =? first) then globals.set_cursor first first g
            else
              let first := first - osd_size in
              let first := if first <? 0 then 0 else first in
              globals.set_cursor first first g
        | _ => g
        end
  end.

(** ** Initial states *)

(** [g_rom_catalog = {}] and the initialisers of the file-scope
    variables. *)
Definition catalog_zero : rom_catalog_t :=
  rom_catalog.mk (replicate (Z.to_nat ROM_MAX_STATIONS) rom_station.zero)
    0 [] 0 0 0 0 0 [].

Definition globals_initial : globals_t :=
  globals.mk catalog_zero 0 0 (-1) None 0 0 [] 0 ROM_SORT_NAME_ASC None.

Definition rom_catalog_init (E : env_t) (g : globals_t) : Z * globals_t :=
  if negb (rom_catalog.initialized (globals.g_rom_catalog g) =? 0) then (0, g)
  else
    let c := rom_catalog.set_rom_capacity 1024 catalog_zero in
    if alloc_ok E 1024 then
      let c := rom_catalog.set_roms (replicate 1024 rom_entry.zero) c in
      (0, globals.set_g_rom_catalog (rom_catalog.set_initialized 1 c) g)
    else (-1, globals.set_g_rom_catalog c g).

(** ** What the properties speak about *)

(** The entries of the store: the first [rom_count] elements of the
    array. *)
Definition live_roms (c : rom_catalog_t) : list rom_entry_t :=
  take (rom_catalog.rom_count c) (rom_catalog.roms c).

Definition live_entry (c : rom_catalog_t) (i : nat) (rom : rom_entry_t) : Prop :=
  (i < rom_catalog.rom_count c)%nat /\ rom_catalog.roms c !! i = Some rom.

Definition station_matches (station_filter : Z) (rom : rom_entry_t) : Prop :=
  station_filter < 0 \/ rom_entry.station_id rom = station_filter.

(** [text] occurs in [name] when letter case is ignored. *)
Definition contains_nocase (text name : cstr) : Prop :=
  exists before after,
    map tolower name = before ++ map tolower text ++ after.

Definition name_matches (search : cstr) (rom : rom_entry_t) : Prop :=
  search = [] \/ contains_nocase search (rom_entry.name rom).

(** Entry [i] of the store passes the station filter and the search text
    of [g]. *)
Definition shown (g : globals_t) (i : nat) : Prop :=
  exists rom,
    live_entry (globals.g_rom_catalog g) i rom
    /\ station_matches (globals.browse_station_filter g) rom
    /\ name_matches (globals.search_filter g) rom.

(** Pointers in the order of the store. *)
Definition store_order (ptrs : list nat) : Prop :=
  forall j k a b,
    ptrs !! j = Some a -> ptrs !! k = Some b -> (j < k)%nat -> (a < b)%nat.

Definition uint32_range (z : Z) : Prop := 0 <= z < 2 ^ 32.
Definition int_range (z : Z) : Prop := - 2 ^ 31 <= z < 2 ^ 31.

Definition station_ids_in_range (c : rom_catalog_t) : Prop :=
  Forall (fun rom => uint32_range (rom_entry.station_id rom)) (live_roms c).

(** Does one round of the loop of [rebuild_filtered_list] store a pointer
    to element [i]? *)
Definition kept (c : rom_catalog_t) (station_filter : Z) (search : cstr)
    (i : nat) : bool :=
  match rom_catalog.roms c !! i with
  | None => false
  | Some rom =>
      negb ((station_filter >=? 0)
            && negb (int32 (rom_entry.station_id rom) =? station_filter))
      && match search with
         | [] => true
         | _ :: _ =>
             match strcasestr (rom_entry.name rom) search with
             | Some _ => true
             | None => false
             end
         end
  end.

(** A station with this id exists: the id is a slot of the registry and
    the slot is enabled. *)
Definition station_exists (c : rom_catalog_t) (station_id : Z) : Prop :=
  0 <= station_id < ROM_MAX_STATIONS
  /\ exists s, rom_catalog.stations c !! Z.to_nat station_id = Some s
              /\ rom_station.enabled s <> 0.

(** The tokens of an allow-list: its maximal runs of characters other than
    the space. *)
Fixpoint tokens (s : cstr) : list cstr :=
  match s with
  | [] => []
  | c :: s' =>
      if char_eqb c space then tokens s'
      else
        match s' with
        | [] => [[c]]
        | c' :: _ =>
            if char_eqb c' space then [c] :: tokens s'
            else match tokens s' with
                 | t :: ts => (c :: t) :: ts
                 | [] => [[c]]
                 end
        end
  end.

(** [ext] is what follows the last dot of [filename]. *)
Definition extension_of (filename ext : cstr) : Prop :=
  exists stem, filename = stem ++ dot_char :: ext /\ ~ In dot_char ext.

(** The rule of the specification read with both sides cut to 8
    characters. *)
Definition matches_with_cut_tokens (filename exts : cstr) : Prop :=
  exts = [] \/
  exists ext tok,
    extension_of filename ext /\ In tok (tokens exts)
    /\ map tolower (take 8 ext) = map tolower (take 8 tok).

(** The rule with tokens longer than 8 characters left out. *)
Definition matches_with_short_tokens (filename exts : cstr) : Prop :=
  exts = [] \/
  exists ext tok,
    extension_of filename ext /\ In tok (tokens exts)
    /\ (length tok <= 8)%nat
    /\ map tolower (take 8 ext) = map tolower tok.

(** The progress the specification describes: stations completed over
    stations enabled, as a percentage. *)
Definition completed_percentage (completed total : Z) : Z :=
  completed * 100 / total.

Definition download_attempts (calls : list os_call) : nat :=
  length (List.filter (fun c => match c with call_system _ => true | _ => false end)
            calls).

(** Entries that do not belong to station [station_id]. *)
Definition other_station (station_id : Z) (rom : rom_entry_t) : Prop :=
  rom_entry.station_id rom <> station_id.

#[local] Instance other_station_dec station_id rom :
  Decision (other_station station_id rom).
Proof. unfold other_station. apply _. Defined.

(** A token that the extension [ext_lower] is accepted for. *)
Definition token_ok (ext_lower tok : cstr) : Prop :=
  (length tok <= 8)%nat /\ ext_lower = map tolower tok.

(** The slots of the registry that are enabled, in slot order. *)
Definition enabled_slots (c : rom_catalog_t) : list Z :=
  List.filter
    (fun i => negb (rom_station.enabled
                      (default rom_station.zero
                         (rom_catalog.stations c !! Z.to_nat i)) =? 0))
    (map Z.of_nat (seq 0 (Z.to_nat ROM_MAX_STATIONS))).

(** ** Sample surroundings and states *)

Fixpoint insert_by (cmp : nat -> nat -> Z) (x : nat) (l : list nat) : list nat :=
  match l with
  | [] => [x]
  | y :: l' => if cmp x y <=? 0 then x :: l else y :: insert_by cmp x l'
  end.

(** A [qsort] that sorts by insertion. *)
Definition insertion_sort (cmp : nat -> nat -> Z) (l : list nat) : list nat :=
  fold_right (insert_by cmp) [] l.

Fixpoint assoc_path {A : Type} (table : list (string * A)) (p : cstr) : option A :=
  match table with
  | [] => None
  | (key, v) :: table' => if cstr_eqb p (lit key) then Some v else assoc_path table' p
  end.

(** A card with [games/NES] holding two NES images (one in a
    subdirectory), a text file and a hidden file, and [games/SNES] holding
    two SNES images. *)
Definition sample_env : env_t :=
  mk_env (lit "/media/fat/games") (lit "/media/fat")
    (assoc_path
       [ ("/media/fat/games/NES"%string,
          [lit "Super_Mario.nes"; lit "readme.txt"; lit "sub"; lit ".cache"]);
         ("/media/fat/games/NES/sub"%string, [lit "Zelda.nes"]);
         ("/media/fat/games/SNES"%string, [lit "Zelda_3.sfc"; lit "Metroid.SMC"]) ])
    (assoc_path
       [ ("/media/fat/games/NES/Super_Mario.nes"%string, mk_stat S_IFREG 40976 1700000300);
         ("/media/fat/games/NES/readme.txt"%string, mk_stat S_IFREG 120 1700000100);
         ("/media/fat/games/NES/sub"%string, mk_stat S_IFDIR 4096 1700000000);
         ("/media/fat/games/NES/sub/Zelda.nes"%string, mk_stat S_IFREG 131088 1700000200);
         ("/media/fat/games/SNES/Zelda_3.sfc"%string, mk_stat S_IFREG 1048576 1700000400);
         ("/media/fat/games/SNES/Metroid.SMC"%string, mk_stat S_IFREG 3145728 1700000500) ])
    (fun p => match assoc_path [ ("/media/fat/games/NES"%string, tt);
                                 ("/media/fat/games/SNES"%string, tt) ] p with
              | Some _ => true
              | None => false
              end)
    (fun p => match assoc_path [ ("/media/fat/games/previews/Zelda.png"%string, tt) ] p with
              | Some _ => true
              | None => false
              end)
    (fun _ => true)
    insertion_sort
    2.

Definition sample_ready : globals_t := snd (rom_catalog_init sample_env globals_initial).

Definition add_nes (g : globals_t) : globals_t :=
  snd (rom_station_add (lit "Nintendo Entertainment System") (lit "NES")
         (lit "NES") (lit "NES") (lit "nes") g).
Definition add_snes (g : globals_t) : globals_t :=
  snd (rom_station_add (lit "Super Nintendo") (lit "SNES") (lit "SNES")
         (lit "SNES") (lit "sfc smc bin") g).
Definition add_gba (g : globals_t) : globals_t :=
  snd (rom_station_add (lit "Game Boy Advance") (lit "GBA") (lit "GBA")
         (lit "GBA") (lit "gba") g).

(** NES in slot 0 and SNES in slot 1, both scanned. *)
Definition sample_stations : globals_t := add_snes (add_nes sample_ready).
Definition sample_scanned : globals_t :=
  match rom_scan_all sample_env sample_stations with
  | Some (_, _, g) => g
  | None => sample_stations
  end.

(** GBA, SNES and NES added in this order, then GBA and SNES removed: the
    only station left is NES in slot 2. *)
Definition sample_sparse : globals_t :=
  snd (rom_station_remove sample_env 1
         (snd (rom_station_remove sample_env 0
                 (add_nes (add_snes (add_gba sample_ready)))))).

(** The scanned catalog browsed with the search text "e", the cursor moved
    down twice on a display of two rows. *)
Definition sample_browsing : globals_t :=
  rom_browse_scan sample_env SCANF_NEXT
    (rom_browse_scan sample_env SCANF_NEXT
       (rom_filter_set sample_env (lit "e") sample_scanned)).

(** A station record a caller may pass to [rom_station_update]. *)
Definition sample_station_record : rom_station_t :=
  rom_station.mk 3 (lit "Game Boy") (lit "GB") (lit "GameBoy") (lit "GAMEBOY")
    (lit "gb gbc") 1 0.

Definition sample_rom : rom_entry_t :=
  rom_entry.mk (lit "Zelda") (lit "Zelda.nes")
    (lit "/media/fat/games/NES/sub/Zelda.nes") 0 131088 1700000200 0 [].

(** No name resolves, and every command fails without leaving a file. *)
Definition sample_offline : sys_t :=
  mk_sys (lit "/media/fat/games") (fun _ _ => -2) (fun _ fs => (1024, fs)) 0.

(** Like [sample_offline]; in addition no thread can be created. *)
Definition sample_no_threads : sys_t :=
  mk_sys (lit "/media/fat/games") (fun _ _ => -2) (fun _ fs => (1024, fs)) 11.

(** A fetch for [sample_rom] was started and its thread has not run yet. *)
Definition sample_fetching : world_t :=
  snd (rom_preview_fetch_async sample_offline
         (globals.g_rom_catalog sample_scanned) (Some sample_rom)
         (world.initial (fun _ => None))).

(** ** Further operations of the catalog *)

(** The loop of [rom_station_get_by_index]; [count] is the number of
    enabled slots passed so far. *)
Fixpoint station_by_index_loop (slots : list rom_station_t) (count index : Z)
    : option rom_station_t :=
  match slots with
  | [] => None
  | s :: slots' =>
      if negb (rom_station.enabled s =? 0) then
        if count =? index then Some s
        else station_by_index_loop slots' (count + 1) index
      else station_by_index_loop slots' count index
  end.

Definition rom_station_get_by_index (c : rom_catalog_t) (index : Z)
    : option rom_station_t :=
  station_by_index_loop
    (take (Z.to_nat ROM_MAX_STATIONS) (rom_catalog.stations c)) 0 index.

(** The counting loop of [rom_catalog_load]. *)
Fixpoint count_enabled (slots : list rom_station_t) (station_count : Z) : Z :=
  match slots with
  | [] => station_count
  | s :: slots' =>
      count_enabled slots'
        (if negb (rom_station.enabled s =? 0) then u32 (station_count + 1)
         else station_count)
  end.

(** [FileLoadConfig] fills the station array from [rom_stations.cfg] when
    the file is there, that is when [rom_catalog_save] has written it, and
    leaves the array alone otherwise. *)
Definition rom_catalog_load (E : env_t) (g : globals_t) : Z * globals_t :=
  let '(r, g) :=
    if rom_catalog.initialized (globals.g_rom_catalog g) =? 0
    then rom_catalog_init E g else (0, g) in
  if r <? 0 then (-1, g)
  else
    let c := globals.g_rom_catalog g in
    let stations := match globals.rom_stations_cfg g with
                    | Some saved => saved
                    | None => rom_catalog.stations c
                    end in
    let c := rom_catalog.set_stations stations c in
    let c := rom_catalog.set_station_count
               (count_enabled (take (Z.to_nat ROM_MAX_STATIONS) stations) 0) c in
    (0, globals.set_g_rom_catalog c g).

Definition rom_get_count_for_station (c : rom_catalog_t) (station_id : Z) : Z :=
  match rom_station_get c station_id with
  | Some station => int32 (rom_station.rom_count station)
  | None => 0
  end.

(** What reading [filtered_roms[iSelectedEntry]] gives: a pointer, or a
    fault when the array pointer is NULL or the index lies outside the
    elements written. *)
Inductive selected_t :=
  | selected_null
  | selected_ptr (ptr : nat)
  | selected_fault.

Definition rom_get_selected (g : globals_t) : selected_t :=
  if globals.iSelectedEntry g >=? Z.of_nat (globals.filtered_count g)
  then selected_null
  else
    match globals.filtered_roms g with
    | None => selected_fault
    | Some ptrs =>
        if globals.iSelectedEntry g <? 0 then selected_fault
        else match ptrs !! Z.to_nat (globals.iSelectedEntry g) with
             | Some ptr => selected_ptr ptr
             | None => selected_fault
             end
    end.

(** The three output buffers and the result of [rom_browse_select]. *)
Record selection_t := mk_selection {
  sel_result : Z;
  sel_path : cstr;
  sel_core_path : cstr;
  sel_label : cstr
}.

(** [None] when the read of the selected pointer or of the entry behind it
    faults. *)
Definition rom_browse_select (g : globals_t) : option selection_t :=
  if (globals.filtered_count g =? 0)%nat
     || (globals.iSelectedEntry g >=? Z.of_nat (globals.filtered_count g))
  then Some (mk_selection 0 [] [] [])
  else
    match rom_get_selected g with
    | selected_ptr ptr =>
        match rom_catalog.roms (globals.g_rom_catalog g) !! ptr with
        | None => None
        | Some rom =>
            let core_path :=
              match rom_station_get (globals.g_rom_catalog g)
                      (rom_entry.station_id rom) with
              | Some station =>
                  match rom_station.core_path station with
                  | _ :: _ =>
                      snprintf ROM_PATH_LEN
                        (lit "_" ++ rom_station.core_path station)
                  | [] => []
                  end
              | None => []
              end in
            Some (mk_selection 1 (rom_entry.path rom) core_path
                    (rom_entry.name rom))
        end
    | _ => None
    end.

(** ** Further operations of the preview resolver *)

Definition cache_path (sys : sys_t) (station : rom_station_t) (rom : rom_entry_t)
    : cstr :=
  snprintf 1024
    (full_games_dir sys ++ lit "/" ++ PREVIEW_CACHE_DIR ++ lit "/"
     ++ rom_station.short_name station ++ lit "/" ++ rom_entry.name rom
     ++ lit ".png").

Definition rom_preview_cache_exists (sys : sys_t) (c : rom_catalog_t)
    (rom : option rom_entry_t) (w : world_t) : bool :=
  match rom with
  | None => false
  | Some rom =>
      match rom_station_get c (rom_entry.station_id rom) with
      | None => false
      | Some station => FileExists_in w (cache_path sys station rom)
      end
  end.

(** ** Batch download *)

(** A progress callback receives [current], [total] and the entry name.
    What the loop can notice of it is whether it called
    [rom_preview_batch_cancel]: the callback answers [true] then. *)
Definition preview_progress_cb := Z -> Z -> cstr -> bool.

(** The variables of the batch loop with the world it works on; [reported]
    lists the arguments of the callback invocations made so far. *)
Record batch_t := mk_batch {
  batch_world : world_t;
  batch_cancel : Z;
  batch_current : Z;
  batch_downloaded : Z;
  batch_reported : list (Z * Z * cstr)
}.

Definition rom_preview_batch_cancel (b : batch_t) : batch_t :=
  mk_batch (batch_world b) 1 (batch_current b) (batch_downloaded b)
    (batch_reported b).

(** [if (progress_cb) progress_cb (current, total, rom->name);] *)
Definition report_progress (progress_cb : option preview_progress_cb)
    (total : Z) (name : cstr) (b : batch_t) : batch_t :=
  match progress_cb with
  | None => b
  | Some cb =>
      let b := mk_batch (batch_world b) (batch_cancel b) (batch_current b)
                 (batch_downloaded b)
                 (batch_reported b ++ [(batch_current b, total, name)]) in
      if cb (batch_current b) total name then rom_preview_batch_cancel b else b
  end.

(** One round of the loop of [rom_preview_batch_fetch] for the element
    with index [i]. *)
Definition batch_step (sys : sys_t) (g : globals_t) (station_id : Z)
    (progress_cb : option preview_progress_cb) (total : Z) (b : batch_t)
    (i : nat) : batch_t :=
  if negb (batch_cancel b =? 0) then b
  else
    match rom_get_by_index g (Z.of_nat i) with
    | None => b
    | Some rom =>
        if negb (rom_entry.station_id rom =? station_id) then b
        else
          let b := mk_batch (batch_world b) (batch_cancel b)
                     (batch_current b + 1) (batch_downloaded b)
                     (batch_reported b) in
          if rom_preview_cache_exists sys (globals.g_rom_catalog g) (Some rom)
               (batch_world b)
          then report_progress progress_cb total (rom_entry.name rom) b
          else
            let '(r, w) :=
              rom_preview_fetch_online sys (globals.g_rom_catalog g) (Some rom)
                (batch_world b) in
            let b := mk_batch w (batch_cancel b) (batch_current b)
                       (if r =? 0 then batch_downloaded b + 1
                        else batch_downloaded b)
                       (batch_reported b) in
            report_progress progress_cb total (rom_entry.name rom) b
    end.

(** The result with the final loop state; the pause between network
    attempts changes nothing that is modelled. *)
Definition rom_preview_batch_fetch (sys : sys_t) (g : globals_t)
    (station_id : Z) (progress_cb : option preview_progress_cb) (w : world_t)
    : Z * batch_t :=
  let b := mk_batch w 0 0 0 [] in
  match rom_station_get (globals.g_rom_catalog g) station_id with
  | None => (0, b)
  | Some station =>
      let total := rom_get_count_for_station (globals.g_rom_catalog g) station_id in
      let b :=
        fold_left (batch_step sys g station_id progress_cb total)
          (seq 0 (rom_catalog.rom_count (globals.g_rom_catalog g))) b in
      (batch_downloaded b, b)
  end.

(** ** What the further properties speak about *)

Definition slot_enabled (s : rom_station_t) : bool :=
  negb (rom_station.enabled s =? 0).

(** The enabled stations in slot order. *)
Definition enabled_stations (c : rom_catalog_t) : list rom_station_t :=
  List.filter slot_enabled
    (take (Z.to_nat ROM_MAX_STATIONS) (rom_catalog.stations c)).

(** The store has been allocated and its count is within its capacity. *)
Definition store_ok (c : rom_catalog_t) : Prop :=
  (0 < rom_catalog.rom_capacity c)%nat
  /\ (rom_catalog.rom_count c <= rom_catalog.rom_capacity c)%nat
  /\ (rom_catalog.rom_capacity c <= length (rom_catalog.roms c))%nat.

Definition of_station (station_id : Z) (rom : rom_entry_t) : Prop :=
  rom_entry.station_id rom = station_id.

#[local] Instance of_station_dec station_id rom :
  Decision (of_station station_id rom).
Proof. unfold of_station. apply _. Defined.

(** The cursor points into a view of [count] rows shown [osd_size] at a
    time. *)
Definition cursor_ok (E : env_t) (g : globals_t) : Prop :=
  0 <= globals.iFirstEntry g <= globals.iSelectedEntry g
  /\ globals.iSelectedEntry g < Z.of_nat (globals.filtered_count g)
  /\ globals.iSelectedEntry g < globals.iFirstEntry g + OsdGetSize E.

(** Characters that may stand in a URL path as they are, with the two
    that [url_encode] introduces. *)
Definition url_safe (c : ascii) : bool :=
  url_unreserved c || char_eqb c "+" || char_eqb c "%".

Definition hex_value (c : ascii) : nat :=
  let n := nat_of_ascii c in
  if (65 <=? n)%nat then (n - 55)%nat else (n - 48)%nat.

(** The inverse of [url_encode] on what it produces. *)
Fixpoint url_decode (s : cstr) : cstr :=
  match s with
  | [] => []
  | c :: s' =>
      if char_eqb c "%" then
        match s' with
        | h1 :: h2 :: s'' =>
            ascii_of_nat (16 * hex_value h1 + hex_value h2) :: url_decode s''
        | _ => []
        end
      else if char_eqb c "+" then space :: url_decode s'
      else c :: url_decode s'
  end.

Definition image_frees (calls : list os_call) : nat :=
  length (List.filter
            (fun c => match c with call_imlib_free_image => true | _ => false end)
            calls).

(** The command [download_file] hands to [system]. *)
Definition wget_command (url save_path : cstr) : cstr :=
  snprintf 2048
    (lit "wget -q -T " ++ PREVIEW_FETCH_TIMEOUT ++ lit " -O " ++ [dquote]
     ++ save_path ++ [dquote] ++ lit " " ++ [dquote] ++ url ++ [dquote]
     ++ lit " 2>/dev/null").

(** The path [rom_preview_fetch_online] saves a download under. *)
Definition fetch_save_path (sys : sys_t) (station : rom_station_t)
    (rom : rom_entry_t) : cstr :=
  snprintf 1024
    (snprintf 512
       (full_games_dir sys ++ lit "/" ++ PREVIEW_CACHE_DIR ++ lit "/"
        ++ rom_station.short_name station)
     ++ lit "/" ++ rom_entry.name rom ++ lit ".png").


Definition system_commands (calls : list os_call) : list cstr :=
  omap (fun c => match c with call_system cmd => Some cmd | _ => None end) calls.

(** The image slot holds an image exactly when its status is
    [PREVIEW_STATUS_READY]. *)
Definition image_owned_iff_ready (p : rom_preview_data_t) : Prop :=
  rom_preview_data.image_data p <> None
  <-> rom_preview_data.status p = PREVIEW_STATUS_READY.

(** The progress reports for the entries [roms], numbered from
    [current + 1]. *)
Fixpoint progress_reports (current total : Z) (roms : list rom_entry_t)
    : list (Z * Z * cstr) :=
  match roms with
  | [] => []
  | rom :: roms' =>
      (current + 1, total, rom_entry.name rom)
      :: progress_reports (current + 1) total roms'
  end.

(** How a state [g] reached during the directory walk for the station in
    [slot] relates to the state [g0] the walk started from: the entries
    [added] have been appended to the store and counted in the slot, and
    nothing else has changed. *)
Definition scan_rel (slot : nat) (station : rom_station_t) (g0 g : globals_t)
    (added : list rom_entry_t) : Prop :=
  let c0 := globals.g_rom_catalog g0 in
  let c := globals.g_rom_catalog g in
  g = globals.set_g_rom_catalog c g0
  /\ rom_catalog.stations c
     = <[slot := rom_station.set_rom_count (u32 (Z.of_nat (length added))) station]>
         (rom_catalog.stations c0)
  /\ rom_catalog.station_count c = rom_catalog.station_count c0
  /\ rom_catalog.initialized c = rom_catalog.initialized c0
  /\ rom_catalog.scanning c = rom_catalog.scanning c0
  /\ rom_catalog.scan_progress c = rom_catalog.scan_progress c0
  /\ rom_catalog.scan_status c = rom_catalog.scan_status c0
  /\ live_roms c = live_roms c0 ++ added
  /\ store_ok c
  /\ Forall (of_station (rom_station.id station)) added.

(** The enabled slots among [n] slots from slot [i] on. *)
Definition enabled_slots_from (c : rom_catalog_t) (i n : nat) : list Z :=
  List.filter
    (fun j => negb (rom_station.enabled
                      (default rom_station.zero
                         (rom_catalog.stations c !! Z.to_nat j)) =? 0))
    (map Z.of_nat (seq i n)).

(** The entry count recorded in a slot, as [rom_scan_station] returns
    it. *)
Definition slot_count (c : rom_catalog_t) (j : Z) : Z :=
  int32 (rom_station.rom_count
           (default rom_station.zero (rom_catalog.stations c !! Z.to_nat j))).

Definition sum_Z (l : list Z) : Z := fold_right Z.add 0 l.

(** The commands for the categories tried, in order. *)
Definition attempts_of (lib enc save_path : cstr) (categories : list cstr) : list cstr :=
  map (fun category => wget_command (thumbnail_url lib category enc) save_path)
    categories.

(** [f] keeps the catalog in the relation of a running scan. *)
Definition keeps_scan_rel (slot : nat) (station : rom_station_t) (g0 : globals_t)
    (f : globals_t -> globals_t) : Prop :=
  forall g added, scan_rel slot station g0 g added ->
                  exists added', scan_rel slot station g0 (f g) added'.

(** ** Further sample surroundings and states *)

(** Every name resolves, and every command succeeds and leaves a picture
    of 256 by 224 at the cache path of [sample_rom]. *)
Definition sample_online : sys_t :=
  mk_sys (lit "/media/fat/games") (fun _ _ => 0)
    (fun _ fs =>
       (0, fun p => if cstr_eqb p (lit "/media/fat/games/previews/NES/Zelda.png")
                    then Some (Some (mk_image 256 224)) else fs p))
    0.

(** Every name resolves, and every command fails without leaving a
    file. *)
Definition sample_no_art : sys_t :=
  mk_sys (lit "/media/fat/games") (fun _ _ => 0) (fun _ fs => (2048, fs)) 0.

(** [rom_station_update] on slot 3 of a fresh catalog, where no station was
    added: the slot is enabled and [station_count] is still 0. *)
Definition sample_unregistered : globals_t :=
  snd (rom_station_update 3 sample_station_record sample_ready).

(** The station in slot 0 of the scanned catalog. *)
Definition sample_nes : rom_station_t :=
  default rom_station.zero
    (rom_catalog.stations (globals.g_rom_catalog sample_scanned) !! 0%nat).

(** The first two entries of the scanned catalog. *)
Definition sample_first : rom_entry_t :=
  default rom_entry.zero
    (rom_catalog.roms (globals.g_rom_catalog sample_scanned) !! 0%nat).
Definition sample_second : rom_entry_t :=
  default rom_entry.zero
    (rom_catalog.roms (globals.g_rom_catalog sample_scanned) !! 1%nat).


(** * Properties *)

Ltac break_match :=
  repeat match goal with
         | |- context [match ?x with _ => _ end] => destruct x eqn:?
         end.

(** ** Sanity checks on the sample card *)

(** The scenario of the specification: the text file and the hidden file
    are left out, the file in the subdirectory is found, underscores become
    spaces. *)
Example scan_scenario :
  option_map
    (fun r => (fst (fst r),
               map rom_entry.name (live_roms (globals.g_rom_catalog (snd r)))))
    (rom_scan_all sample_env sample_stations)
  = Some (4, [lit "Super Mario"; lit "Zelda"; lit "Zelda 3"; lit "Metroid"]).
Proof. vm_compute. reflexivity. Qed.

(** Sorting by name moves "Metroid" to the front of the view. *)
Example sort_scenario :
  globals.filtered_roms sample_scanned = Some [0; 1; 2; 3]%nat
  /\ globals.filtered_roms (rom_sort sample_env ROM_SORT_NAME_ASC sample_scanned)
     = Some [3; 0; 1; 2]%nat.
Proof. vm_compute. split; reflexivity. Qed.

(** Tokens are the runs between spaces; matching ignores case, needs a
    dot, and looks only at what follows the last one. *)
Example tokens_scenario :
  tokens (lit " cue  chd bin ") = [lit "cue"; lit "chd"; lit "bin"].
Proof. reflexivity. Qed.

Example match_extension_scenario :
  match_extension (lit "Metroid.SMC") (Some (lit "sfc smc bin")) = 1
  /\ match_extension (lit "readme.txt") (Some (lit "sfc smc bin")) = 0
  /\ match_extension (lit "smc") (Some (lit "sfc smc bin")) = 0
  /\ match_extension (lit "smc.") (Some (lit "sfc smc bin")) = 0
  /\ match_extension (lit "a.smc.bak") (Some (lit "sfc smc bin")) = 0
  /\ match_extension (lit "readme.txt") (Some []) = 1.
Proof. repeat split. Qed.

(** ** Strings *)

Lemma char_eqb_true (a b : ascii) : char_eqb a b = true <-> a = b.
Proof. unfold char_eqb. apply Ascii.eqb_eq. Qed.

Lemma char_eqb_false (a b : ascii) : char_eqb a b = false <-> a <> b.
Proof. unfold char_eqb. apply Ascii.eqb_neq. Qed.

Lemma char_eqb_refl (a : ascii) : char_eqb a a = true.
Proof. apply char_eqb_true. reflexivity. Qed.

Lemma strcmp_zero (a b : cstr) : strcmp a b = 0 <-> a = b.
Proof.
  revert b.
  induction a as [|x a IH]; intros [|y b]; simpl;
    try (split; [lia | discriminate]).
  - tauto.
  - destruct (char_eqb x y) eqn:Hxy.
    + apply char_eqb_true in Hxy. subst y. rewrite IH. split; congruence.
    + apply char_eqb_false in Hxy. split.
      * destruct (char_code x <? char_code y); lia.
      * congruence.
Qed.

Lemma strrchr_absent (s : cstr) (c : ascii) : ~ In c s -> strrchr s c = None.
Proof.
  induction s as [|x s IH]; simpl; [reflexivity|]. intros Hn.
  rewrite IH by tauto.
  destruct (char_eqb x c) eqn:Hx; [|reflexivity].
  apply char_eqb_true in Hx. tauto.
Qed.

Lemma strrchr_last (stem ext : cstr) (c : ascii) :
  ~ In c ext -> strrchr (stem ++ c :: ext) c = Some (length stem).
Proof.
  intros Hn. induction stem as [|x stem IH]; simpl.
  - rewrite strrchr_absent by assumption. now rewrite char_eqb_refl.
  - now rewrite IH.
Qed.

Lemma strrchr_none (s : cstr) (c : ascii) : strrchr s c = None -> ~ In c s.
Proof.
  induction s as [|y s IHs]; simpl; [tauto|].
  destruct (strrchr s c); [discriminate|].
  destruct (char_eqb y c) eqn:Hy; [discriminate|]. apply char_eqb_false in Hy.
  intros _ [?|?]; [congruence | now apply IHs].
Qed.

Lemma strrchr_found (s : cstr) (c : ascii) (k : nat) :
  strrchr s c = Some k ->
  s = take k s ++ c :: drop (S k) s /\ ~ In c (drop (S k) s).
Proof.
  revert k. induction s as [|x s IH]; simpl; [discriminate|]. intros k.
  destruct (strrchr s c) as [j|] eqn:Hs.
  - intros [= <-]. destruct (IH j eq_refl) as [Heq Hn]. simpl.
    split; [congruence | assumption].
  - destruct (char_eqb x c) eqn:Hx; [|discriminate]. intros [= <-].
    apply char_eqb_true in Hx. subst x. simpl. rewrite drop_0.
    split; [reflexivity | now apply strrchr_none].
Qed.

Lemma drop_past {A : Type} (a b : list A) (x : A) :
  drop (S (length a)) (a ++ x :: b) = b.
Proof. induction a as [|y a IH]; simpl; [apply drop_0 | exact IH]. Qed.

(** The extension of a file name is what [strrchr] points behind. *)
Lemma extension_of_strrchr (filename ext : cstr) :
  extension_of filename ext
  <-> exists k, strrchr filename dot_char = Some k /\ ext = drop (S k) filename.
Proof.
  split.
  - intros (stem & -> & Hn). exists (length stem).
    split; [now apply strrchr_last|]. symmetry. apply drop_past.
  - intros (k & Hk & ->). apply strrchr_found in Hk as [Heq Hn].
    exists (take k filename). split; assumption.
Qed.

Lemma take_min_8 (s : cstr) :
  take (if (8 <? length s)%nat then 8%nat else length s) s = take 8 s.
Proof.
  destruct (8 <? length s)%nat eqn:H; [reflexivity|].
  apply Nat.ltb_ge in H. rewrite firstn_all. symmetry. now apply take_ge.
Qed.

Lemma prefix_nocase_spec (needle hay : cstr) :
  prefix_nocase needle hay = true
  <-> exists after, map tolower hay = map tolower needle ++ after.
Proof.
  revert hay. induction needle as [|n needle IH]; intros hay; simpl.
  - split; [intros _; now exists (map tolower hay) | reflexivity].
  - destruct hay as [|h hay]; simpl.
    + split; [discriminate | intros (after & H); discriminate].
    + rewrite andb_true_iff, char_eqb_true, IH. split.
      * intros (Hh & after & Ha). exists after. now rewrite Hh, Ha.
      * intros (after & Ha). injection Ha as Hh Ha.
        split; [congruence | now exists after].
Qed.

(** [strcasestr] finds the needle exactly when it occurs somewhere. *)
Lemma strcasestr_spec (hay needle : cstr) :
  strcasestr hay needle <> None <-> contains_nocase needle hay.
Proof.
  unfold contains_nocase. split.
  - induction hay as [|h hay IH]; simpl.
    + destruct (prefix_nocase needle []) eqn:Hp; [|congruence]. intros _.
      apply prefix_nocase_spec in Hp as (after & Ha). now exists [], after.
    + destruct (prefix_nocase needle (h :: hay)) eqn:Hp.
      * intros _. apply prefix_nocase_spec in Hp as (after & Ha).
        now exists [], after.
      * destruct (strcasestr hay needle); [|simpl; congruence]. intros _.
        destruct IH as (before & after & Ha); [discriminate|].
        exists (tolower h :: before), after. simpl. now rewrite Ha.
  - intros (before & after & Ha). revert hay Ha.
    induction before as [|b before IH]; intros hay Ha.
    + assert (Hp : prefix_nocase needle hay = true)
        by (apply prefix_nocase_spec; now exists after).
      destruct hay; simpl; rewrite Hp; discriminate.
    + destruct hay as [|h hay]; [discriminate|]. simpl in Ha.
      injection Ha as _ Ha. specialize (IH hay Ha). simpl.
      destruct (prefix_nocase needle (h :: hay)); [discriminate|].
      destruct (strcasestr hay needle); [discriminate | congruence].
Qed.

Lemma contains_nocase_prefix (text more name : cstr) :
  contains_nocase (text ++ more) name -> contains_nocase text name.
Proof.
  intros (before & after & H). exists before, (map tolower more ++ after).
  now rewrite H, map_app, <- app_assoc.
Qed.

(** ** Extension matching *)

Lemma tokens_skip_spaces (p : cstr) : tokens (skip_spaces p) = tokens p.
Proof.
  induction p as [|c p IH]; simpl; [reflexivity|].
  destruct (char_eqb c space) eqn:Hc; [assumption|]. simpl. now rewrite Hc.
Qed.

Lemma skip_spaces_length (p : cstr) : (length (skip_spaces p) <= length p)%nat.
Proof.
  induction p as [|c p IH]; simpl; [lia|].
  destruct (char_eqb c space); simpl; lia.
Qed.

Lemma skip_spaces_head (p : cstr) (c : ascii) (q : cstr) :
  skip_spaces p = c :: q -> char_eqb c space = false.
Proof.
  induction p as [|x p IH]; simpl; [discriminate|].
  destruct (char_eqb x space) eqn:Hx; [assumption|]. intros [= -> _]. assumption.
Qed.

(** A string that starts with a character other than the space splits
    into its first token and what [skip_token] leaves. *)
Lemma skip_token_first (c : ascii) (p : cstr) :
  char_eqb c space = false ->
  exists t, c :: p = t ++ skip_token (c :: p)
            /\ tokens (c :: p) = t :: tokens (skip_token (c :: p))
            /\ (0 < length t)%nat.
Proof.
  revert c. induction p as [|c' p IH]; intros c Hc.
  - exists [c]. simpl. rewrite Hc. simpl. repeat split; lia || reflexivity.
  - destruct (char_eqb c' space) eqn:Hc'.
    + exists [c]. repeat (simpl; rewrite ?Hc, ?Hc').
      repeat split; lia || reflexivity.
    + destruct (IH c' Hc') as (t & Heq & Htok & Hlen).
      exists (c :: t).
      change (skip_token (c :: c' :: p)) with
        (if char_eqb c space then c :: c' :: p else skip_token (c' :: p)).
      rewrite Hc. split; [|split].
      * simpl app. f_equal. exact Heq.
      * change (tokens (c :: c' :: p)) with
          (if char_eqb c space then tokens (c' :: p)
           else if char_eqb c' space then [c] :: tokens (c' :: p)
           else match tokens (c' :: p) with
                | t :: ts => (c :: t) :: ts
                | [] => [[c]]
                end).
        rewrite Hc, Hc', Htok. reflexivity.
      * simpl. lia.
Qed.

(** With one unit of fuel per character the token loop never runs dry: it
    answers 1 exactly when some token of at most 8 characters equals the
    extension once lowercased. *)
Lemma match_tokens_spec (fuel : nat) (ext_lower p : cstr) :
  (length p <= fuel)%nat ->
  (match_tokens fuel ext_lower p = 1
   <-> exists tok, In tok (tokens p) /\ token_ok ext_lower tok)
  /\ (match_tokens fuel ext_lower p = 0 \/ match_tokens fuel ext_lower p = 1).
Proof.
  revert p. induction fuel as [|fuel IH]; intros p Hlen.
  - destruct p; [|simpl in Hlen; lia]. simpl. split; [|left; reflexivity].
    split; [discriminate | intros (tok & [] & _)].
  - destruct p as [|c0 p0].
    { simpl. split; [|left; reflexivity].
      split; [discriminate | intros (tok & [] & _)]. }
    set (p := c0 :: p0) in *.
    change (match_tokens (S fuel) ext_lower p) with
      (match skip_spaces p with
       | [] => 0
       | _ :: _ =>
           let start := skip_spaces p in
           let p2 := skip_token start in
           let token_len := (length start - length p2)%nat in
           if ((0 <? token_len) && (token_len <=? 8))%nat
              && (strcmp ext_lower (map tolower (take token_len start)) =? 0)
           then 1 else match_tokens fuel ext_lower p2
       end).
    rewrite <- (tokens_skip_spaces p).
    pose proof (skip_spaces_length p) as Hsk.
    destruct (skip_spaces p) as [|c q] eqn:Hp1.
    + simpl. split; [|left; reflexivity].
      split; [discriminate | intros (tok & [] & _)].
    + pose proof (skip_spaces_head _ _ _ Hp1) as Hc.
      destruct (skip_token_first c q Hc) as (t & Heq & Htok & Htlen).
      cbv zeta. rewrite Htok.
      assert (Hl : length (c :: q)
                   = (length t + length (skip_token (c :: q)))%nat).
      { rewrite Heq at 1. now rewrite length_app. }
      assert (Htl : (length (c :: q) - length (skip_token (c :: q)))%nat
                    = length t) by lia.
      rewrite Htl.
      assert (Htake : take (length t) (c :: q) = t).
      { rewrite Heq at 1. now rewrite take_app_length. }
      rewrite Htake.
      assert (Hfuel : (length (skip_token (c :: q)) <= fuel)%nat).
      { subst p. cbn [length] in Hlen, Hsk, Hl. lia. }
      destruct (IH _ Hfuel) as [IH1 IH2].
      destruct (((0 <? length t) && (length t <=? 8))%nat
                && (strcmp ext_lower (map tolower t) =? 0)) eqn:Hchk.
      * split; [|right; reflexivity]. split; [|reflexivity]. intros _.
        exists t. split; [left; reflexivity|].
        apply andb_true_iff in Hchk as [Hchk Hcmp].
        apply andb_true_iff in Hchk as [_ H8].
        apply Nat.leb_le in H8. apply Z.eqb_eq, strcmp_zero in Hcmp.
        split; assumption.
      * split; [|exact IH2]. rewrite IH1. split.
        -- intros (tok & Hin & Hok). exists tok.
           split; [right; assumption | assumption].
        -- intros (tok & [<-|Hin] & Hok); [|exists tok; split; assumption].
           exfalso. destruct Hok as [H8 Hcmp].
           apply Nat.leb_le in H8. apply strcmp_zero, Z.eqb_eq in Hcmp.
           apply Nat.ltb_lt in Htlen.
           rewrite Htlen, H8, Hcmp in Hchk. discriminate.
Qed.

(** C3, as amended. [match_extension] answers 1 or 0. It answers 1 for a
    NULL or empty allow-list; otherwise it answers 1 exactly when the file
    name has a dot and what follows its last dot, cut to 8 characters and
    lowercased, equals the lowercased form of some space-separated token
    of the allow-list that is itself at most 8 characters long. A longer
    token is skipped, not cut. *)
Theorem match_extension_short_tokens (filename exts : cstr) :
  match_extension filename None = 1
  /\ (match_extension filename (Some exts) = 1
      <-> matches_with_short_tokens filename exts)
  /\ (match_extension filename (Some exts) = 0
      \/ match_extension filename (Some exts) = 1).
Proof.
  split; [reflexivity|].
  unfold matches_with_short_tokens.
  destruct exts as [|e exts]; [simpl; split; [split; auto | auto]|].
  unfold match_extension.
  destruct (strrchr filename dot_char) as [k|] eqn:Hk.
  - rewrite take_min_8.
    destruct (match_tokens_spec (length (e :: exts))
                (map tolower (take 8 (drop (S k) filename))) (e :: exts)
                (Nat.le_refl _)) as [H1 H2].
    split; [|exact H2]. rewrite H1. split.
    + intros (tok & Hin & Hlen & Heq). right.
      exists (drop (S k) filename), tok. repeat split; try assumption.
      apply extension_of_strrchr. now exists k.
    + intros [Hnil | (ext & tok & Hext & Hin & Hlen & Heq)]; [discriminate|].
      apply extension_of_strrchr in Hext as (k' & Hk' & ->).
      rewrite Hk in Hk'. injection Hk' as <-.
      exists tok. repeat split; assumption.
  - split; [|left; reflexivity]. split; [discriminate|].
    intros [Hnil | (ext & tok & Hext & _)]; [discriminate|].
    apply extension_of_strrchr in Hext as (k' & Hk' & _). congruence.
Qed.

(** C3, as stated, fails: with the allow-list "abcdefghi" the file
    "game.abcdefghi" matches once both sides are cut to 8 characters, but
    [match_extension] skips the 9-character token and answers 0. *)
Lemma match_extension_long_token :
  matches_with_cut_tokens (lit "game.abcdefghi") (lit "abcdefghi")
  /\ match_extension (lit "game.abcdefghi") (Some (lit "abcdefghi")) = 0.
Proof.
  split; [|reflexivity].
  right. exists (lit "abcdefghi"), (lit "abcdefghi").
  split; [|split].
  - exists (lit "game"). split; [reflexivity|].
    simpl. intros H. repeat (destruct H as [H|H]; [discriminate H|]). exact H.
  - left. reflexivity.
  - reflexivity.
Qed.

(** ** The browse view *)

Lemma kept_out_of_range (c : rom_catalog_t) (f : Z) (s : cstr) (i j : nat) :
  rom_catalog.roms c !! i = None -> (i <= j)%nat -> kept c f s j = false.
Proof.
  intros Hi Hj. unfold kept.
  rewrite (proj2 (lookup_ge_None _ _)); [reflexivity|].
  apply lookup_ge_None in Hi. lia.
Qed.

Lemma filter_kept_out_of_range (c : rom_catalog_t) (f : Z) (s : cstr)
    (i n : nat) :
  rom_catalog.roms c !! i = None -> List.filter (kept c f s) (seq i n) = [].
Proof.
  intros Hi. revert i Hi. induction n as [|n IH]; intros i Hi; simpl;
    [reflexivity|].
  rewrite (kept_out_of_range c f s i i Hi (Nat.le_refl _)).
  apply IH. apply lookup_ge_None. apply lookup_ge_None in Hi. lia.
Qed.

(** The loop appends, in index order, the elements [kept] accepts. *)
Lemma rebuild_loop_filter (c : rom_catalog_t) (f : Z) (s : cstr)
    (n i : nat) (ptrs : list nat) (count : nat) :
  rebuild_loop c f s n i ptrs count
  = (ptrs ++ List.filter (kept c f s) (seq i n),
     (count + length (List.filter (kept c f s) (seq i n)))%nat).
Proof.
  revert i ptrs count. induction n as [|n IH]; intros i ptrs count.
  - simpl. now rewrite app_nil_r, Nat.add_0_r.
  - cbn [rebuild_loop seq List.filter].
    destruct (rom_catalog.roms c !! i) as [rom|] eqn:Hi.
    + destruct ((f >=? 0) && negb (int32 (rom_entry.station_id rom) =? f))
        eqn:Hst.
      * assert (Hk : kept c f s i = false)
          by (unfold kept; rewrite Hi, Hst; reflexivity).
        rewrite Hk. apply IH.
      * destruct s as [|x s].
        -- assert (Hk : kept c f [] i = true)
             by (unfold kept; rewrite Hi, Hst; reflexivity).
           rewrite Hk, IH. cbn [length]. rewrite <- app_assoc. f_equal. lia.
        -- destruct (strcasestr (rom_entry.name rom) (x :: s)) eqn:Hss.
           ++ assert (Hk : kept c f (x :: s) i = true)
                by (unfold kept; rewrite Hi, Hst, Hss; reflexivity).
              rewrite Hk, IH. cbn [length]. rewrite <- app_assoc.
              f_equal. lia.
           ++ assert (Hk : kept c f (x :: s) i = false)
                by (unfold kept; rewrite Hi, Hst, Hss; reflexivity).
              rewrite Hk. apply IH.
    + rewrite (kept_out_of_range c f s i i Hi (Nat.le_refl _)).
      rewrite filter_kept_out_of_range
        by (apply lookup_ge_None; apply lookup_ge_None in Hi; lia).
      now rewrite app_nil_r, Nat.add_0_r.
Qed.

Lemma filter_seq_order (P : nat -> bool) (i n : nat) :
  store_order (List.filter P (seq i n)).
Proof.
  revert i. induction n as [|n IH]; intros i; simpl.
  - intros j k a b H. destruct j; discriminate.
  - assert (Htail : forall x, In x (List.filter P (seq (S i) n)) -> (i < x)%nat).
    { intros x Hx. apply filter_In in Hx as [Hx _]. apply in_seq in Hx. lia. }
    destruct (P i); [|apply IH].
    intros j k a b Hj Hk Hjk. destruct k as [|k]; [lia|].
    simpl in Hk. destruct j as [|j].
    + injection Hj as <-. apply Htail. apply list_elem_of_In.
      eapply list_elem_of_lookup_2. exact Hk.
    + simpl in Hj. apply (IH (S i) j k); [assumption | assumption | lia].
Qed.

(** Reading a [uint32_t] station id as an [int] does not change whether it
    equals a filter that is not negative. *)
Lemma int32_match (sid f : Z) :
  uint32_range sid -> int_range f -> 0 <= f -> (int32 sid =? f) = (sid =? f).
Proof.
  unfold uint32_range, int_range, int32. intros Hs Hf H0.
  destruct (Z.eq_dec sid f) as [->|Hne].
  - rewrite Z.eqb_refl. apply Z.eqb_eq.
    rewrite Z.mod_small by lia. lia.
  - rewrite (proj2 (Z.eqb_neq sid f) Hne). apply Z.eqb_neq.
    destruct (Z_lt_le_dec sid (2 ^ 31)).
    + rewrite Z.mod_small by lia. lia.
    + replace ((sid + 2 ^ 31) mod 2 ^ 32) with (sid + 2 ^ 31 - 2 ^ 32).
      * lia.
      * apply Zmod_unique with (q := 1); lia.
Qed.

Lemma kept_shown (g : globals_t) (i : nat) :
  station_ids_in_range (globals.g_rom_catalog g) ->
  int_range (globals.browse_station_filter g) ->
  (i < rom_catalog.rom_count (globals.g_rom_catalog g))%nat ->
  kept (globals.g_rom_catalog g) (globals.browse_station_filter g)
    (globals.search_filter g) i = true
  <-> shown g i.
Proof.
  intros Hids Hf Hi. unfold kept, shown, live_entry.
  destruct (rom_catalog.roms (globals.g_rom_catalog g) !! i) as [rom|] eqn:Hrom.
  2:{ split; [discriminate | intros (rom & (_ & H) & _); discriminate]. }
  assert (Hsid : uint32_range (rom_entry.station_id rom)).
  { unfold station_ids_in_range, live_roms in Hids.
    rewrite Forall_forall in Hids. apply Hids.
    apply list_elem_of_lookup. exists i.
    rewrite lookup_take_lt by assumption. exact Hrom. }
  rewrite andb_true_iff, negb_true_iff.
  assert (Hst : (globals.browse_station_filter g >=? 0)
                && negb (int32 (rom_entry.station_id rom)
                         =? globals.browse_station_filter g)
                = false
                <-> station_matches (globals.browse_station_filter g) rom).
  { unfold station_matches.
    destruct (Z.geb_spec (globals.browse_station_filter g) 0) as [H0|H0].
    - rewrite int32_match by (assumption || lia). cbn [andb].
      rewrite negb_false_iff, Z.eqb_eq.
      split; [tauto | intros [?|?]; [lia | assumption]].
    - cbn [andb]. split; [intros _; left; lia | reflexivity]. }
  assert (Hnm : match globals.search_filter g with
                | [] => true
                | _ :: _ =>
                    match strcasestr (rom_entry.name rom)
                            (globals.search_filter g) with
                    | Some _ => true
                    | None => false
                    end
                end = true
                <-> name_matches (globals.search_filter g) rom).
  { unfold name_matches. destruct (globals.search_filter g) as [|x s] eqn:Hs.
    - split; [now left | reflexivity].
    - rewrite <- strcasestr_spec.
      destruct (strcasestr (rom_entry.name rom) (x :: s)).
      + split; [intros _; right; discriminate | reflexivity].
      + split; [discriminate | intros [?|?]; [discriminate | congruence]]. }
  rewrite Hst, Hnm. split.
  - intros [H1 H2]. exists rom. tauto.
  - intros (rom' & (_ & Hr) & H1 & H2). injection Hr as <-. tauto.
Qed.

Lemma kept_extend (c : rom_catalog_t) (f : Z) (s more : cstr) (i : nat) :
  kept c f (s ++ more) i = true -> kept c f s i = true.
Proof.
  unfold kept. destruct (rom_catalog.roms c !! i) as [rom|]; [|discriminate].
  rewrite !andb_true_iff. intros [Hst Hnm]. split; [exact Hst|].
  destruct s as [|x s]; [reflexivity|].
  cbn [app] in Hnm.
  destruct (strcasestr (rom_entry.name rom) (x :: s ++ more)) eqn:H1;
    [|discriminate].
  assert (H2 : strcasestr (rom_entry.name rom) (x :: s) <> None).
  { apply strcasestr_spec. apply (contains_nocase_prefix _ more).
    apply strcasestr_spec. cbn [app]. congruence. }
  destruct (strcasestr (rom_entry.name rom) (x :: s)); [reflexivity | congruence].
Qed.

Lemma filter_length_le {A : Type} (P Q : A -> bool) (l : list A) :
  (forall x, P x = true -> Q x = true) ->
  (length (List.filter P l) <= length (List.filter Q l))%nat.
Proof.
  intros HPQ. induction l as [|x l IH]; simpl; [lia|].
  destruct (P x) eqn:HP.
  - rewrite (HPQ x HP). simpl. lia.
  - destruct (Q x); simpl; lia.
Qed.

Section BrowseView.

Variable E : env_t.

Lemma rebuild_filtered_list_granted (g : globals_t) :
  alloc_ok E (view_capacity (globals.g_rom_catalog g)) = true ->
  rebuild_filtered_list E g
  = let ptrs :=
      List.filter
        (kept (globals.g_rom_catalog g) (globals.browse_station_filter g)
           (globals.search_filter g))
        (seq 0 (rom_catalog.rom_count (globals.g_rom_catalog g))) in
    globals.set_view (Some ptrs) (length ptrs)
      (view_capacity (globals.g_rom_catalog g)) g.
Proof.
  intros Ha. unfold rebuild_filtered_list.
  rewrite Ha, rebuild_loop_filter. reflexivity.
Qed.

Lemma rebuild_filtered_list_catalog (g : globals_t) :
  globals.g_rom_catalog (rebuild_filtered_list E g) = globals.g_rom_catalog g.
Proof.
  unfold rebuild_filtered_list.
  destruct (alloc_ok E _); [|reflexivity].
  destruct (rebuild_loop _ _ _ _ _ _ _). reflexivity.
Qed.

Lemma rom_filter_set_count (text : cstr) (g : globals_t) :
  alloc_ok E (view_capacity (globals.g_rom_catalog g)) = true ->
  globals.filtered_count (rom_filter_set E text g)
  = length (List.filter
              (kept (globals.g_rom_catalog g) (globals.browse_station_filter g)
                 (take 255 text))
              (seq 0 (rom_catalog.rom_count (globals.g_rom_catalog g)))).
Proof.
  intros Ha. unfold rom_filter_set.
  rewrite rebuild_filtered_list_granted by exact Ha. reflexivity.
Qed.

(** C1. When the array for the view is granted, [rebuild_filtered_list]
    leaves in [filtered_roms] exactly the entries of the store that pass
    the station filter (negative: all stations) and whose name contains the
    search text without regard to case (empty text: all names), in store
    order, with [filtered_count] their number; and the count after
    [rom_filter_set] does not grow when the search text is extended. *)
Theorem rebuild_filtered_list_exact (g : globals_t) :
  station_ids_in_range (globals.g_rom_catalog g) ->
  int_range (globals.browse_station_filter g) ->
  alloc_ok E (view_capacity (globals.g_rom_catalog g)) = true ->
  (exists ptrs,
     globals.filtered_roms (rebuild_filtered_list E g) = Some ptrs
     /\ globals.filtered_count (rebuild_filtered_list E g) = length ptrs
     /\ store_order ptrs
     /\ forall i, In i ptrs <-> shown g i)
  /\ forall text more,
       (globals.filtered_count (rom_filter_set E (text ++ more) g)
        <= globals.filtered_count (rom_filter_set E text g))%nat.
Proof.
  intros Hids Hf Ha. split.
  - rewrite rebuild_filtered_list_granted by exact Ha. cbv zeta.
    eexists. split; [reflexivity|]. split; [reflexivity|].
    split; [apply filter_seq_order|].
    intros i. rewrite filter_In, in_seq. split.
    + intros [Hi Hk].
      apply kept_shown; [assumption | assumption | lia | assumption].
    + intros Hs.
      assert (Hi : (i < rom_catalog.rom_count (globals.g_rom_catalog g))%nat)
        by (destruct Hs as (rom & (Hi & _) & _); exact Hi).
      split; [lia|]. apply kept_shown; assumption.
  - intros text more. rewrite !rom_filter_set_count by exact Ha.
    apply filter_length_le. intros i.
    rewrite take_app. apply kept_extend.
Qed.

(** C4. [rom_sort] leaves the station filter, the search text and the
    store as they are, and a rebuild after it gives the same view as a
    rebuild without it: the pointers in store order. This holds whatever
    order [qsort] produced. *)
Theorem rebuild_forgets_sort (mode : rom_sort_mode_t) (g : globals_t) :
  let sorted := rom_sort E mode g in
  globals.browse_station_filter sorted = globals.browse_station_filter g
  /\ globals.search_filter sorted = globals.search_filter g
  /\ globals.g_rom_catalog sorted = globals.g_rom_catalog g
  /\ globals.filtered_roms (rebuild_filtered_list E sorted)
     = globals.filtered_roms (rebuild_filtered_list E g)
  /\ globals.filtered_count (rebuild_filtered_list E sorted)
     = globals.filtered_count (rebuild_filtered_list E g)
  /\ forall ptrs,
       globals.filtered_roms (rebuild_filtered_list E sorted) = Some ptrs ->
       store_order ptrs.
Proof.
  cbv zeta.
  assert (Hf : globals.browse_station_filter (rom_sort E mode g)
               = globals.browse_station_filter g).
  { unfold rom_sort. cbn. now break_match. }
  assert (Hs : globals.search_filter (rom_sort E mode g)
               = globals.search_filter g).
  { unfold rom_sort. cbn. now break_match. }
  assert (Hc : globals.g_rom_catalog (rom_sort E mode g)
               = globals.g_rom_catalog g).
  { unfold rom_sort. cbn. now break_match. }
  split; [exact Hf|]. split; [exact Hs|]. split; [exact Hc|].
  unfold rebuild_filtered_list. rewrite Hf, Hs, Hc.
  destruct (alloc_ok E (view_capacity (globals.g_rom_catalog g))).
  - rewrite rebuild_loop_filter. cbn.
    split; [reflexivity|]. split; [reflexivity|].
    intros ptrs [= <-]. apply filter_seq_order.
  - cbn. split; [reflexivity|]. split; [reflexivity|]. discriminate.
Qed.

End BrowseView.

(** ** Removing a station *)

(** The compaction keeps, in front of the write index and in their old
    order, the entries of other stations among those read so far. *)
Lemma purge_loop_compacts (station_id : Z) (n i write_idx : nat)
    (roms : list rom_entry_t) :
  (write_idx <= i)%nat -> (i + n <= length roms)%nat ->
  forall roms' write_idx',
    purge_loop station_id n i write_idx roms = (roms', write_idx') ->
    take write_idx' roms'
    = take write_idx roms
      ++ filter (other_station station_id) (take n (drop i roms))
    /\ length roms' = length roms
    /\ (write_idx' <= i + n)%nat.
Proof.
  revert i write_idx roms.
  induction n as [|n IH]; intros i w roms Hw Hlen roms' w' Hrun.
  - simpl in Hrun. injection Hrun as <- <-.
    rewrite take_0, filter_nil, app_nil_r. repeat split; lia.
  - cbn [purge_loop] in Hrun.
    destruct (roms !! i) as [rom|] eqn:Hi.
    2:{ apply lookup_ge_None in Hi. lia. }
    rewrite (drop_S _ _ _ Hi). cbn [take].
    destruct (rom_entry.station_id rom =? station_id) eqn:Hsid;
      cbn [negb] in Hrun.
    + apply Z.eqb_eq in Hsid.
      rewrite filter_cons_False by (unfold other_station; tauto).
      destruct (IH (S i) w roms) with (roms' := roms') (write_idx' := w')
        as (Htake & Hl & Hb); [lia | lia | exact Hrun |].
      repeat split; [exact Htake | exact Hl | lia].
    + apply Z.eqb_neq in Hsid.
      rewrite filter_cons_True by exact Hsid.
      assert (Hroms : (if negb (w =? i)%nat then <[w:=rom]> roms else roms)
                      = <[w:=rom]> roms).
      { destruct (Nat.eqb_spec w i) as [->|Hne]; cbn [negb]; [|reflexivity].
        symmetry. now apply list_insert_id. }
      rewrite Hroms in Hrun.
      destruct (IH (S i) (S w) (<[w:=rom]> roms))
        with (roms' := roms') (write_idx' := w')
        as (Htake & Hl & Hb);
        [lia | rewrite length_insert; lia | exact Hrun |].
      rewrite length_insert in Hl. split; [|split; [exact Hl | lia]].
      rewrite Htake.
      rewrite (take_S_r _ w rom) by (apply list_lookup_insert_eq; lia).
      rewrite take_insert_ge by lia.
      rewrite drop_insert_lt by lia.
      now rewrite <- app_assoc.
Qed.

Lemma purge_station_roms_live (station_id : Z) (c : rom_catalog_t) :
  (rom_catalog.rom_count c <= length (rom_catalog.roms c))%nat ->
  live_roms (purge_station_roms station_id c)
  = filter (other_station station_id) (live_roms c)
  /\ rom_catalog.rom_count (purge_station_roms station_id c)
     = length (filter (other_station station_id) (live_roms c))
  /\ rom_catalog.stations (purge_station_roms station_id c)
     = rom_catalog.stations c
  /\ rom_catalog.station_count (purge_station_roms station_id c)
     = rom_catalog.station_count c.
Proof.
  intros Hwf. unfold purge_station_roms, live_roms.
  destruct (purge_loop station_id (rom_catalog.rom_count c) 0 0
              (rom_catalog.roms c)) as [roms' w'] eqn:Hrun.
  destruct (purge_loop_compacts station_id (rom_catalog.rom_count c) 0 0
              (rom_catalog.roms c) (Nat.le_refl _) Hwf _ _ Hrun)
    as (Htake & Hl & Hb).
  rewrite take_0, drop_0, app_nil_l in Htake. cbn.
  split; [exact Htake|]. split; [|split; reflexivity].
  rewrite <- Htake. rewrite length_take. lia.
Qed.

(** [station_exists] is what [rom_station_get] tests. *)
Lemma station_exists_get (c : rom_catalog_t) (station_id : Z) :
  0 <= station_id ->
  station_exists c station_id <-> rom_station_get c station_id <> None.
Proof.
  intros H0. unfold station_exists, rom_station_get.
  destruct (Z.geb_spec station_id ROM_MAX_STATIONS) as [Hge|Hlt].
  - split; [lia | congruence].
  - destruct (rom_catalog.stations c !! Z.to_nat station_id) as [s|].
    + destruct (Z.eqb_spec (rom_station.enabled s) 0) as [He|He].
      * split; [|congruence]. intros (_ & s' & [= <-] & Hen). congruence.
      * split; [discriminate|]. intros _. split; [lia|]. now exists s.
    + split; [|congruence]. intros (_ & s' & Hs & _). discriminate.
Qed.

(** C5. In a store whose count does not exceed its capacity, removing a
    station that exists returns 0 and leaves as entries of the store
    exactly the former entries of other stations, in their former order,
    with [rom_count] their number; removing an id that is out of range or
    whose slot is not enabled returns -1 and changes nothing. *)
Theorem rom_station_remove_purges (E : env_t) (station_id : Z) (g : globals_t) :
  (rom_catalog.rom_count (globals.g_rom_catalog g)
   <= length (rom_catalog.roms (globals.g_rom_catalog g)))%nat ->
  uint32_range station_id ->
  (station_exists (globals.g_rom_catalog g) station_id ->
   let r := rom_station_remove E station_id g in
   let after := globals.g_rom_catalog (snd r) in
   fst r = 0
   /\ live_roms after
      = filter (other_station station_id) (live_roms (globals.g_rom_catalog g))
   /\ rom_catalog.rom_count after
      = length (filter (other_station station_id)
                  (live_roms (globals.g_rom_catalog g))))
  /\ (~ station_exists (globals.g_rom_catalog g) station_id ->
      rom_station_remove E station_id g = (-1, g)).
Proof.
  intros Hwf [H0 _]. split.
  - intros (Hlt & s & Hs & Hen). cbv zeta. unfold rom_station_remove.
    destruct (Z.geb_spec station_id ROM_MAX_STATIONS) as [?|_]; [lia|].
    rewrite Hs. rewrite (proj2 (Z.eqb_neq _ _) Hen).
    cbn [fst snd]. rewrite rebuild_filtered_list_catalog. cbn.
    destruct (purge_station_roms_live station_id (globals.g_rom_catalog g) Hwf)
      as (Hlive & Hcount & _).
    unfold live_roms in *. cbn. split; [reflexivity|].
    split; [exact Hlive | exact Hcount].
  - intros Hno. unfold rom_station_remove.
    destruct (Z.geb_spec station_id ROM_MAX_STATIONS) as [?|Hlt]; [reflexivity|].
    destruct (rom_catalog.stations (globals.g_rom_catalog g)
              !! Z.to_nat station_id) as [s|] eqn:Hs; [|reflexivity].
    destruct (Z.eqb_spec (rom_station.enabled s) 0) as [He|He]; [reflexivity|].
    exfalso. apply Hno. split; [lia|]. now exists s.
Qed.

(** ** The cursor and the registry under a change of filter or station *)

Lemma rebuild_filtered_list_cursor (E : env_t) (g : globals_t) :
  globals.iFirstEntry (rebuild_filtered_list E g) = globals.iFirstEntry g
  /\ globals.iSelectedEntry (rebuild_filtered_list E g)
     = globals.iSelectedEntry g.
Proof.
  unfold rebuild_filtered_list.
  destruct (alloc_ok E _); [|split; reflexivity].
  destruct (rebuild_loop _ _ _ _ _ _ _). split; reflexivity.
Qed.

(** [rom_filter_set] always puts the cursor at the top. *)
Lemma rom_filter_set_cursor (E : env_t) (text : cstr) (g : globals_t) :
  globals.iFirstEntry (rom_filter_set E text g) = 0
  /\ globals.iSelectedEntry (rom_filter_set E text g) = 0.
Proof. split; reflexivity. Qed.

(** [rom_filter_clear] never moves it. *)
Lemma rom_filter_clear_cursor (E : env_t) (g : globals_t) :
  globals.iFirstEntry (rom_filter_clear E g) = globals.iFirstEntry g
  /\ globals.iSelectedEntry (rom_filter_clear E g) = globals.iSelectedEntry g.
Proof.
  unfold rom_filter_clear.
  destruct (rebuild_filtered_list_cursor E (globals.set_search_filter [] g))
    as [H1 H2].
  rewrite H1, H2. split; reflexivity.
Qed.

(** [rom_station_update] accepts every id below [ROM_MAX_STATIONS],
    whatever the slot holds, and refuses the others without a change. *)
Lemma rom_station_update_result (station_id : Z) (station : rom_station_t)
    (g : globals_t) :
  (station_id < ROM_MAX_STATIONS ->
   fst (rom_station_update station_id station g) = 0)
  /\ (ROM_MAX_STATIONS <= station_id ->
      rom_station_update station_id station g = (-1, g)).
Proof.
  unfold rom_station_update.
  destruct (Z.geb_spec station_id ROM_MAX_STATIONS); split;
    intros; (lia || reflexivity).
Qed.

(** ** Defects shown on the sample card *)

(** C2, evaluated where it fails. With NES in slot 2 the only station,
    no station has been completed when its scan starts, so the
    specification's percentage is 0; [rom_scan_all] sets [scan_progress] to
    [2 * 100 / 1 = 200], above the 0-100 that [rom_catalog.h] documents.
    The returned total is the station's count. *)
Theorem rom_scan_all_progress_sparse :
  enabled_slots (globals.g_rom_catalog sample_sparse) = [2]
  /\ rom_catalog.station_count (globals.g_rom_catalog sample_sparse) = 1
  /\ option_map (fun r => (fst (fst r), snd (fst r)))
       (rom_scan_all sample_env sample_sparse)
     = Some (2, [(2, 200)])
  /\ completed_percentage 0 1 = 0.
Proof. vm_compute. repeat split. Qed.

(** C6, evaluated where it fails. With the search text "e" and the cursor
    at first 1, selected 2, [rom_filter_clear] empties the search text and
    rebuilds the view but leaves the cursor where it was; [rom_filter_set]
    with the same new text puts it at 0, 0. *)
Theorem rom_filter_clear_keeps_cursor :
  globals.search_filter sample_browsing = lit "e"
  /\ (globals.iFirstEntry sample_browsing,
      globals.iSelectedEntry sample_browsing) = (1, 2)
  /\ globals.search_filter (rom_filter_clear sample_env sample_browsing) = []
  /\ (globals.iFirstEntry (rom_filter_clear sample_env sample_browsing),
      globals.iSelectedEntry (rom_filter_clear sample_env sample_browsing))
     = (1, 2)
  /\ (globals.iFirstEntry (rom_filter_set sample_env [] sample_browsing),
      globals.iSelectedEntry (rom_filter_set sample_env [] sample_browsing))
     = (0, 0).
Proof. vm_compute. repeat split. Qed.

(** C8, evaluated where it fails. In a registry without stations, where
    [rom_station_get] finds no station 3, [rom_station_update] for id 3
    returns 0 and writes the slot, so that a station 3 exists afterwards
    while [station_count] is still 0; only an id of 32 or more is
    refused. *)
Theorem rom_station_update_absent_station :
  rom_station_get (globals.g_rom_catalog sample_ready) 3 = None
  /\ fst (rom_station_update 3 sample_station_record sample_ready) = 0
  /\ rom_station_get
       (globals.g_rom_catalog
          (snd (rom_station_update 3 sample_station_record sample_ready))) 3
     = Some sample_station_record
  /\ rom_catalog.station_count
       (globals.g_rom_catalog
          (snd (rom_station_update 3 sample_station_record sample_ready)))
     = 0
  /\ rom_station_update 32 sample_station_record sample_ready
     = (-1, sample_ready).
Proof. vm_compute. repeat split. Qed.

(** ** The preview resolver *)

(** C7. For an entry whose station exists, when the name of the probe
    host does not resolve, [rom_preview_fetch_online] returns -1 with the
    status [PREVIEW_STATUS_NO_INTERNET]; the only call it makes is the
    probe, so no download command is run and no file changes. *)
Theorem fetch_online_no_internet (sys : sys_t) (c : rom_catalog_t)
    (rom : rom_entry_t) (w : world_t) :
  station_exists c (rom_entry.station_id rom) ->
  getaddrinfo sys (lit "github.com") (lit "443") <> 0 ->
  let r := rom_preview_fetch_online sys c (Some rom) w in
  fst r = -1
  /\ rom_preview_get_status (snd r) = PREVIEW_STATUS_NO_INTERNET
  /\ world.calls (snd r)
     = world.calls w ++ [call_getaddrinfo (lit "github.com") (lit "443")]
  /\ download_attempts (world.calls (snd r)) = download_attempts (world.calls w)
  /\ world.files (snd r) = world.files w.
Proof.
  intros Hst Hnet. cbv zeta. unfold rom_preview_fetch_online.
  apply station_exists_get in Hst; [|apply Hst].
  destruct (rom_station_get c (rom_entry.station_id rom)) as [station|];
    [|congruence].
  unfold rom_preview_check_internet.
  rewrite (proj2 (Z.eqb_neq _ _) Hnet). cbn.
  repeat split.
  unfold download_attempts. rewrite List.filter_app, length_app. cbn. lia.
Qed.

(** C10. In the initial state there is no fetch thread and
    [rom_preview_fetch_poll] returns 1; and from any state, a
    [rom_preview_fetch_async] whose [pthread_create] fails returns -1 with
    the status [PREVIEW_STATUS_ERROR], after which
    [rom_preview_fetch_poll] returns 1. *)
Theorem fetch_poll_without_task (sys : sys_t) (c : rom_catalog_t)
    (rom : option rom_entry_t) (w : world_t) (fs : files_t) :
  (world.fetch_thread (world.initial fs) = None
   /\ rom_preview_fetch_poll (world.initial fs) = 1)
  /\ (pthread_create sys <> 0 ->
      fst (rom_preview_fetch_async sys c rom w) = -1
      /\ rom_preview_get_status (snd (rom_preview_fetch_async sys c rom w))
         = PREVIEW_STATUS_ERROR
      /\ rom_preview_fetch_poll (snd (rom_preview_fetch_async sys c rom w)) = 1).
Proof.
  split; [split; reflexivity|]. intros Hfail.
  unfold rom_preview_fetch_async.
  rewrite (proj2 (Z.eqb_neq _ _) Hfail). cbn [negb fst snd].
  repeat split.
Qed.

(** ** The theorems at work on the sample card *)

Lemma rebuild_filtered_list_exact_witness :
  station_ids_in_range (globals.g_rom_catalog sample_scanned)
  /\ int_range (globals.browse_station_filter sample_scanned)
  /\ alloc_ok sample_env (view_capacity (globals.g_rom_catalog sample_scanned))
     = true
  /\ exists ptrs,
       globals.filtered_roms (rebuild_filtered_list sample_env sample_scanned)
       = Some ptrs
       /\ globals.filtered_count (rebuild_filtered_list sample_env sample_scanned)
          = length ptrs
       /\ store_order ptrs
       /\ forall i, In i ptrs <-> shown sample_scanned i.
Proof.
  assert (H1 : station_ids_in_range (globals.g_rom_catalog sample_scanned)).
  { unfold station_ids_in_range, uint32_range.
    refine (@bool_decide_unpack _ (Forall_dec _ _) _). vm_compute. exact I. }
  assert (H2 : int_range (globals.browse_station_filter sample_scanned)).
  { unfold int_range. vm_compute. split; [discriminate | reflexivity]. }
  assert (H3 : alloc_ok sample_env
                 (view_capacity (globals.g_rom_catalog sample_scanned)) = true)
    by reflexivity.
  split; [exact H1|]. split; [exact H2|]. split; [exact H3|].
  exact (proj1 (rebuild_filtered_list_exact sample_env sample_scanned H1 H2 H3)).
Defined.

Lemma rom_station_remove_purges_witness :
  (rom_catalog.rom_count (globals.g_rom_catalog sample_scanned)
   <= length (rom_catalog.roms (globals.g_rom_catalog sample_scanned)))%nat
  /\ uint32_range 0 /\ uint32_range 7
  /\ station_exists (globals.g_rom_catalog sample_scanned) 0
  /\ ~ station_exists (globals.g_rom_catalog sample_scanned) 7
  /\ fst (rom_station_remove sample_env 0 sample_scanned) = 0
  /\ rom_station_remove sample_env 7 sample_scanned = (-1, sample_scanned).
Proof.
  assert (H1 : (rom_catalog.rom_count (globals.g_rom_catalog sample_scanned)
                <= length (rom_catalog.roms
                             (globals.g_rom_catalog sample_scanned)))%nat).
  { apply Nat.leb_le. vm_compute. reflexivity. }
  assert (R0 : uint32_range 0) by (unfold uint32_range; lia).
  assert (R7 : uint32_range 7) by (unfold uint32_range; lia).
  assert (H2 : station_exists (globals.g_rom_catalog sample_scanned) 0).
  { split; [unfold ROM_MAX_STATIONS; lia|].
    eexists. split; [vm_compute; reflexivity | discriminate]. }
  assert (H3 : ~ station_exists (globals.g_rom_catalog sample_scanned) 7).
  { intros (_ & s & Hs & Hen). vm_compute in Hs. injection Hs as <-.
    apply Hen. reflexivity. }
  split; [exact H1|]. split; [exact R0|]. split; [exact R7|].
  split; [exact H2|]. split; [exact H3|]. split.
  - exact (proj1 (proj1 (rom_station_remove_purges sample_env 0
                           sample_scanned H1 R0) H2)).
  - exact (proj2 (rom_station_remove_purges sample_env 7 sample_scanned H1 R7)
             H3).
Defined.

Lemma fetch_online_no_internet_witness :
  station_exists (globals.g_rom_catalog sample_scanned)
    (rom_entry.station_id sample_rom)
  /\ getaddrinfo sample_offline (lit "github.com") (lit "443") <> 0
  /\ rom_preview_get_status
       (snd (rom_preview_fetch_online sample_offline
               (globals.g_rom_catalog sample_scanned) (Some sample_rom)
               (world.initial (fun _ => None))))
     = PREVIEW_STATUS_NO_INTERNET.
Proof.
  assert (H1 : station_exists (globals.g_rom_catalog sample_scanned)
                 (rom_entry.station_id sample_rom)).
  { split; [unfold ROM_MAX_STATIONS; simpl; lia|].
    eexists. split; [vm_compute; reflexivity | discriminate]. }
  assert (H2 : getaddrinfo sample_offline (lit "github.com") (lit "443") <> 0)
    by discriminate.
  split; [exact H1|]. split; [exact H2|].
  exact (proj1 (proj2 (fetch_online_no_internet sample_offline _ sample_rom
                         (world.initial (fun _ => None)) H1 H2))).
Defined.

Lemma fetch_poll_without_task_witness :
  pthread_create sample_no_threads <> 0
  /\ rom_preview_fetch_poll sample_fetching = 0
  /\ rom_preview_fetch_poll
       (snd (rom_preview_fetch_async sample_no_threads
               (globals.g_rom_catalog sample_scanned) (Some sample_rom)
               sample_fetching)) = 1.
Proof.
  assert (H : pthread_create sample_no_threads <> 0) by discriminate.
  split; [exact H|]. split; [reflexivity|].
  exact (proj2 (proj2 (proj2
           (fetch_poll_without_task sample_no_threads
              (globals.g_rom_catalog sample_scanned) (Some sample_rom)
              sample_fetching (fun _ => None)) H))).
Defined.

(** * Further properties *)

(** ** The station registry *)

Lemma first_free_slot_none (slots : list rom_station_t) (i : Z) :
  0 <= i ->
  Forall (fun s => rom_station.enabled s <> 0) slots ->
  first_free_slot slots i = -1.
Proof.
  intros Hi H. revert i Hi. induction H as [|s slots Hs _ IH]; intros i Hi; simpl.
  - reflexivity.
  - rewrite (proj2 (Z.eqb_neq _ _) Hs). apply IH. lia.
Qed.

Lemma first_free_slot_lowest (slots : list rom_station_t) (i : Z) (k : nat)
    (s : rom_station_t) :
  slots !! k = Some s -> rom_station.enabled s = 0 ->
  (forall j s', (j < k)%nat -> slots !! j = Some s' -> rom_station.enabled s' <> 0) ->
  first_free_slot slots i = i + Z.of_nat k.
Proof.
  revert i k. induction slots as [|x slots IH]; intros i k Hk Hs Hlow.
  - discriminate.
  - destruct k as [|k]; simpl in *.
    + injection Hk as ->. rewrite Hs. simpl. lia.
    + rewrite (proj2 (Z.eqb_neq _ _) (Hlow 0%nat x (Nat.lt_0_succ _) eq_refl)).
      rewrite (IH (i + 1) k Hk Hs); [lia|].
      intros j s' Hj Hj'. apply (Hlow (S j) s'); [lia | exact Hj'].
Qed.

(** X1. [rom_station_add] refuses with -1 and no change when every slot is
    enabled. Otherwise it returns the lowest slot that is not enabled;
    afterwards [rom_station_get] finds there a station with that id, the
    given texts cut to the field sizes and no entries, other slots and the
    store are as before, [station_count] is one more and the registry has
    been saved. *)
Theorem rom_station_add_lowest_free
    (name short_name rom_path core_path extensions : cstr) (g : globals_t) :
  let c := globals.g_rom_catalog g in
  let slots := take (Z.to_nat ROM_MAX_STATIONS) (rom_catalog.stations c) in
  let r := rom_station_add name short_name rom_path core_path extensions g in
  let c' := globals.g_rom_catalog (snd r) in
  (Forall (fun s => rom_station.enabled s <> 0) slots -> r = (-1, g))
  /\ forall k s,
       slots !! k = Some s -> rom_station.enabled s = 0 ->
       (forall j s', (j < k)%nat -> slots !! j = Some s' ->
                     rom_station.enabled s' <> 0) ->
       fst r = Z.of_nat k
       /\ rom_station_get c' (Z.of_nat k)
          = Some (rom_station.mk (Z.of_nat k) (take 255 name) (take 31 short_name)
                    (take 1023 rom_path) (take 1023 core_path)
                    (take 31 extensions) 1 0)
       /\ (forall j, j <> k ->
             rom_catalog.stations c' !! j = rom_catalog.stations c !! j)
       /\ rom_catalog.station_count c' = u32 (rom_catalog.station_count c + 1)
       /\ live_roms c' = live_roms c
       /\ globals.rom_stations_cfg (snd r) = Some (rom_catalog.stations c').
Proof.
  cbv zeta. split.
  - intros Hfull. unfold rom_station_add.
    rewrite first_free_slot_none by (assumption || lia). reflexivity.
  - intros k s Hk Hs Hlow. unfold rom_station_add.
    rewrite (first_free_slot_lowest _ 0 k s Hk Hs Hlow).
    rewrite Z.add_0_l.
    destruct (Z.ltb_spec (Z.of_nat k) 0) as [?|_]; [lia|].
    cbn [fst snd]. cbn. rewrite Nat2Z.id.
    assert (Hk32 : (k < Z.to_nat ROM_MAX_STATIONS)%nat
                   /\ rom_catalog.stations (globals.g_rom_catalog g) !! k = Some s).
    { apply lookup_take_Some in Hk. tauto. }
    destruct Hk32 as [Hk32 Hk'].
    split; [reflexivity|]. split.
    + unfold rom_station_get. cbn.
      destruct (Z.geb_spec (Z.of_nat k) ROM_MAX_STATIONS) as [Hge|_].
      { unfold ROM_MAX_STATIONS in *. lia. }
      rewrite Nat2Z.id.
      rewrite list_lookup_insert_eq by (eapply lookup_lt_Some; exact Hk').
      reflexivity.
    + split; [|repeat split].
      intros j Hj. apply list_lookup_insert_ne. congruence.
Qed.

Lemma station_by_index_loop_spec (slots : list rom_station_t) (count index : Z) :
  station_by_index_loop slots count index
  = if index <? count then None
    else List.filter slot_enabled slots !! Z.to_nat (index - count).
Proof.
  revert count. induction slots as [|s slots IH]; intros count; simpl.
  - destruct (index <? count); reflexivity.
  - unfold slot_enabled at 1.
    destruct (negb (rom_station.enabled s =? 0)).
    + destruct (Z.eqb_spec count index) as [->|Hne].
      * rewrite Z.ltb_irrefl, Z.sub_diag. reflexivity.
      * rewrite IH.
        destruct (Z.ltb_spec index count) as [Hlt|Hge].
        -- destruct (Z.ltb_spec index (count + 1)); [reflexivity | lia].
        -- destruct (Z.ltb_spec index (count + 1)); [lia|].
           replace (Z.to_nat (index - count))
             with (S (Z.to_nat (index - (count + 1)))) by lia.
           reflexivity.
    + apply IH.
Qed.

(** X2. [rom_station_get_by_index] returns the station with the given
    ordinal among the enabled slots, in slot order, and NULL for a negative
    ordinal or one that is not below their number. *)
Theorem rom_station_get_by_index_ordinal (c : rom_catalog_t) (index : Z) :
  rom_station_get_by_index c index
  = if index <? 0 then None else enabled_stations c !! Z.to_nat index.
Proof.
  unfold rom_station_get_by_index, enabled_stations.
  rewrite station_by_index_loop_spec, Z.sub_0_r. reflexivity.
Qed.

Lemma count_enabled_spec (slots : list rom_station_t) (n : Z) :
  0 <= n -> n + Z.of_nat (length slots) < 2 ^ 32 ->
  count_enabled slots n = n + Z.of_nat (length (List.filter slot_enabled slots)).
Proof.
  revert n. induction slots as [|s slots IH]; intros n H0 Hb; simpl.
  - lia.
  - cbn [length] in Hb. unfold slot_enabled at 1.
    destruct (negb (rom_station.enabled s =? 0)).
    + unfold u32. rewrite Z.mod_small by lia.
      rewrite IH by lia. cbn [length]. lia.
    + apply IH; lia.
Qed.

(** X3. A [rom_catalog_load] that succeeds leaves [station_count] equal to
    the number of enabled slots, whatever it was before; on an initialised
    catalog it always succeeds, and after [rom_catalog_save] it brings back
    the stations that were saved. It fails only when the catalog was not
    initialised and the store is not granted. *)
Theorem rom_catalog_load_counts (E : env_t) (g : globals_t) :
  let r := rom_catalog_load E g in
  (fst r = 0 ->
   rom_catalog.station_count (globals.g_rom_catalog (snd r))
   = Z.of_nat (length (enabled_stations (globals.g_rom_catalog (snd r)))))
  /\ (rom_catalog.initialized (globals.g_rom_catalog g) <> 0 ->
      fst r = 0
      /\ fst (rom_catalog_load E (rom_catalog_save g)) = 0
      /\ rom_catalog.stations
           (globals.g_rom_catalog (snd (rom_catalog_load E (rom_catalog_save g))))
         = rom_catalog.stations (globals.g_rom_catalog g))
  /\ (fst r <> 0 ->
      rom_catalog.initialized (globals.g_rom_catalog g) = 0
      /\ alloc_ok E 1024 = false).
Proof.
  cbv zeta.
  assert (Hcount : forall l : list rom_station_t,
             count_enabled (take (Z.to_nat ROM_MAX_STATIONS) l) 0
             = Z.of_nat (length (List.filter slot_enabled
                                   (take (Z.to_nat ROM_MAX_STATIONS) l)))).
  { intros l. rewrite count_enabled_spec; [lia | lia |].
    rewrite length_take. change (Z.to_nat ROM_MAX_STATIONS) with 32%nat. lia. }
  split; [|split].
  - unfold rom_catalog_load.
    destruct (if rom_catalog.initialized (globals.g_rom_catalog g) =? 0
              then rom_catalog_init E g else (0, g)) as [r0 g0].
    destruct (r0 <? 0); cbn [fst snd]; [discriminate|]. intros _.
    cbn. unfold enabled_stations. cbn. apply Hcount.
  - intros Hinit. unfold rom_catalog_load. cbn.
    rewrite (proj2 (Z.eqb_neq _ _) Hinit). cbn. repeat split.
  - unfold rom_catalog_load.
    destruct (Z.eqb_spec (rom_catalog.initialized (globals.g_rom_catalog g)) 0)
      as [H0|H0]; [|cbn; congruence].
    unfold rom_catalog_init. rewrite (proj2 (Z.eqb_eq _ _) H0). cbn [negb].
    destruct (alloc_ok E 1024); cbn; [congruence | auto].
Qed.

(** ** Names and extensions *)

Ltac all_chars c :=
  destruct c as [[] [] [] [] [] [] [] []]; vm_compute; try reflexivity;
  try discriminate; try tauto.

Lemma tolower_idem (c : ascii) : tolower (tolower c) = tolower c.
Proof. all_chars c. Qed.

Lemma tolower_space (c : ascii) : char_eqb (tolower c) space = char_eqb c space.
Proof. all_chars c. Qed.

Lemma tolower_dot (c : ascii) : char_eqb (tolower c) dot_char = char_eqb c dot_char.
Proof. all_chars c. Qed.

Lemma replace_underscores_clean (s : cstr) : ~ In underscore (replace_underscores s).
Proof.
  unfold replace_underscores. rewrite in_map_iff. intros (c & Hc & _).
  destruct (char_eqb c underscore) eqn:Hu.
  - discriminate.
  - apply char_eqb_false in Hu. congruence.
Qed.

(** X4. The display name made from a file name never holds an underscore
    and fits the buffer. It is the part of the file name in front of its
    last dot, or the whole file name when there is no dot, cut to
    [max_len - 1] characters, with every underscore turned into a
    space. *)
Theorem extract_display_name_stem (filename : cstr) (max_len : nat) :
  (0 < max_len)%nat ->
  ~ In underscore (extract_display_name filename max_len)
  /\ (length (extract_display_name filename max_len) <= max_len - 1)%nat
  /\ (forall stem ext,
        filename = stem ++ dot_char :: ext -> ~ In dot_char ext ->
        extract_display_name filename max_len
        = replace_underscores (take (max_len - 1) stem))
  /\ (~ In dot_char filename ->
      extract_display_name filename max_len
      = replace_underscores (take (max_len - 1) filename)).
Proof.
  intros Hmax. split; [apply replace_underscores_clean|].
  split; [|split].
  - unfold extract_display_name, replace_underscores.
    rewrite length_map, length_take.
    destruct (strrchr filename dot_char) as [k|];
      match goal with |- context [(max_len <=? ?x)%nat] =>
        destruct (Nat.leb_spec max_len x) end; lia.
  - intros stem ext -> Hno. unfold extract_display_name.
    rewrite strrchr_last by exact Hno. f_equal.
    destruct (Nat.leb_spec max_len (length stem)).
    + rewrite take_app_le by lia. reflexivity.
    + rewrite take_app_length. symmetry. apply take_ge. lia.
  - intros Hno. unfold extract_display_name.
    rewrite strrchr_absent by exact Hno. f_equal.
    destruct (Nat.leb_spec max_len (length filename)); [reflexivity|].
    rewrite firstn_all. symmetry. apply take_ge. lia.
Qed.

Lemma strrchr_tolower_dot (s : cstr) :
  strrchr (map tolower s) dot_char = strrchr s dot_char.
Proof.
  induction s as [|c s IH]; simpl; [reflexivity|].
  now rewrite IH, tolower_dot.
Qed.

Lemma tokens_tolower (s : cstr) :
  tokens (map tolower s) = map (map tolower) (tokens s).
Proof.
  induction s as [|c s IH]; [reflexivity|].
  cbn [map tokens]. rewrite tolower_space.
  destruct (char_eqb c space); [exact IH|].
  destruct s as [|c' s]; [reflexivity|].
  cbn [map] in *. rewrite tolower_space.
  destruct (char_eqb c' space); [now rewrite IH|].
  rewrite IH. destruct (tokens (c' :: s)); reflexivity.
Qed.

Lemma map_tolower_twice (s : cstr) : map tolower (map tolower s) = map tolower s.
Proof. rewrite map_map. apply map_ext. intros c. apply tolower_idem. Qed.

Lemma match_tokens_tolower (ext_lower p : cstr) :
  match_tokens (length (map tolower p)) ext_lower (map tolower p)
  = match_tokens (length p) ext_lower p.
Proof.
  destruct (match_tokens_spec (length (map tolower p)) ext_lower (map tolower p)
              (Nat.le_refl _)) as [H1 H2].
  destruct (match_tokens_spec (length p) ext_lower p (Nat.le_refl _)) as [H3 H4].
  assert (Hiff : (exists tok, In tok (tokens (map tolower p)) /\ token_ok ext_lower tok)
                 <-> (exists tok, In tok (tokens p) /\ token_ok ext_lower tok)).
  { rewrite tokens_tolower. split.
    - intros (tok & Hin & Hlen & Heq). apply in_map_iff in Hin as (t & <- & Hin).
      exists t. split; [exact Hin|]. split.
      + now rewrite length_map in Hlen.
      + now rewrite map_tolower_twice in Heq.
    - intros (tok & Hin & Hlen & Heq). exists (map tolower tok).
      split; [now apply in_map|]. split.
      + now rewrite length_map.
      + now rewrite map_tolower_twice. }
  rewrite <- Hiff, <- H1 in H3.
  destruct H2 as [E2|E2], H4 as [E4|E4]; try congruence.
  - rewrite E2, E4. exfalso. apply H3 in E4. congruence.
  - rewrite E2, E4. exfalso. apply H3 in E2. congruence.
Qed.

Lemma match_extension_tolower (filename exts : cstr) :
  match_extension (map tolower filename) (Some (map tolower exts))
  = match_extension filename (Some exts).
Proof.
  unfold match_extension. destruct exts as [|e exts]; [reflexivity|].
  change (map tolower (e :: exts)) with (tolower e :: map tolower exts).
  rewrite strrchr_tolower_dot.
  destruct (strrchr filename dot_char) as [k|]; [|reflexivity].
  rewrite !take_min_8.
  change (tolower e :: map tolower exts) with (map tolower (e :: exts)).
  rewrite match_tokens_tolower.
  rewrite skipn_map, firstn_map, map_tolower_twice. reflexivity.
Qed.

(** X5. Extension matching ignores letter case on both sides: two file
    names that agree up to case and two allow-lists that agree up to case
    give the same answer. *)
Theorem match_extension_ignores_case (filename filename' exts exts' : cstr) :
  map tolower filename = map tolower filename' ->
  map tolower exts = map tolower exts' ->
  match_extension filename (Some exts) = match_extension filename' (Some exts').
Proof.
  intros Hf He.
  rewrite <- (match_extension_tolower filename exts).
  rewrite <- (match_extension_tolower filename' exts').
  now rewrite Hf, He.
Qed.

(** ** URL encoding *)

Lemma hex_digits_safe (c : ascii) :
  url_safe (hex_digit (nat_of_ascii c / 16)) = true
  /\ url_safe (hex_digit (nat_of_ascii c mod 16)) = true.
Proof. destruct c as [[] [] [] [] [] [] [] []]; vm_compute; split; reflexivity. Qed.

Lemma hex_digits_value (c : ascii) :
  ascii_of_nat (16 * hex_value (hex_digit (nat_of_ascii c / 16))
                + hex_value (hex_digit (nat_of_ascii c mod 16))) = c.
Proof. destruct c as [[] [] [] [] [] [] [] []]; vm_compute; reflexivity. Qed.

Lemma url_unreserved_plain (c : ascii) :
  url_unreserved c = true ->
  char_eqb c "%" = false /\ char_eqb c "+" = false.
Proof.
  destruct c as [[] [] [] [] [] [] [] []]; vm_compute; intros H;
    (discriminate H || (split; reflexivity)).
Qed.

Lemma url_encode_loop_fits (src : cstr) (i dst_size : nat) :
  (4 <= dst_size)%nat -> (i <= dst_size - 2)%nat ->
  (i + length (url_encode_loop src i dst_size) <= dst_size - 2)%nat.
Proof.
  intros Hn. revert i. induction src as [|c src IH]; intros i Hi; simpl; [lia|].
  destruct (Nat.ltb_spec i (dst_size - 4)); [|simpl; lia].
  destruct (url_unreserved c); [|destruct (char_eqb c space)]; cbn [length].
  - specialize (IH (i + 1)%nat). lia.
  - specialize (IH (i + 1)%nat). lia.
  - specialize (IH (i + 3)%nat). lia.
Qed.

Lemma url_encode_loop_safe (src : cstr) (i dst_size : nat) :
  forallb url_safe (url_encode_loop src i dst_size) = true.
Proof.
  revert i. induction src as [|c src IH]; intros i; [reflexivity|].
  cbn [url_encode_loop].
  destruct (i <? dst_size - 4)%nat; [|reflexivity].
  destruct (url_unreserved c) eqn:Hu; [|destruct (char_eqb c space)].
  - cbn [forallb]. rewrite IH. unfold url_safe. now rewrite Hu.
  - cbn [forallb]. now rewrite IH.
  - cbn [forallb]. destruct (hex_digits_safe c) as [-> ->]. now rewrite IH.
Qed.

(** X6. For a buffer of at least 4 bytes, what [url_encode] writes fits the
    buffer together with its terminating NUL, and consists only of letters,
    digits, [-], [_], [.], [~], [+] and [%]. *)
Theorem url_encode_fits_and_safe (src : cstr) (dst_size : nat) :
  (4 <= dst_size)%nat ->
  (length (url_encode src dst_size) < dst_size)%nat
  /\ forallb url_safe (url_encode src dst_size) = true.
Proof.
  intros Hn. split; [|apply url_encode_loop_safe].
  pose proof (url_encode_loop_fits src 0 dst_size Hn). unfold url_encode. lia.
Qed.

Lemma url_decode_encode_loop (src : cstr) (i dst_size : nat) :
  (i + 3 * length src + 4 <= dst_size)%nat ->
  url_decode (url_encode_loop src i dst_size) = src.
Proof.
  revert i. induction src as [|c src IH]; intros i Hi; [reflexivity|].
  cbn [length] in Hi. cbn [url_encode_loop].
  destruct (Nat.ltb_spec i (dst_size - 4)); [|lia].
  destruct (url_unreserved c) eqn:Hu; [|destruct (char_eqb c space) eqn:Hs].
  - destruct (url_unreserved_plain c Hu) as [H1 H2].
    cbn [url_decode]. rewrite H1, H2, IH by lia. reflexivity.
  - apply char_eqb_true in Hs. subst c.
    cbn [url_decode]. change (char_eqb "+" "%") with false.
    change (char_eqb "+" "+") with true. cbn iota. rewrite IH by lia. reflexivity.
  - cbn [url_decode]. change (char_eqb "%" "%") with true. cbn iota.
    rewrite hex_digits_value, IH by lia. reflexivity.
Qed.

Lemma url_encode_inj (a b : cstr) (dst_size : nat) :
  (3 * length a + 4 <= dst_size)%nat ->
  (3 * length b + 4 <= dst_size)%nat ->
  url_encode a dst_size = url_encode b dst_size ->
  a = b.
Proof.
  intros Ha Hb Heq.
  rewrite <- (url_decode_encode_loop a 0 dst_size) by lia.
  rewrite <- (url_decode_encode_loop b 0 dst_size) by lia.
  unfold url_encode in Heq. now rewrite Heq.
Qed.

(** X7. As long as nothing is cut (the buffer holds three bytes per
    character and four more), [url_encode] maps different names to
    different texts. *)
Theorem url_encode_injective (a b : cstr) (dst_size : nat) :
  (3 * length a + 4 <= dst_size)%nat ->
  (3 * length b + 4 <= dst_size)%nat ->
  a <> b ->
  url_encode a dst_size <> url_encode b dst_size.
Proof.
  intros Ha Hb Hne Heq. apply Hne.
  exact (url_encode_inj a b dst_size Ha Hb Heq).
Qed.

(** ** Moving the cursor *)

Ltac split_ifs :=
  repeat match goal with
         | |- context [if ?b then _ else _] => destruct b eqn:?
         end.

Ltac z_props :=
  repeat match goal with
         | H : (_ <? _) = true |- _ => apply Z.ltb_lt in H
         | H : (_ <? _) = false |- _ => apply Z.ltb_ge in H
         | H : (_ <=? _) = true |- _ => apply Z.leb_le in H
         | H : (_ <=? _) = false |- _ => apply Z.leb_gt in H
         | H : (_ >? _) = true |- _ => rewrite Z.gtb_ltb in H
         | H : (_ >? _) = false |- _ => rewrite Z.gtb_ltb in H
         | H : (_ >=? _) = true |- _ => rewrite Z.geb_leb in H
         | H : (_ >=? _) = false |- _ => rewrite Z.geb_leb in H
         | H : (_ =? _) = true |- _ => apply Z.eqb_eq in H
         | H : (_ =? _) = false |- _ => apply Z.eqb_neq in H
         | H : negb _ = true |- _ => apply negb_true_iff in H
         | H : negb _ = false |- _ => apply negb_false_iff in H
         end.

(** X8. On a display of at least one row, every movement keeps a valid
    cursor valid: the selected row stays inside the view and inside the
    window that starts at the first visible row. Moving down from the last
    row goes to the top, moving up from the top goes to the last row. The
    view itself is not touched. *)
Theorem rom_browse_scan_keeps_cursor (E : env_t) (mode : scan_mode) (g : globals_t) :
  0 < OsdGetSize E ->
  cursor_ok E g ->
  cursor_ok E (rom_browse_scan E mode g)
  /\ globals.filtered_roms (rom_browse_scan E mode g) = globals.filtered_roms g
  /\ globals.filtered_count (rom_browse_scan E mode g) = globals.filtered_count g
  /\ (globals.iSelectedEntry g = Z.of_nat (globals.filtered_count g) - 1 ->
      globals.iSelectedEntry (rom_browse_scan E SCANF_NEXT g) = 0
      /\ globals.iFirstEntry (rom_browse_scan E SCANF_NEXT g) = 0)
  /\ (globals.iSelectedEntry g = 0 ->
      globals.iSelectedEntry (rom_browse_scan E SCANF_PREV g)
      = Z.of_nat (globals.filtered_count g) - 1).
Proof.
  intros Hosd (Hfirst & Hsel & Hwin).
  unfold cursor_ok, rom_browse_scan.
  split; [|split; [|split; [|split]]].
  - destruct mode; cbn; split_ifs; z_props; cbn; lia.
  - destruct mode; cbn; split_ifs; reflexivity.
  - destruct mode; cbn; split_ifs; reflexivity.
  - intros Hlast. cbn. split_ifs; z_props; cbn; lia.
  - intros Htop. cbn. split_ifs; z_props; cbn; lia.
Qed.

(** ** Comparing entries *)

Lemma wrapped_difference (x y : Z) :
  uint32_range x -> uint32_range y ->
  (- 2 ^ 31 <= x - y < 2 ^ 31 -> int32 (u32 (x - y)) = x - y)
  /\ (2 ^ 31 <= x - y -> int32 (u32 (x - y)) = x - y - 2 ^ 32).
Proof.
  unfold uint32_range, int32, u32. intros Hx Hy. split; intros Hd.
  - destruct (Z_lt_le_dec (x - y) 0).
    + replace ((x - y) mod 2 ^ 32) with (x - y + 2 ^ 32)
        by (apply Zmod_unique with (q := -1); lia).
      replace ((x - y + 2 ^ 32 + 2 ^ 31) mod 2 ^ 32) with (x - y + 2 ^ 31)
        by (apply Zmod_unique with (q := 1); lia).
      lia.
    + rewrite (Z.mod_small (x - y)) by lia.
      rewrite Z.mod_small by lia. lia.
  - rewrite (Z.mod_small (x - y)) by lia.
    replace ((x - y + 2 ^ 31) mod 2 ^ 32) with (x - y + 2 ^ 31 - 2 ^ 32)
      by (apply Zmod_unique with (q := 1); lia).
    lia.
Qed.

(** X9. For two entries whose sizes differ by less than 2^31,
    [compare_roms] in the size modes returns their difference (ascending)
    or its opposite (descending), so its sign orders them by size. When
    the first is larger by 2^31 or more, the ascending comparison is
    negative all the same: the larger entry counts as the smaller. Dates
    are compared in the same way. *)
Theorem compare_roms_numeric (c : rom_catalog_t) (a b : nat) (ra rb : rom_entry_t) :
  rom_catalog.roms c !! a = Some ra ->
  rom_catalog.roms c !! b = Some rb ->
  uint32_range (rom_entry.size ra) -> uint32_range (rom_entry.size rb) ->
  uint32_range (rom_entry.date ra) -> uint32_range (rom_entry.date rb) ->
  (- 2 ^ 31 <= rom_entry.size ra - rom_entry.size rb < 2 ^ 31 ->
   compare_roms c ROM_SORT_SIZE_ASC a b = rom_entry.size ra - rom_entry.size rb)
  /\ (- 2 ^ 31 <= rom_entry.size rb - rom_entry.size ra < 2 ^ 31 ->
      compare_roms c ROM_SORT_SIZE_DESC a b = rom_entry.size rb - rom_entry.size ra)
  /\ (2 ^ 31 <= rom_entry.size ra - rom_entry.size rb ->
      compare_roms c ROM_SORT_SIZE_ASC a b < 0)
  /\ (- 2 ^ 31 <= rom_entry.date ra - rom_entry.date rb < 2 ^ 31 ->
      compare_roms c ROM_SORT_DATE_ASC a b = rom_entry.date ra - rom_entry.date rb)
  /\ (- 2 ^ 31 <= rom_entry.date rb - rom_entry.date ra < 2 ^ 31 ->
      compare_roms c ROM_SORT_DATE_DESC a b = rom_entry.date rb - rom_entry.date ra)
  /\ (2 ^ 31 <= rom_entry.date ra - rom_entry.date rb ->
      compare_roms c ROM_SORT_DATE_ASC a b < 0).
Proof.
  intros Ha Hb Hsa Hsb Hda Hdb. unfold compare_roms. rewrite Ha, Hb.
  destruct (wrapped_difference _ _ Hsa Hsb) as [S1 S2].
  destruct (wrapped_difference _ _ Hsb Hsa) as [S3 _].
  destruct (wrapped_difference _ _ Hda Hdb) as [D1 D2].
  destruct (wrapped_difference _ _ Hdb Hda) as [D3 _].
  repeat split; intros H.
  - now apply S1.
  - now apply S3.
  - rewrite (S2 H). unfold uint32_range in *. lia.
  - now apply D1.
  - now apply D3.
  - rewrite (D2 H). unfold uint32_range in *. lia.
Qed.

Lemma insert_by_perm (cmp : nat -> nat -> Z) (x : nat) (l : list nat) :
  Permutation (insert_by cmp x l) (x :: l).
Proof.
  induction l as [|y l IH]; simpl; [reflexivity|].
  destruct (cmp x y <=? 0); [reflexivity|].
  rewrite IH. apply Permutation_swap.
Qed.

Lemma insertion_sort_perm (cmp : nat -> nat -> Z) (l : list nat) :
  Permutation (insertion_sort cmp l) l.
Proof.
  unfold insertion_sort. induction l as [|x l IH]; simpl; [reflexivity|].
  now rewrite insert_by_perm, IH.
Qed.

(** X10. Provided [qsort] returns a rearrangement of the array it is
    given, [rom_sort] leaves in the view a rearrangement of the pointers
    that were there: no entry enters or leaves the view. It records the
    mode, and changes neither the count, nor the cursor, nor the filters,
    nor the store. *)
Theorem rom_sort_rearranges (E : env_t) (mode : rom_sort_mode_t) (g : globals_t) :
  (forall cmp l, Permutation (qsort E cmp l) l) ->
  let g' := rom_sort E mode g in
  match globals.filtered_roms g, globals.filtered_roms g' with
  | Some ptrs, Some ptrs' => Permutation ptrs' ptrs
  | None, None => True
  | _, _ => False
  end
  /\ globals.current_sort_mode g' = mode
  /\ globals.filtered_count g' = globals.filtered_count g
  /\ globals.iFirstEntry g' = globals.iFirstEntry g
  /\ globals.iSelectedEntry g' = globals.iSelectedEntry g
  /\ globals.browse_station_filter g' = globals.browse_station_filter g
  /\ globals.search_filter g' = globals.search_filter g
  /\ globals.g_rom_catalog g' = globals.g_rom_catalog g.
Proof.
  intros Hq. cbv zeta. unfold rom_sort.
  change (globals.filtered_roms (globals.set_current_sort_mode mode g))
    with (globals.filtered_roms g).
  change (globals.filtered_count (globals.set_current_sort_mode mode g))
    with (globals.filtered_count g).
  destruct (globals.filtered_roms g) as [ptrs|] eqn:Hv.
  - destruct (0 <? globals.filtered_count g)%nat; cbn; rewrite ?Hv.
    + repeat split. rewrite Hq. now rewrite take_drop.
    + repeat split; reflexivity.
  - cbn. rewrite Hv. repeat split.
Qed.

(** ** Selecting after a change of the search text *)

Lemma filter_seq_head_least (P : nat -> bool) (n i : nat) (rest : list nat) :
  List.filter P (seq 0 n) = i :: rest ->
  forall j, In j (List.filter P (seq 0 n)) -> (i <= j)%nat.
Proof.
  intros Hl j Hj. pose proof (filter_seq_order P 0 n) as Ho.
  rewrite Hl in Ho, Hj. destruct Hj as [<-|Hj]; [lia|].
  apply list_elem_of_In, list_elem_of_lookup in Hj as (k & Hk).
  specialize (Ho 0%nat (S k) i j eq_refl Hk). lia.
Qed.

(** X11. After [rom_filter_set], when the array for the view is granted:
    if no entry passes the filters, [rom_browse_select] returns 0 with
    empty outputs and [rom_get_selected] returns NULL; otherwise the
    selected entry is the first entry of the store that passes the station
    filter and whose name contains the text (cut to 255 characters), and
    [rom_browse_select] returns 1 with its path and its name. *)
Theorem rom_filter_set_selects_first (E : env_t) (text : cstr) (g : globals_t) :
  station_ids_in_range (globals.g_rom_catalog g) ->
  int_range (globals.browse_station_filter g) ->
  alloc_ok E (view_capacity (globals.g_rom_catalog g)) = true ->
  let g' := rom_filter_set E text g in
  globals.search_filter g' = take 255 text
  /\ (globals.filtered_count g' = 0%nat ->
      (forall i, ~ shown g' i)
      /\ rom_get_selected g' = selected_null
      /\ rom_browse_select g' = Some (mk_selection 0 [] [] []))
  /\ (globals.filtered_count g' <> 0%nat ->
      exists i rom,
        rom_catalog.roms (globals.g_rom_catalog g) !! i = Some rom
        /\ shown g' i
        /\ (forall j, shown g' j -> (i <= j)%nat)
        /\ rom_get_selected g' = selected_ptr i
        /\ option_map sel_result (rom_browse_select g') = Some 1
        /\ option_map sel_path (rom_browse_select g') = Some (rom_entry.path rom)
        /\ option_map sel_label (rom_browse_select g') = Some (rom_entry.name rom)).
Proof.
  intros Hids Hf Ha. cbv zeta.
  set (g1 := globals.set_search_filter (strncpy text 255) g).
  assert (Hg' : rom_filter_set E text g
                = globals.set_cursor 0 0 (rebuild_filtered_list E g1)) by reflexivity.
  assert (Ha1 : alloc_ok E (view_capacity (globals.g_rom_catalog g1)) = true)
    by exact Ha.
  rewrite Hg'. rewrite (rebuild_filtered_list_granted E g1 Ha1). cbv zeta.
  change (globals.g_rom_catalog g1) with (globals.g_rom_catalog g).
  change (globals.browse_station_filter g1) with (globals.browse_station_filter g).
  change (globals.search_filter g1) with (take 255 text).
  set (l := List.filter
              (kept (globals.g_rom_catalog g) (globals.browse_station_filter g)
                 (take 255 text))
              (seq 0 (rom_catalog.rom_count (globals.g_rom_catalog g)))).
  set (g2 := globals.set_cursor 0 0
               (globals.set_view (Some l) (length l)
                  (view_capacity (globals.g_rom_catalog g)) g1)).
  assert (Hshown : forall i, In i l <-> shown g2 i).
  { intros i. unfold l. rewrite filter_In, in_seq.
    assert (Hk : forall i,
               (i < rom_catalog.rom_count (globals.g_rom_catalog g))%nat ->
               kept (globals.g_rom_catalog g) (globals.browse_station_filter g)
                 (take 255 text) i = true <-> shown g2 i).
    { intros i0 Hi0. apply (kept_shown g2 i0); assumption. }
    split.
    - intros [Hi Hkept]. apply Hk; [lia | exact Hkept].
    - intros Hs.
      assert (Hi : (i < rom_catalog.rom_count (globals.g_rom_catalog g))%nat)
        by (destruct Hs as (rom & (Hi & _) & _); exact Hi).
      split; [lia|]. apply Hk; assumption. }
  split; [reflexivity|]. split.
  - change (globals.filtered_count g2) with (length l). intros Hlen.
    apply length_zero_iff_nil in Hlen.
    split; [|split].
    + intros i Hs. apply Hshown in Hs. rewrite Hlen in Hs. exact Hs.
    + unfold rom_get_selected. cbn. rewrite Hlen. reflexivity.
    + unfold rom_browse_select. cbn. rewrite Hlen. reflexivity.
  - change (globals.filtered_count g2) with (length l). intros Hlen.
    destruct l as [|i rest] eqn:Hl; [contradiction|].
    assert (Hin : In i (i :: rest)) by (left; reflexivity).
    pose proof (proj1 (Hshown i) Hin) as Hsi.
    destruct Hsi as (rom & (Hi & Hrom) & Hst & Hnm).
    change (globals.g_rom_catalog g2) with (globals.g_rom_catalog g) in Hrom.
    exists i, rom. split; [exact Hrom|].
    split; [exists rom; repeat split; assumption|].
    split.
    { intros j Hj. apply Hshown in Hj.
      apply (filter_seq_head_least _ _ i rest Hl). fold l. rewrite Hl. exact Hj. }
    assert (Hsel : rom_get_selected g2 = selected_ptr i).
    { unfold rom_get_selected. cbn. reflexivity. }
    split; [exact Hsel|].
    unfold rom_browse_select. rewrite Hsel.
    change (globals.filtered_count g2) with (S (length rest)).
    change (globals.iSelectedEntry g2) with 0.
    change (globals.g_rom_catalog g2) with (globals.g_rom_catalog g).
    assert (Hge : (0 >=? Z.of_nat (S (length rest))) = false).
    { rewrite Z.geb_leb. apply Z.leb_gt. lia. }
    rewrite Hge. cbn [Nat.eqb orb]. rewrite Hrom. repeat split.
Qed.

(** ** Downloads and the image slot *)

Lemma cstr_eqb_refl (s : cstr) : cstr_eqb s s = true.
Proof. induction s as [|c s IH]; simpl; [reflexivity|]. now rewrite char_eqb_refl. Qed.

Lemma cstr_eqb_eq (a b : cstr) : cstr_eqb a b = true <-> a = b.
Proof.
  revert b. induction a as [|x a IH]; intros [|y b]; simpl;
    try (split; [discriminate | discriminate]); [tauto|].
  rewrite andb_true_iff, char_eqb_true, IH. split; [intros []|intros [=]]; subst; auto.
Qed.

Lemma download_attempts_log (c : os_call) (calls : list os_call) :
  download_attempts (calls ++ [c])
  = (download_attempts calls
     + match c with call_system _ => 1 | _ => 0 end)%nat.
Proof.
  unfold download_attempts. rewrite List.filter_app, length_app.
  destruct c; reflexivity.
Qed.

Lemma system_commands_log (c : os_call) (calls : list os_call) :
  system_commands (calls ++ [c])
  = system_commands calls
    ++ match c with call_system cmd => [cmd] | _ => [] end.
Proof.
  unfold system_commands. rewrite omap_app. destruct c; reflexivity.
Qed.

Lemma image_frees_log (c : os_call) (calls : list os_call) :
  image_frees (calls ++ [c])
  = (image_frees calls
     + match c with call_imlib_free_image => 1 | _ => 0 end)%nat.
Proof.
  unfold image_frees. rewrite List.filter_app, length_app.
  destruct c; reflexivity.
Qed.

Lemma download_file_spec (sys : sys_t) (url save_path : cstr) (w : world_t) :
  let ran := system sys (wget_command url save_path) (world.files w) in
  let r := download_file sys url save_path w in
  (fst r = 0 \/ fst r = -1)
  /\ (fst r = 0 <-> fst ran = 0 /\ snd ran save_path <> None)
  /\ (fst r = 0 <-> FileExists_in (snd r) save_path = true)
  /\ (forall p, p <> save_path -> world.files (snd r) p = snd ran p)
  /\ system_commands (world.calls (snd r))
     = system_commands (world.calls w) ++ [wget_command url save_path]
  /\ world.g_current_preview (snd r) = world.g_current_preview w.
Proof.
  cbv zeta. unfold download_file. fold (wget_command url save_path).
  set (w1 := world.log (call_system (wget_command url save_path)) w).
  change (world.files w1) with (world.files w).
  destruct (system sys (wget_command url save_path) (world.files w))
    as [ret files'] eqn:Hrun.
  cbn [fst snd].
  assert (Hfe : FileExists_in (world.set_files files' w1) save_path
                = match files' save_path with Some _ => true | None => false end)
    by reflexivity.
  rewrite Hfe.
  assert (Hfail :
    let r := (-1, world.set_files
                    (remove_file save_path
                       (world.files (world.log (call_unlink save_path)
                                       (world.set_files files' w1))))
                    (world.log (call_unlink save_path) (world.set_files files' w1)))
    in
    (fst r = 0 <-> FileExists_in (snd r) save_path = true)
    /\ (forall p, p <> save_path -> world.files (snd r) p = files' p)
    /\ system_commands (world.calls (snd r))
       = system_commands (world.calls w) ++ [wget_command url save_path]
    /\ world.g_current_preview (snd r) = world.g_current_preview w).
  { cbv zeta. cbn [fst snd]. split; [|split; [|split]].
    - unfold FileExists_in, remove_file. cbn. rewrite cstr_eqb_refl.
      split; discriminate.
    - intros p Hp. cbn. unfold remove_file.
      destruct (cstr_eqb p save_path) eqn:He; [|reflexivity].
      apply cstr_eqb_eq in He. contradiction.
    - cbn -[system_commands]. rewrite !system_commands_log.
      now rewrite app_nil_r.
    - reflexivity. }
  cbv zeta in Hfail.
  destruct (Z.eqb_spec ret 0) as [Hret|Hret];
    destruct (files' save_path) as [content|] eqn:Hf; cbn [andb].
  - cbn [fst snd]. split; [auto|].
    split; [split; [intros _; split; [auto | discriminate] | auto]|].
    split; [unfold FileExists_in; cbn; rewrite Hf; tauto|].
    split; [reflexivity|]. split; [|reflexivity].
    cbn -[system_commands]. now rewrite system_commands_log.
  - split; [auto|].
    split; [split; [discriminate | intros [_ H]; congruence]|]. exact Hfail.
  - split; [auto|].
    split; [split; [discriminate | intros [H _]; congruence]|]. exact Hfail.
  - split; [auto|].
    split; [split; [discriminate | intros [H _]; congruence]|]. exact Hfail.
Qed.

(** X12. [download_file] runs one command. It returns 0 exactly when the
    command exits with 0 and the file is there; then the file is still
    there on return. Otherwise it returns -1 and no file is left at the
    save path, while every other path is as the command left it. The
    preview slot is not touched. *)
Theorem download_file_cleans_up (sys : sys_t) (url save_path : cstr) (w : world_t) :
  let ran := system sys (wget_command url save_path) (world.files w) in
  let r := download_file sys url save_path w in
  (fst r = 0 \/ fst r = -1)
  /\ (fst r = 0 <-> fst ran = 0 /\ snd ran save_path <> None)
  /\ (fst r = 0 <-> FileExists_in (snd r) save_path = true)
  /\ (forall p, p <> save_path -> world.files (snd r) p = snd ran p)
  /\ system_commands (world.calls (snd r))
     = system_commands (world.calls w) ++ [wget_command url save_path]
  /\ world.g_current_preview (snd r) = world.g_current_preview w.
Proof. exact (download_file_spec sys url save_path w). Qed.


Lemma rom_preview_clear_spec (w : world_t) :
  world.g_current_preview (rom_preview_clear w) = rom_preview_data.zero
  /\ world.files (rom_preview_clear w) = world.files w
  /\ world.fetch_in_progress (rom_preview_clear w) = world.fetch_in_progress w
  /\ world.fetch_cancel (rom_preview_clear w) = world.fetch_cancel w
  /\ world.fetch_thread (rom_preview_clear w) = world.fetch_thread w
  /\ system_commands (world.calls (rom_preview_clear w))
     = system_commands (world.calls w)
  /\ image_frees (world.calls (rom_preview_clear w))
     = (image_frees (world.calls w)
        + match rom_preview_data.image_data (world.g_current_preview w) with
          | Some _ => 1
          | None => 0
          end)%nat.
Proof.
  unfold rom_preview_clear.
  destruct (rom_preview_data.image_data (world.g_current_preview w));
    cbn -[system_commands image_frees].
  - rewrite system_commands_log, image_frees_log, app_nil_r. repeat split.
  - repeat split. lia.
Qed.

Lemma load_first_candidate_spec (paths : list cstr) (rom : rom_entry_t) (w : world_t) :
  rom_preview_data.image_data (world.g_current_preview w) = None ->
  let r := load_first_candidate paths rom w in
  ((fst r = 0
    /\ exists img,
         world.g_current_preview (snd r)
         = rom_preview_data.mk PREVIEW_STATUS_READY (Some img) (image_width img)
             (image_height img) (take 255 (rom_entry.name rom))
             (rom_entry.station_id rom))
   \/ (fst r = -1
       /\ rom_preview_data.status (world.g_current_preview (snd r))
          = PREVIEW_STATUS_NOT_FOUND
       /\ rom_preview_data.image_data (world.g_current_preview (snd r)) = None))
  /\ world.files (snd r) = world.files w
  /\ world.fetch_in_progress (snd r) = world.fetch_in_progress w
  /\ system_commands (world.calls (snd r)) = system_commands (world.calls w)
  /\ image_frees (world.calls (snd r)) = image_frees (world.calls w).
Proof.
  revert w. induction paths as [|p paths IH]; intros w Hnone; cbv zeta.
  - cbn. split; [right; repeat split; exact Hnone | repeat split].
  - cbn [load_first_candidate].
    destruct (FileExists_in w p); [|apply IH; exact Hnone].
    unfold imlib_load_image.
    change (world.files (world.log (call_imlib_load_image p) w)) with (world.files w).
    destruct (world.files w p) as [[img|]|].
    + cbn -[system_commands image_frees].
      split; [left; split; [reflexivity | now exists img]|].
      rewrite system_commands_log, image_frees_log, app_nil_r. repeat split. lia.
    + specialize (IH (world.log (call_imlib_load_image p) w) Hnone).
      cbv zeta in IH. cbn -[system_commands image_frees load_first_candidate] in IH.
      rewrite system_commands_log, image_frees_log, app_nil_r, Nat.add_0_r in IH.
      exact IH.
    + specialize (IH (world.log (call_imlib_load_image p) w) Hnone).
      cbv zeta in IH. cbn -[system_commands image_frees load_first_candidate] in IH.
      rewrite system_commands_log, image_frees_log, app_nil_r, Nat.add_0_r in IH.
      exact IH.
Qed.

Lemma rom_preview_load_local_spec (sys : sys_t) (c : rom_catalog_t)
    (rom : rom_entry_t) (w : world_t) :
  let r := rom_preview_load_local sys c (Some rom) w in
  ((fst r = 0
    /\ exists img,
         world.g_current_preview (snd r)
         = rom_preview_data.mk PREVIEW_STATUS_READY (Some img) (image_width img)
             (image_height img) (take 255 (rom_entry.name rom))
             (rom_entry.station_id rom))
   \/ (fst r = -1
       /\ rom_preview_data.status (world.g_current_preview (snd r))
          = PREVIEW_STATUS_NOT_FOUND
       /\ rom_preview_data.image_data (world.g_current_preview (snd r)) = None))
  /\ world.files (snd r) = world.files w
  /\ world.fetch_in_progress (snd r) = world.fetch_in_progress w
  /\ system_commands (world.calls (snd r)) = system_commands (world.calls w)
  /\ image_frees (world.calls (snd r))
     = (image_frees (world.calls w)
        + match rom_preview_data.image_data (world.g_current_preview w) with
          | Some _ => 1
          | None => 0
          end)%nat.
Proof.
  cbv zeta. unfold rom_preview_load_local.
    destruct (rom_preview_clear_spec w) as (Hz & Hfiles & Hprog & _ & _ & Hsys & Hfree).
    set (w0 := rom_preview_clear w) in *.
    assert (Hnone : rom_preview_data.image_data (world.g_current_preview w0) = None)
      by (rewrite Hz; reflexivity).
    assert (Hcand : forall paths w1,
               rom_preview_data.image_data (world.g_current_preview w1) = None ->
               world.files w1 = world.files w ->
               world.fetch_in_progress w1 = world.fetch_in_progress w ->
               system_commands (world.calls w1) = system_commands (world.calls w) ->
               image_frees (world.calls w1)
               = (image_frees (world.calls w)
                  + match rom_preview_data.image_data (world.g_current_preview w) with
                    | Some _ => 1
                    | None => 0
                    end)%nat ->
               let r := load_first_candidate paths rom w1 in
               ((fst r = 0
                 /\ exists img,
                      world.g_current_preview (snd r)
                      = rom_preview_data.mk PREVIEW_STATUS_READY (Some img)
                          (image_width img) (image_height img)
                          (take 255 (rom_entry.name rom)) (rom_entry.station_id rom))
                \/ (fst r = -1
                    /\ rom_preview_data.status (world.g_current_preview (snd r))
                       = PREVIEW_STATUS_NOT_FOUND
                    /\ rom_preview_data.image_data (world.g_current_preview (snd r))
                       = None))
               /\ world.files (snd r) = world.files w
               /\ world.fetch_in_progress (snd r) = world.fetch_in_progress w
               /\ system_commands (world.calls (snd r))
                  = system_commands (world.calls w)
               /\ image_frees (world.calls (snd r))
                  = (image_frees (world.calls w)
                     + match rom_preview_data.image_data (world.g_current_preview w) with
                       | Some _ => 1
                       | None => 0
                       end)%nat).
    { intros paths w1 H1 H2 H3 H4 H5.
      destruct (load_first_candidate_spec paths rom w1 H1) as (A & B & C & D & F).
      cbv zeta. rewrite B, C, D, F. auto. }
    destruct (rom_entry.has_preview rom =? 0) eqn:Hhas.
    { apply Hcand; assumption. }
    destruct (rom_entry.preview_path rom) as [|x p] eqn:Hpath.
    { apply Hcand; assumption. }
    unfold imlib_load_image.
    change (world.files (world.log (call_imlib_load_image (x :: p)) w0))
      with (world.files w0).
    assert (Hlog : forall w1, w1 = world.log (call_imlib_load_image (x :: p)) w0 ->
              rom_preview_data.image_data (world.g_current_preview w1) = None
              /\ world.files w1 = world.files w
              /\ world.fetch_in_progress w1 = world.fetch_in_progress w
              /\ system_commands (world.calls w1) = system_commands (world.calls w)
              /\ image_frees (world.calls w1)
                 = (image_frees (world.calls w)
                    + match rom_preview_data.image_data (world.g_current_preview w) with
                      | Some _ => 1
                      | None => 0
                      end)%nat).
    { intros w1 ->. cbn -[system_commands image_frees].
      rewrite system_commands_log, image_frees_log, app_nil_r, Nat.add_0_r. auto. }
    destruct (Hlog _ eq_refl) as (L1 & L2 & L3 & L4 & L5).
    destruct (world.files w0 (x :: p)) as [[img|]|].
    - cbn [fst snd]. split; [left; split; [reflexivity | now exists img]|].
      cbn -[system_commands image_frees].
      cbn -[system_commands image_frees] in L2, L3, L4, L5. auto.
    - apply Hcand; assumption.
    - apply Hcand; assumption.
Qed.

(** X13. [rom_preview_load_local] on an entry first releases the image the
    slot holds, once, and then either returns 0 with status ready, an image
    in the slot and the entry's name (cut to 255 characters) and station
    recorded, or returns -1 with status not-found and no image. Either way
    the slot holds an image exactly when its status is ready. It changes no
    file and runs no command. On NULL it returns -1 and does nothing. *)
Theorem rom_preview_load_local_slot (sys : sys_t) (c : rom_catalog_t)
    (rom : rom_entry_t) (w : world_t) :
  let r := rom_preview_load_local sys c (Some rom) w in
  ((fst r = 0
    /\ exists img,
         world.g_current_preview (snd r)
         = rom_preview_data.mk PREVIEW_STATUS_READY (Some img) (image_width img)
             (image_height img) (take 255 (rom_entry.name rom))
             (rom_entry.station_id rom))
   \/ (fst r = -1
       /\ rom_preview_data.status (world.g_current_preview (snd r))
          = PREVIEW_STATUS_NOT_FOUND
       /\ rom_preview_data.image_data (world.g_current_preview (snd r)) = None))
  /\ image_owned_iff_ready (world.g_current_preview (snd r))
  /\ image_frees (world.calls (snd r))
     = (image_frees (world.calls w)
        + match rom_preview_data.image_data (world.g_current_preview w) with
          | Some _ => 1
          | None => 0
          end)%nat
  /\ world.files (snd r) = world.files w
  /\ world.fetch_in_progress (snd r) = world.fetch_in_progress w
  /\ system_commands (world.calls (snd r)) = system_commands (world.calls w)
  /\ rom_preview_load_local sys c None w = (-1, w).
Proof.
  cbv zeta.
  destruct (rom_preview_load_local_spec sys c rom w)
    as (Hres & Hfiles & Hprog & Hsys & Hfree).
  cbv zeta in Hres, Hfiles, Hprog, Hsys, Hfree.
  split; [exact Hres|]. split.
  { unfold image_owned_iff_ready.
    destruct Hres as [(_ & img & ->) | (_ & Hst & Himg)].
    - cbn. split; [reflexivity | discriminate].
    - rewrite Hst, Himg. split; [congruence | discriminate]. }
  repeat split; assumption.
Qed.

(** ** Fetching online *)

Lemma fetch_categories_spec (sys : sys_t) (c : rom_catalog_t)
    (categories : list cstr) (lib enc save_path : cstr) (rom : rom_entry_t)
    (w : world_t) :
  let r := fetch_categories sys c categories lib enc save_path rom w in
  exists k,
    (k <= length categories)%nat
    /\ (categories <> [] -> (1 <= k)%nat)
    /\ system_commands (world.calls (snd r))
       = system_commands (world.calls w)
         ++ attempts_of lib enc save_path (take k categories)
    /\ (fst r = 0 ->
        rom_preview_data.status (world.g_current_preview (snd r))
        = PREVIEW_STATUS_READY
        /\ rom_preview_data.image_data (world.g_current_preview (snd r)) <> None
        /\ FileExists_in (snd r) save_path = true)
    /\ (fst r <> 0 ->
        fst r = -1
        /\ rom_preview_data.status (world.g_current_preview (snd r))
           = PREVIEW_STATUS_NOT_FOUND)
    /\ ((forall cmd fs, fst (system sys cmd fs) <> 0) ->
        k = length categories /\ fst r = -1
        /\ (categories <> [] -> FileExists_in (snd r) save_path = false))
    /\ world.fetch_in_progress (snd r) = world.fetch_in_progress w.
Proof.
  revert w. induction categories as [|cat cats IH]; intros w; cbv zeta.
  - exists 0%nat. cbn -[system_commands]. rewrite app_nil_r.
    repeat split; try lia; try congruence; try discriminate.
  - cbn [fetch_categories].
    destruct (download_file_spec sys (thumbnail_url lib cat enc) save_path w)
      as (Hres & Hran & Hex & _ & Hsys & Hslot).
    cbv zeta in Hres, Hran, Hex, Hsys, Hslot.
    assert (Hprog : world.fetch_in_progress
                      (snd (download_file sys (thumbnail_url lib cat enc) save_path w))
                    = world.fetch_in_progress w).
    { unfold download_file.
      destruct (system sys _ _) as [ret fs]. now break_match. }
    destruct (download_file sys (thumbnail_url lib cat enc) save_path w)
      as [r1 w1] eqn:Hd.
    cbn [fst snd] in *.
    destruct (Z.eqb_spec r1 0) as [Hr|Hr]; cbv iota.
    + destruct (rom_preview_load_local_spec sys c rom w1)
        as (Hload & Hfiles & Hp & Hsys2 & _).
      cbv zeta in Hload, Hfiles, Hp, Hsys2.
      exists 1%nat. split; [cbn; lia|]. split; [lia|].
      split; [rewrite Hsys2, Hsys; reflexivity|].
      split.
      { intros H0. destruct Hload as [(_ & img & Hslot') | (Hm & _)]; [|lia].
        rewrite Hslot'. cbn [rom_preview_data.status rom_preview_data.image_data].
        split; [reflexivity|]. split; [discriminate|].
        unfold FileExists_in. rewrite Hfiles. apply Hex. exact Hr. }
      split.
      { intros Hne. destruct Hload as [(H0 & _) | (Hm & Hst & _)]; [contradiction|].
        split; assumption. }
      split; [|congruence].
      intros Hall. exfalso. apply Hran in Hr as [Hzero _].
      exact (Hall _ _ Hzero).
    + destruct (IH w1) as (k & Hk & Hk1 & Hsys2 & Hok & Hbad & Hall & Hp).
      cbv zeta in Hsys2, Hok, Hbad, Hall, Hp.
      exists (S k). split; [cbn; lia|]. split; [lia|].
      split.
      { rewrite Hsys2, Hsys, <- app_assoc. reflexivity. }
      split; [exact Hok|]. split; [exact Hbad|]. split; [|congruence].
      intros Hfail. destruct (Hall Hfail) as (Hk' & Hm & Hfile).
      split; [cbn; lia|]. split; [exact Hm|]. intros _.
      destruct cats as [|cat' cats'].
      * cbn. assert (Hno : FileExists_in w1 save_path = false).
        { destruct (FileExists_in w1 save_path) eqn:He; [|reflexivity].
          exfalso. apply Hr, Hex. reflexivity. }
        unfold FileExists_in in *. exact Hno.
      * apply Hfile. discriminate.
Qed.


(** X15. Unless the cache directory name is too long for its buffer, an
    entry that was fetched online with success is a cache hit
    afterwards. *)
Theorem fetched_preview_is_cached (sys : sys_t) (c : rom_catalog_t)
    (rom : rom_entry_t) (station : rom_station_t) (w : world_t) :
  rom_station_get c (rom_entry.station_id rom) = Some station ->
  (length (full_games_dir sys ++ lit "/" ++ PREVIEW_CACHE_DIR ++ lit "/"
           ++ rom_station.short_name station) <= 511)%nat ->
  fst (rom_preview_fetch_online sys c (Some rom) w) = 0 ->
  rom_preview_cache_exists sys c (Some rom)
    (snd (rom_preview_fetch_online sys c (Some rom) w)) = true.
Proof.
  intros Hst Hlen Hok.
  assert (Hpath : fetch_save_path sys station rom = cache_path sys station rom).
  { unfold fetch_save_path, cache_path. f_equal.
    unfold snprintf at 1. rewrite take_ge by (simpl Nat.sub; lia).
    now rewrite <- !app_assoc. }
  unfold rom_preview_cache_exists. rewrite Hst, <- Hpath.
  revert Hok. unfold rom_preview_fetch_online. rewrite Hst.
  unfold rom_preview_check_internet.
  destruct (getaddrinfo sys (lit "github.com") (lit "443") =? 0);
    cbn [Z.eqb fst snd]; [|discriminate].
  match goal with
  | |- context [fetch_categories sys c ?cats ?lib ?enc ?sp rom ?w0] =>
      destruct (fetch_categories_spec sys c cats lib enc sp rom w0)
        as (k & _ & _ & _ & Hgood & _)
  end.
  cbv zeta in Hgood. intros H0. apply Hgood in H0 as (_ & _ & Hfile).
  exact Hfile.
Qed.

(** ** The background fetch *)

(** X16. When the thread can be created, [rom_preview_fetch_async] returns
    0 with status loading, and [rom_preview_fetch_poll] answers 0 until the
    thread body has run and 1 from then on. *)
Theorem fetch_async_in_progress_until_run (sys sys' : sys_t) (c c' : rom_catalog_t)
    (rom : option rom_entry_t) (w : world_t) :
  pthread_create sys = 0 ->
  let started := snd (rom_preview_fetch_async sys c rom w) in
  fst (rom_preview_fetch_async sys c rom w) = 0
  /\ rom_preview_get_status started = PREVIEW_STATUS_LOADING
  /\ world.fetch_thread started = Some rom
  /\ rom_preview_fetch_poll started = 0
  /\ rom_preview_fetch_poll (run_fetch_thread sys' c' started) = 1.
Proof.
  intros Hok. cbv zeta. unfold rom_preview_fetch_async. rewrite Hok.
  cbn [Z.eqb negb fst snd]. repeat split.
Qed.

(** X17. A fetch whose thread has not begun when the next
    [rom_preview_fetch_async] is issued is cancelled without effect: the
    second call joins it and creates its own thread, and no probe, no
    download and no change of a file comes from the first. *)
Theorem fetch_async_supersedes_pending (sys : sys_t) (c : rom_catalog_t)
    (first second : option rom_entry_t) (w : world_t) :
  world.fetch_thread w = Some first ->
  world.fetch_in_progress w <> 0 ->
  pthread_create sys = 0 ->
  let r := rom_preview_fetch_async sys c second w in
  fst r = 0
  /\ world.calls (snd r) = world.calls w ++ [call_pthread_join; call_pthread_create]
  /\ world.files (snd r) = world.files w
  /\ world.fetch_thread (snd r) = Some second
  /\ rom_preview_get_status (snd r) = PREVIEW_STATUS_LOADING
  /\ rom_preview_fetch_poll (snd r) = 0.
Proof.
  intros Hth Hprog Hok. cbv zeta. unfold rom_preview_fetch_async.
  rewrite (proj2 (Z.eqb_neq _ _) Hprog), Hok. cbn [negb Z.eqb fst snd].
  unfold pthread_join, run_fetch_thread.
  cbn [world.fetch_thread world.log world.set_fetch_cancel]. rewrite Hth.
  unfold fetch_thread_func.
  cbn [world.fetch_cancel world.set_fetch_thread world.log world.set_fetch_cancel].
  cbn [Z.eqb]. cbn. rewrite <- app_assoc. repeat split.
Qed.

(** ** Batch download *)

Lemma rom_get_by_index_live (g : globals_t) (i : nat) :
  rom_get_by_index g (Z.of_nat i) = live_roms (globals.g_rom_catalog g) !! i.
Proof.
  unfold rom_get_by_index, rom_get_count, live_roms.
  destruct (Z.ltb_spec (Z.of_nat i) 0) as [?|_]; [lia|]. cbn [orb].
  rewrite Nat2Z.id.
  destruct (Z.geb_spec (Z.of_nat i)
              (Z.of_nat (rom_catalog.rom_count (globals.g_rom_catalog g)))).
  - symmetry. apply lookup_ge_None. rewrite length_take. lia.
  - rewrite lookup_take_lt by lia. reflexivity.
Qed.

Lemma batch_cancelled_stays (sys : sys_t) (g : globals_t) (station_id : Z)
    (cb : option preview_progress_cb) (total : Z) (idxs : list nat) (b : batch_t) :
  batch_cancel b <> 0 ->
  fold_left (batch_step sys g station_id cb total) idxs b = b.
Proof.
  intros Hc. induction idxs as [|i idxs IH]; [reflexivity|].
  cbn [fold_left]. unfold batch_step at 2.
  rewrite (proj2 (Z.eqb_neq _ _) Hc). exact IH.
Qed.

(** What one round does for an entry of the station. *)
Lemma batch_step_entry (sys : sys_t) (g : globals_t) (station_id : Z)
    (cb : option preview_progress_cb) (total : Z) (b : batch_t) (i : nat)
    (rom : rom_entry_t) :
  batch_cancel b = 0 ->
  live_roms (globals.g_rom_catalog g) !! i = Some rom ->
  rom_entry.station_id rom = station_id ->
  let b' := batch_step sys g station_id cb total b i in
  batch_current b' = batch_current b + 1
  /\ batch_reported b'
     = batch_reported b
       ++ match cb with
          | Some _ => [(batch_current b + 1, total, rom_entry.name rom)]
          | None => []
          end
  /\ (batch_downloaded b' = batch_downloaded b
      \/ batch_downloaded b' = batch_downloaded b + 1)
  /\ ((forall x y z, match cb with Some f => f x y z = false | None => True end) ->
      batch_cancel b' = 0).
Proof.
  intros Hc Hrom Hsid. cbv zeta. unfold batch_step.
  rewrite Hc, rom_get_by_index_live, Hrom. cbn [Z.eqb negb].
  rewrite (proj2 (Z.eqb_eq _ _) Hsid). cbn [negb].
  cbn [batch_world batch_cancel batch_current batch_downloaded batch_reported].
  destruct (rom_preview_cache_exists sys (globals.g_rom_catalog g) (Some rom)
              (batch_world b)).
  - unfold report_progress. destruct cb as [f|]; cbn.
    + destruct (f (batch_current b + 1) total (rom_entry.name rom)) eqn:Hf; cbn.
      * repeat split; auto. intros H. specialize (H (batch_current b + 1) total
                                                    (rom_entry.name rom)). congruence.
      * repeat split; auto.
    + rewrite app_nil_r. repeat split; auto.
  - destruct (rom_preview_fetch_online sys (globals.g_rom_catalog g) (Some rom)
                (batch_world b)) as [r w'].
    unfold report_progress. destruct cb as [f|]; cbn.
    + destruct (f (batch_current b + 1) total (rom_entry.name rom)) eqn:Hf; cbn.
      * repeat split; auto; [destruct (r =? 0); auto|].
        intros H. specialize (H (batch_current b + 1) total (rom_entry.name rom)).
        congruence.
      * repeat split; auto. destruct (r =? 0); auto.
    + rewrite app_nil_r. repeat split; auto. destruct (r =? 0); auto.
Qed.

Lemma batch_step_other (sys : sys_t) (g : globals_t) (station_id : Z)
    (cb : option preview_progress_cb) (total : Z) (b : batch_t) (i : nat) :
  match live_roms (globals.g_rom_catalog g) !! i with
  | Some rom => rom_entry.station_id rom <> station_id
  | None => True
  end ->
  batch_step sys g station_id cb total b i = b.
Proof.
  intros H. unfold batch_step. destruct (negb (batch_cancel b =? 0)); [reflexivity|].
  rewrite rom_get_by_index_live.
  destruct (live_roms (globals.g_rom_catalog g) !! i) as [rom|]; [|reflexivity].
  now rewrite (proj2 (Z.eqb_neq _ _) H).
Qed.

Lemma batch_loop_spec (sys : sys_t) (g : globals_t) (station_id : Z)
    (cb : option preview_progress_cb) (total : Z) (n k : nat) (b : batch_t) :
  batch_cancel b = 0 ->
  let entries :=
    filter (of_station station_id)
      (take n (drop k (live_roms (globals.g_rom_catalog g)))) in
  let b' := fold_left (batch_step sys g station_id cb total) (seq k n) b in
  exists m,
    (m <= length entries)%nat
    /\ batch_current b' = batch_current b + Z.of_nat m
    /\ batch_reported b'
       = batch_reported b
         ++ match cb with
            | Some _ => progress_reports (batch_current b) total (take m entries)
            | None => []
            end
    /\ batch_downloaded b <= batch_downloaded b' <= batch_downloaded b + Z.of_nat m
    /\ ((forall x y z, match cb with Some f => f x y z = false | None => True end) ->
        m = length entries).
Proof.
  revert k b. induction n as [|n IH]; intros k b Hc; cbv zeta.
  - exists 0%nat. cbn. rewrite Z.add_0_r. destruct cb; rewrite app_nil_r;
      repeat split; lia.
  - cbn [seq fold_left].
    destruct (live_roms (globals.g_rom_catalog g) !! k) as [rom|] eqn:Hk.
    + rewrite (drop_S _ _ _ Hk). cbn [take].
      destruct (decide (of_station station_id rom)) as [Hs|Hs].
      * rewrite filter_cons_True by exact Hs.
        destruct (batch_step_entry sys g station_id cb total b k rom Hc Hk Hs)
          as (Hcur & Hrep & Hdl & Hnc).
        cbv zeta in Hcur, Hrep, Hdl, Hnc.
        set (b1 := batch_step sys g station_id cb total b k) in *.
        destruct (Z.eq_dec (batch_cancel b1) 0) as [Hc1|Hc1].
        -- destruct (IH (S k) b1 Hc1) as (m & Hm & Hcur' & Hrep' & Hdl' & Hall).
           cbv zeta in Hm, Hcur', Hrep', Hdl', Hall.
           exists (S m). split; [cbn [length]; lia|].
           split; [lia|]. split.
           { rewrite Hrep', Hrep, <- app_assoc. f_equal.
             destruct cb; [|reflexivity].
             cbn [take progress_reports app]. rewrite Hcur. reflexivity. }
           split; [lia|].
           intros Hq. cbn [length]. f_equal. apply Hall. exact Hq.
        -- rewrite batch_cancelled_stays by exact Hc1.
           exists 1%nat. split; [cbn [length]; lia|].
           split; [lia|]. split.
           { rewrite Hrep. destruct cb; reflexivity. }
           split; [lia|].
           intros Hq. exfalso. apply Hc1. apply Hnc. exact Hq.
      * rewrite filter_cons_False by exact Hs.
        rewrite batch_step_other by (rewrite Hk; exact Hs).
        apply (IH (S k) b Hc).
    + rewrite batch_step_other by (rewrite Hk; exact I).
      rewrite drop_ge by (apply lookup_ge_None; exact Hk).
      destruct (IH (S k) b Hc) as (m & Hm & Hrest).
      rewrite drop_ge in Hm, Hrest
        by (apply lookup_ge_None in Hk; lia).
      rewrite take_nil in *. exists m. split; [exact Hm | exact Hrest].
Qed.

(** X18. For a station that is found, [rom_preview_batch_fetch] goes
    through the entries of that station in store order and reports each
    one it has dealt with, numbered 1, 2, 3, ... with the station's entry
    count as total; it stops early only after a report during which
    [rom_preview_batch_cancel] was called. The number it returns is not
    negative and not above the number of entries dealt with. With no
    callback nothing is reported. For a station that is not found it
    returns 0 and does nothing. *)
Theorem rom_preview_batch_fetch_reports (sys : sys_t) (g : globals_t)
    (station_id : Z) (cb : option preview_progress_cb) (w : world_t) :
  let c := globals.g_rom_catalog g in
  let entries := filter (of_station station_id) (live_roms c) in
  let r := rom_preview_batch_fetch sys g station_id cb w in
  (rom_station_get c station_id = None ->
   fst r = 0 /\ batch_world (snd r) = w /\ batch_reported (snd r) = [])
  /\ (rom_station_get c station_id <> None ->
      exists m,
        (m <= length entries)%nat
        /\ batch_reported (snd r)
           = match cb with
             | Some _ =>
                 progress_reports 0 (rom_get_count_for_station c station_id)
                   (take m entries)
             | None => []
             end
        /\ 0 <= fst r <= Z.of_nat m
        /\ ((forall x y z,
               match cb with Some f => f x y z = false | None => True end) ->
            m = length entries)).
Proof.
  cbv zeta. unfold rom_preview_batch_fetch. split.
  - intros ->. repeat split.
  - intros Hst.
    destruct (rom_station_get (globals.g_rom_catalog g) station_id) as [station|];
      [|congruence].
    cbn [fst snd].
    destruct (batch_loop_spec sys g station_id cb
                (rom_get_count_for_station (globals.g_rom_catalog g) station_id)
                (rom_catalog.rom_count (globals.g_rom_catalog g)) 0
                (mk_batch w 0 0 0 []) eq_refl)
      as (m & Hm & _ & Hrep & Hdl & Hall).
    cbv zeta in Hm, Hrep, Hdl, Hall. rewrite drop_0 in Hm, Hrep, Hall.
    assert (Hlive : take (rom_catalog.rom_count (globals.g_rom_catalog g))
                      (live_roms (globals.g_rom_catalog g))
                    = live_roms (globals.g_rom_catalog g)).
    { unfold live_roms. rewrite take_take. f_equal. lia. }
    rewrite Hlive in Hm, Hrep, Hall.
    exists m. split; [exact Hm|]. split; [exact Hrep|].
    split; [cbn in Hdl; lia | exact Hall].
Qed.

(** ** Scanning *)

Lemma station_set_rom_count_twice (a b : Z) (s : rom_station_t) :
  rom_station.set_rom_count a (rom_station.set_rom_count b s)
  = rom_station.set_rom_count a s.
Proof. reflexivity. Qed.

Lemma station_set_rom_count_same (s : rom_station_t) :
  rom_station.set_rom_count (rom_station.rom_count s) s = s.
Proof. destruct s. reflexivity. Qed.

Lemma u32_succ (k : nat) : u32 (u32 (Z.of_nat k) + 1) = u32 (Z.of_nat (S k)).
Proof.
  unfold u32. rewrite Zplus_mod_idemp_l. f_equal. lia.
Qed.

Lemma scan_rel_start (slot : nat) (station : rom_station_t) (g0 : globals_t) :
  rom_catalog.stations (globals.g_rom_catalog g0) !! slot = Some station ->
  rom_station.rom_count station = 0 ->
  store_ok (globals.g_rom_catalog g0) ->
  scan_rel slot station g0 g0 [].
Proof.
  intros Hs H0 Hok. unfold scan_rel. cbv zeta.
  split; [destruct g0; reflexivity|]. split.
  { cbn [length]. change (u32 (Z.of_nat 0)) with 0. rewrite <- H0.
    rewrite station_set_rom_count_same. symmetry. now apply list_insert_id. }
  rewrite app_nil_r. repeat split; try assumption; try apply Hok. constructor.
Qed.

(** [add_rom_entry] appends at most one entry, of the station in the
    slot. *)
Lemma add_rom_entry_rel (E : env_t) (slot : nat) (station : rom_station_t)
    (path filename : cstr) (size date : Z) (g0 g : globals_t)
    (added : list rom_entry_t) :
  (slot < length (rom_catalog.stations (globals.g_rom_catalog g0)))%nat ->
  scan_rel slot station g0 g added ->
  exists added',
    scan_rel slot station g0 (snd (add_rom_entry E slot path filename size date g))
      added'.
Proof.
  intros Hslot (Hg & Hst & Hsc & Hin & Hsg & Hsp & Hss & Hlive & Hok & Hall).
  unfold add_rom_entry.
  set (c := globals.g_rom_catalog g) in *.
  destruct Hok as (Hcap & Hcnt & Hlen).
  set (grown := if (rom_catalog.rom_capacity c <=? rom_catalog.rom_count c)%nat
                then _ else Some c).
  assert (Hgrown : grown = None
                   \/ exists c1, grown = Some c1
                      /\ rom_catalog.stations c1 = rom_catalog.stations c
                      /\ rom_catalog.station_count c1 = rom_catalog.station_count c
                      /\ rom_catalog.initialized c1 = rom_catalog.initialized c
                      /\ rom_catalog.scanning c1 = rom_catalog.scanning c
                      /\ rom_catalog.scan_progress c1 = rom_catalog.scan_progress c
                      /\ rom_catalog.scan_status c1 = rom_catalog.scan_status c
                      /\ rom_catalog.rom_count c1 = rom_catalog.rom_count c
                      /\ take (rom_catalog.rom_count c) (rom_catalog.roms c1)
                         = take (rom_catalog.rom_count c) (rom_catalog.roms c)
                      /\ (rom_catalog.rom_count c < rom_catalog.rom_capacity c1)%nat
                      /\ (rom_catalog.rom_capacity c1
                          <= length (rom_catalog.roms c1))%nat).
  { subst grown.
    destruct (Nat.leb_spec (rom_catalog.rom_capacity c) (rom_catalog.rom_count c)).
    - destruct (alloc_ok E (rom_catalog.rom_capacity c * 2)); [|left; reflexivity].
      right. eexists. split; [reflexivity|]. cbn.
      repeat split; try reflexivity.
      + rewrite take_app_le by lia. reflexivity.
      + lia.
      + rewrite length_app, length_replicate. lia.
    - right. exists c. repeat split; try reflexivity; lia. }
  destruct Hgrown as [-> | (c1 & -> & G1 & G2 & G3 & G4 & G5 & G6 & G7 & G8 & G9 & G10)].
  { exists added. cbn [snd]. repeat split; assumption. }
  assert (Hlook : rom_catalog.stations c1 !! slot
                  = Some (rom_station.set_rom_count
                            (u32 (Z.of_nat (length added))) station)).
  { rewrite G1, Hst. apply list_lookup_insert_eq. exact Hslot. }
  rewrite Hlook. cbn [default].
  match goal with
  | |- context [rom_entry.mk ?a ?b ?cc ?d ?e ?f] =>
      set (mkrom := rom_entry.mk a b cc d e f)
  end.
  match goal with
  | |- context [let '(has_preview, preview_path) := ?x in _] =>
      destruct x as [has_preview preview_path]
  end.
  set (rom := mkrom has_preview preview_path).
  exists (added ++ [rom]). cbn [snd]. unfold scan_rel. cbv zeta.
  cbn [globals.g_rom_catalog globals.set_g_rom_catalog
       rom_catalog.stations rom_catalog.station_count rom_catalog.initialized
       rom_catalog.scanning rom_catalog.scan_progress rom_catalog.scan_status
       rom_catalog.set_stations rom_catalog.set_rom_count rom_catalog.set_roms
       rom_catalog.roms rom_catalog.rom_count rom_catalog.rom_capacity].
  split; [rewrite Hg; reflexivity|].
  split.
  { rewrite G1, Hst, list_insert_insert_eq. f_equal.
    cbn [rom_station.rom_count rom_station.set_rom_count].
    rewrite length_app. cbn [length]. rewrite Nat.add_1_r, <- u32_succ.
    reflexivity. }
  split; [congruence|]. split; [congruence|]. split; [congruence|].
  split; [congruence|]. split; [congruence|].
  split.
  { unfold live_roms.
    cbn [rom_catalog.roms rom_catalog.rom_count rom_catalog.set_stations
         rom_catalog.set_rom_count rom_catalog.set_roms].
    rewrite G7.
    rewrite (take_S_r _ _ rom) by (apply list_lookup_insert_eq; lia).
    rewrite take_insert_ge by lia. rewrite G8.
    unfold live_roms in Hlive. fold c in Hlive. rewrite Hlive.
    now rewrite app_assoc. }
  split.
  { unfold store_ok.
    cbn [rom_catalog.roms rom_catalog.rom_count rom_catalog.rom_capacity
         rom_catalog.set_stations rom_catalog.set_rom_count rom_catalog.set_roms].
    rewrite length_insert, G7. lia. }
  apply Forall_app. split; [exact Hall|]. constructor; [|constructor].
  reflexivity.
Qed.

Lemma fold_left_keeps_scan_rel {A : Type} (slot : nat) (station : rom_station_t)
    (g0 : globals_t) (step : globals_t -> A -> globals_t) (items : list A) :
  (forall x, keeps_scan_rel slot station g0 (fun g => step g x)) ->
  keeps_scan_rel slot station g0 (fun g => fold_left step items g).
Proof.
  intros Hstep. induction items as [|x items IH]; intros g added Hrel.
  - now exists added.
  - cbn [fold_left]. destruct (Hstep x g added Hrel) as (added' & Hrel').
    exact (IH _ _ Hrel').
Qed.

Lemma scan_dir_entry_keeps (E : env_t) (slot : nat) (station : rom_station_t)
    (g0 : globals_t) (dir_path : cstr) (recurse : cstr -> globals_t -> globals_t)
    (d_name : cstr) :
  (slot < length (rom_catalog.stations (globals.g_rom_catalog g0)))%nat ->
  (forall p, keeps_scan_rel slot station g0 (recurse p)) ->
  keeps_scan_rel slot station g0
    (fun g => scan_dir_entry E slot dir_path recurse g d_name).
Proof.
  intros Hslot Hrec g added Hrel. unfold scan_dir_entry.
  destruct (negb (globals.scan_cancel_flag g =? 0)); [now exists added|].
  destruct (match d_name with c :: _ => char_eqb c dot_char | [] => false end);
    [now exists added|].
  destruct (stat E _) as [st|]; [|now exists added].
  destruct (st_mode st).
  - apply (Hrec _ g added Hrel).
  - destruct (negb (match_extension d_name _ =? 0)); [|now exists added].
    eapply add_rom_entry_rel; eassumption.
  - now exists added.
Qed.

Lemma scan_directory_recursive_keeps (levels : nat) (E : env_t) (slot : nat)
    (station : rom_station_t) (g0 : globals_t) (dir_path : cstr) :
  (slot < length (rom_catalog.stations (globals.g_rom_catalog g0)))%nat ->
  keeps_scan_rel slot station g0 (scan_directory_recursive levels E slot dir_path).
Proof.
  intros Hslot. revert dir_path.
  induction levels as [|levels IH]; intros dir_path g added Hrel.
  - now exists added.
  - cbn [scan_directory_recursive].
    destruct (negb (globals.scan_cancel_flag g =? 0)); [now exists added|].
    destruct (opendir E dir_path) as [names|]; [|now exists added].
    apply (fold_left_keeps_scan_rel slot station g0
             (scan_dir_entry E slot dir_path
                (scan_directory_recursive levels E slot)) names)
      with (added := added); [|exact Hrel].
    intros d_name. apply scan_dir_entry_keeps; [exact Hslot | exact IH].
Qed.

Lemma scan_storage_dir_keeps (E : env_t) (slot : nat) (station : rom_station_t)
    (g0 : globals_t) (rom_path storage_dir : cstr) :
  (slot < length (rom_catalog.stations (globals.g_rom_catalog g0)))%nat ->
  keeps_scan_rel slot station g0
    (fun g => scan_storage_dir E slot rom_path g storage_dir).
Proof.
  intros Hslot g added Hrel. unfold scan_storage_dir.
  destruct (negb (globals.scan_cancel_flag g =? 0)); [now exists added|].
  destruct (PathIsDir E _); [|now exists added].
  eapply scan_directory_recursive_keeps; eassumption.
Qed.

(** The compaction changes the entries and their count and nothing
    else. *)
Lemma purge_station_roms_frame (station_id : Z) (c : rom_catalog_t) :
  (rom_catalog.rom_count c <= length (rom_catalog.roms c))%nat ->
  let c' := purge_station_roms station_id c in
  live_roms c' = filter (other_station station_id) (live_roms c)
  /\ (rom_catalog.rom_count c' <= rom_catalog.rom_count c)%nat
  /\ length (rom_catalog.roms c') = length (rom_catalog.roms c)
  /\ rom_catalog.rom_capacity c' = rom_catalog.rom_capacity c
  /\ rom_catalog.stations c' = rom_catalog.stations c
  /\ rom_catalog.station_count c' = rom_catalog.station_count c
  /\ rom_catalog.initialized c' = rom_catalog.initialized c
  /\ rom_catalog.scanning c' = rom_catalog.scanning c
  /\ rom_catalog.scan_progress c' = rom_catalog.scan_progress c
  /\ rom_catalog.scan_status c' = rom_catalog.scan_status c.
Proof.
  intros Hwf. cbv zeta.
  destruct (purge_station_roms_live station_id c Hwf) as (Hlive & _).
  split; [exact Hlive|].
  unfold purge_station_roms.
  destruct (purge_loop station_id (rom_catalog.rom_count c) 0 0 (rom_catalog.roms c))
    as [roms' w'] eqn:Hrun.
  destruct (purge_loop_compacts station_id (rom_catalog.rom_count c) 0 0
              (rom_catalog.roms c) (Nat.le_refl _) Hwf _ _ Hrun)
    as (_ & Hl & Hb).
  cbn. repeat split; [lia | exact Hl].
Qed.

Lemma rom_station_get_slot (c : rom_catalog_t) (station_id : Z)
    (station : rom_station_t) :
  rom_station_get c station_id = Some station ->
  station_id < ROM_MAX_STATIONS
  /\ rom_catalog.stations c !! Z.to_nat station_id = Some station
  /\ rom_station.enabled station <> 0.
Proof.
  unfold rom_station_get.
  destruct (Z.geb_spec station_id ROM_MAX_STATIONS) as [?|Hlt]; [discriminate|].
  destruct (rom_catalog.stations c !! Z.to_nat station_id) as [s|]; [|discriminate].
  destruct (Z.eqb_spec (rom_station.enabled s) 0) as [?|He]; [discriminate|].
  intros [= <-]. repeat split; [lia | exact He].
Qed.

Lemma rebuild_filtered_list_frame (E : env_t) (g : globals_t) :
  globals.scan_cancel_flag (rebuild_filtered_list E g) = globals.scan_cancel_flag g
  /\ globals.browse_station_filter (rebuild_filtered_list E g)
     = globals.browse_station_filter g
  /\ globals.search_filter (rebuild_filtered_list E g) = globals.search_filter g.
Proof.
  unfold rebuild_filtered_list.
  destruct (alloc_ok E _); [|repeat split; reflexivity].
  destruct (rebuild_loop _ _ _ _ _ _ _). repeat split; reflexivity.
Qed.

Lemma rom_scan_station_spec (E : env_t) (station_id : Z) (g : globals_t)
    (station : rom_station_t) :
  store_ok (globals.g_rom_catalog g) ->
  rom_station_get (globals.g_rom_catalog g) station_id = Some station ->
  let c := globals.g_rom_catalog g in
  let r := rom_scan_station E station_id g in
  let c' := globals.g_rom_catalog (snd r) in
  exists added,
    live_roms c' = filter (other_station station_id) (live_roms c) ++ added
    /\ Forall (of_station (rom_station.id station)) added
    /\ fst r = int32 (u32 (Z.of_nat (length added)))
    /\ rom_catalog.stations c'
       = <[Z.to_nat station_id :=
             rom_station.set_rom_count (u32 (Z.of_nat (length added))) station]>
           (rom_catalog.stations c)
    /\ rom_catalog.station_count c' = rom_catalog.station_count c
    /\ rom_catalog.scan_progress c' = rom_catalog.scan_progress c
    /\ rom_catalog.scanning c' = 0
    /\ store_ok c'
    /\ globals.scan_cancel_flag (snd r) = 0
    /\ globals.browse_station_filter (snd r) = globals.browse_station_filter g
    /\ globals.search_filter (snd r) = globals.search_filter g
    /\ globals.iFirstEntry (snd r) = globals.iFirstEntry g
    /\ globals.iSelectedEntry (snd r) = globals.iSelectedEntry g.
Proof.
  intros Hok Hget. cbv zeta.
  destruct (rom_station_get_slot _ _ _ Hget) as (Hlt & Hslot & Hen).
  unfold rom_scan_station. rewrite Hget.
  set (slot := Z.to_nat station_id) in *.
  set (station0 := rom_station.set_rom_count 0 station).
  match goal with
  | |- context [fold_left _ _ ?x] => set (g1 := x)
  end.
  destruct Hok as (Hcap & Hcnt & Hlen).
  set (cA := rom_catalog.set_scan_status
               (snprintf 256 (lit "Scanning "
                              ++ rom_station.short_name station ++ lit "..."))
               (rom_catalog.set_scanning 1 (globals.g_rom_catalog g))).
  destruct (purge_station_roms_frame station_id cA)
    as (Hlive & Hcnt' & Hlen' & Hcap' & Hst' & Hsc' & Hin' & Hsg' & Hsp' & Hss');
    [exact (Nat.le_trans _ _ _ Hcnt Hlen)|].
  change (live_roms cA) with (live_roms (globals.g_rom_catalog g)) in Hlive.
  change (rom_catalog.rom_count cA)
    with (rom_catalog.rom_count (globals.g_rom_catalog g)) in Hcnt'.
  change (length (rom_catalog.roms cA))
    with (length (rom_catalog.roms (globals.g_rom_catalog g))) in Hlen'.
  change (rom_catalog.rom_capacity cA)
    with (rom_catalog.rom_capacity (globals.g_rom_catalog g)) in Hcap'.
  change (rom_catalog.stations cA)
    with (rom_catalog.stations (globals.g_rom_catalog g)) in Hst'.
  change (rom_catalog.station_count cA)
    with (rom_catalog.station_count (globals.g_rom_catalog g)) in Hsc'.
  change (rom_catalog.scan_progress cA)
    with (rom_catalog.scan_progress (globals.g_rom_catalog g)) in Hsp'.
  assert (Hbound : (slot < length (rom_catalog.stations (globals.g_rom_catalog g)))%nat)
    by (eapply lookup_lt_Some; exact Hslot).
  assert (Hc1 : globals.g_rom_catalog g1
                = rom_catalog.set_stations
                    (<[slot := station0]>
                       (rom_catalog.stations (purge_station_roms station_id cA)))
                    (purge_station_roms station_id cA)) by reflexivity.
  assert (Hg1 : globals.scan_cancel_flag g1 = 0
                /\ globals.browse_station_filter g1 = globals.browse_station_filter g
                /\ globals.search_filter g1 = globals.search_filter g
                /\ globals.iFirstEntry g1 = globals.iFirstEntry g
                /\ globals.iSelectedEntry g1 = globals.iSelectedEntry g)
    by (repeat split; reflexivity).
  assert (Hst1 : rom_catalog.stations (globals.g_rom_catalog g1)
                 = <[slot := station0]>
                     (rom_catalog.stations (globals.g_rom_catalog g)))
    by (rewrite Hc1; cbn; now rewrite Hst').
  assert (Hrel0 : scan_rel slot station0 g1 g1 []).
  { apply scan_rel_start.
    - rewrite Hst1. now apply list_lookup_insert_eq.
    - reflexivity.
    - rewrite Hc1. unfold store_ok. cbn. lia. }
  assert (Hbound1 : (slot < length (rom_catalog.stations (globals.g_rom_catalog g1)))%nat)
    by (rewrite Hst1, length_insert; exact Hbound).
  destruct (fold_left_keeps_scan_rel slot station0 g1
              (scan_storage_dir E slot (rom_station.rom_path station))
              [games_dir E; root_dir E]
              (fun d => scan_storage_dir_keeps E slot station0 g1
                          (rom_station.rom_path station) d Hbound1)
              g1 [] Hrel0) as (added & Hrel).
  clearbody g1.
  set (g2 := fold_left _ _ g1) in *. clearbody g2.
  destruct Hrel as (Hg & Hst & Hsc & Hin & Hsg & Hsp & Hss & Hl & Hok2 & Hall).
  exists added. cbn [fst snd].
  rewrite rebuild_filtered_list_catalog.
  destruct (rebuild_filtered_list_frame E
              (globals.with_catalog (rom_catalog.set_scanning 0) g2))
    as (Hf1 & Hf2 & Hf3).
  destruct (rebuild_filtered_list_cursor E
              (globals.with_catalog (rom_catalog.set_scanning 0) g2))
    as (Hf4 & Hf5).
  rewrite Hf1, Hf2, Hf3, Hf4, Hf5.
  destruct Hg1 as (Hg1a & Hg1b & Hg1c & Hg1d & Hg1e).
  rewrite <- Hg1b, <- Hg1c, <- Hg1d, <- Hg1e.
  rewrite Hg.
  cbn [globals.with_catalog globals.g_rom_catalog globals.set_g_rom_catalog
       globals.scan_cancel_flag globals.browse_station_filter
       globals.search_filter globals.iFirstEntry globals.iSelectedEntry].
  change (live_roms (rom_catalog.set_scanning 0 ?c)) with (live_roms c).
  change (rom_catalog.stations (rom_catalog.set_scanning 0 ?c))
    with (rom_catalog.stations c).
  change (rom_catalog.station_count (rom_catalog.set_scanning 0 ?c))
    with (rom_catalog.station_count c).
  change (rom_catalog.scan_progress (rom_catalog.set_scanning 0 ?c))
    with (rom_catalog.scan_progress c).
  change (store_ok (rom_catalog.set_scanning 0 ?c)) with (store_ok c).
  rewrite Hl, Hst, Hsc, Hsp, Hst1.
  rewrite list_insert_insert_eq.
  assert (Hlive1 : live_roms (globals.g_rom_catalog g1)
                   = filter (other_station station_id)
                       (live_roms (globals.g_rom_catalog g))).
  { rewrite Hc1. exact Hlive. }
  rewrite Hlive1.
  split; [reflexivity|].
  split; [exact Hall|].
  split.
  { rewrite list_lookup_insert_eq by exact Hbound. reflexivity. }
  split; [reflexivity|].
  split; [rewrite Hc1; exact Hsc'|].
  split; [rewrite Hc1; exact Hsp'|].
  split; [reflexivity|].
  split; [exact Hok2|].
  repeat split; assumption.
Qed.

Lemma filter_other_of (station_id : Z) (l : list rom_entry_t) :
  filter (of_station station_id) (filter (other_station station_id) l) = [].
Proof.
  induction l as [|x l IH]; [reflexivity|].
  rewrite filter_cons. destruct (decide (other_station station_id x)) as [Ho|Ho].
  - rewrite filter_cons. destruct (decide (of_station station_id x)) as [Hs|Hs].
    + exfalso. exact (Ho Hs).
    + exact IH.
  - exact IH.
Qed.

Lemma filter_other_other (station_id : Z) (l : list rom_entry_t) :
  filter (other_station station_id) (filter (other_station station_id) l)
  = filter (other_station station_id) l.
Proof.
  induction l as [|x l IH]; [reflexivity|].
  rewrite filter_cons. destruct (decide (other_station station_id x)) as [Ho|Ho].
  - rewrite filter_cons. destruct (decide (other_station station_id x)); [|tauto].
    now rewrite IH.
  - exact IH.
Qed.

Lemma filter_of_station_all (station_id : Z) (l : list rom_entry_t) :
  Forall (of_station station_id) l ->
  filter (of_station station_id) l = l
  /\ filter (other_station station_id) l = [].
Proof.
  induction 1 as [|x l Hx Hl [IH1 IH2]]; [split; reflexivity|].
  rewrite !filter_cons.
  destruct (decide (of_station station_id x)); [|tauto].
  destruct (decide (other_station station_id x)) as [Ho|Ho]; [exfalso; exact (Ho Hx)|].
  split; [now rewrite IH1 | exact IH2].
Qed.

(** X19. A scan of a registered station whose slot holds its own id:
    the entries of the other stations stay as they were, in order; the
    station's former entries are replaced by the ones found, which come
    after all the others; the count returned and the count kept in the slot
    are the number of the station's entries, wrapped to 32 bits; the slot is
    otherwise unchanged; the cancel flag is down and the catalog is no
    longer scanning; and the browse cursor is where it was. *)
Theorem rom_scan_station_replaces (E : env_t) (station_id : Z) (g : globals_t)
    (station : rom_station_t) :
  store_ok (globals.g_rom_catalog g) ->
  rom_station_get (globals.g_rom_catalog g) station_id = Some station ->
  rom_station.id station = station_id ->
  let c := globals.g_rom_catalog g in
  let r := rom_scan_station E station_id g in
  let c' := globals.g_rom_catalog (snd r) in
  let found := filter (of_station station_id) (live_roms c') in
  live_roms c' = filter (other_station station_id) (live_roms c) ++ found
  /\ fst r = int32 (u32 (Z.of_nat (length found)))
  /\ rom_catalog.stations c'
     = <[Z.to_nat station_id :=
           rom_station.set_rom_count (u32 (Z.of_nat (length found))) station]>
         (rom_catalog.stations c)
  /\ rom_catalog.station_count c' = rom_catalog.station_count c
  /\ rom_catalog.scanning c' = 0
  /\ globals.scan_cancel_flag (snd r) = 0
  /\ globals.iFirstEntry (snd r) = globals.iFirstEntry g
  /\ globals.iSelectedEntry (snd r) = globals.iSelectedEntry g.
Proof.
  intros Hok Hget Hid. cbv zeta.
  destruct (rom_scan_station_spec E station_id g station Hok Hget)
    as (added & Hl & Hall & Hr & Hst & Hsc & _ & Hsg & _ & Hcf & _ & _ & Hf & Hs).
  rewrite Hid in Hall.
  destruct (filter_of_station_all station_id added Hall) as (Hin & _).
  assert (Hfound : filter (of_station station_id)
                     (live_roms (globals.g_rom_catalog
                                   (snd (rom_scan_station E station_id g))))
                   = added).
  { rewrite Hl, filter_app, filter_other_of, Hin. reflexivity. }
  rewrite Hfound. repeat split; assumption.
Qed.

Lemma enabled_slots_from_S (c : rom_catalog_t) (i n : nat) :
  enabled_slots_from c i (S n)
  = (if slot_enabled (default rom_station.zero (rom_catalog.stations c !! i))
     then [Z.of_nat i] else [])
    ++ enabled_slots_from c (S i) n.
Proof.
  unfold enabled_slots_from, slot_enabled. cbn [seq map List.filter].
  rewrite Nat2Z.id.
  destruct (negb _); reflexivity.
Qed.

Lemma enabled_slots_from_ext (c c' : rom_catalog_t) (i n : nat) :
  (forall j, rom_station.enabled
               (default rom_station.zero (rom_catalog.stations c' !! j))
             = rom_station.enabled
                 (default rom_station.zero (rom_catalog.stations c !! j))) ->
  enabled_slots_from c' i n = enabled_slots_from c i n.
Proof.
  intros Hen. unfold enabled_slots_from.
  apply List.filter_ext. intros j. now rewrite Hen.
Qed.

Lemma enabled_slots_from_range (c : rom_catalog_t) (i n : nat) :
  Forall (fun j => Z.of_nat i <= j < Z.of_nat (i + n)) (enabled_slots_from c i n).
Proof.
  unfold enabled_slots_from. apply Forall_forall. intros j Hj.
  apply list_elem_of_In, filter_In in Hj. destruct Hj as [Hj _].
  apply in_map_iff in Hj. destruct Hj as (k & <- & Hk).
  apply in_seq in Hk. lia.
Qed.

Lemma slot_count_ext (c c' : rom_catalog_t) (l : list Z) :
  Forall (fun j => rom_catalog.stations c' !! Z.to_nat j
                   = rom_catalog.stations c !! Z.to_nat j) l ->
  map (slot_count c') l = map (slot_count c) l.
Proof.
  induction 1 as [|j l Hj Hl IH]; [reflexivity|].
  cbn [map]. rewrite IH. unfold slot_count. now rewrite Hj.
Qed.

Lemma enabled_after_scan (stations : list rom_station_t) (i j : nat) (v : Z)
    (station : rom_station_t) :
  stations !! i = Some station ->
  rom_station.enabled
    (default rom_station.zero
       (<[i := rom_station.set_rom_count v station]> stations !! j))
  = rom_station.enabled (default rom_station.zero (stations !! j)).
Proof.
  intros Hs. destruct (decide (i = j)) as [<-|Hne].
  - rewrite list_lookup_insert_eq by (eapply lookup_lt_Some; exact Hs).
    rewrite Hs. reflexivity.
  - now rewrite list_lookup_insert_ne.
Qed.

Lemma scan_all_loop_spec (E : env_t) (n : nat) :
  forall (i : nat) (total : Z) (trace : progress_trace) (g : globals_t),
  (i + n <= Z.to_nat ROM_MAX_STATIONS)%nat ->
  globals.scan_cancel_flag g = 0 ->
  store_ok (globals.g_rom_catalog g) ->
  rom_catalog.station_count (globals.g_rom_catalog g) <> 0 ->
  exists g',
    scan_all_loop E n (Z.of_nat i) total trace g
    = Some (total
            + sum_Z (map (slot_count (globals.g_rom_catalog g'))
                       (enabled_slots_from (globals.g_rom_catalog g) i n)),
            trace
            ++ map (fun j => (j, u32 (j * 100)
                                 / rom_catalog.station_count (globals.g_rom_catalog g)))
                 (enabled_slots_from (globals.g_rom_catalog g) i n),
            g')
    /\ store_ok (globals.g_rom_catalog g')
    /\ rom_catalog.station_count (globals.g_rom_catalog g')
       = rom_catalog.station_count (globals.g_rom_catalog g)
    /\ (forall j,
          rom_station.enabled
            (default rom_station.zero
               (rom_catalog.stations (globals.g_rom_catalog g') !! j))
          = rom_station.enabled
              (default rom_station.zero
                 (rom_catalog.stations (globals.g_rom_catalog g) !! j)))
    /\ (forall j, (j < i)%nat ->
          rom_catalog.stations (globals.g_rom_catalog g') !! j
          = rom_catalog.stations (globals.g_rom_catalog g) !! j)
    /\ globals.iFirstEntry g' = globals.iFirstEntry g
    /\ globals.iSelectedEntry g' = globals.iSelectedEntry g.
Proof.
  induction n as [|n IH]; intros i total trace g Hin Hcf Hok Hsc.
  - exists g. cbn [scan_all_loop enabled_slots_from seq map List.filter sum_Z fold_right].
    rewrite Z.add_0_r, app_nil_r.
    split; [reflexivity|]. split; [exact Hok|]. repeat split; reflexivity.
  - cbn [scan_all_loop]. rewrite Hcf. cbn [Z.eqb negb]. cbv zeta.
    rewrite Nat2Z.id, enabled_slots_from_S. unfold slot_enabled.
    set (c := globals.g_rom_catalog g) in *.
    destruct (rom_catalog.stations c !! i) as [station|] eqn:Hslot;
      cbn [default from_option id];
      [destruct (Z.eqb_spec (rom_station.enabled station) 0) as [He|He]|];
      cbn [negb rom_station.enabled rom_station.zero Z.eqb app].
    2: {
      destruct (Z.eqb_spec (rom_catalog.station_count c) 0) as [?|_];
        [contradiction|].
      set (progress := u32 (Z.of_nat i * 100) / rom_catalog.station_count c).
      set (gp := globals.with_catalog (rom_catalog.set_scan_progress progress) g).
      assert (Hget : rom_station_get (globals.g_rom_catalog gp) (Z.of_nat i)
                     = Some station).
      { unfold rom_station_get.
        destruct (Z.geb_spec (Z.of_nat i) ROM_MAX_STATIONS) as [Hge|_].
        - unfold ROM_MAX_STATIONS in *. lia.
        - rewrite Nat2Z.id. change (rom_catalog.stations (globals.g_rom_catalog gp))
            with (rom_catalog.stations c). rewrite Hslot.
          destruct (Z.eqb_spec (rom_station.enabled station) 0); [contradiction|].
          reflexivity. }
      assert (Hokp : store_ok (globals.g_rom_catalog gp)) by exact Hok.
      pose proof (rom_scan_station_spec E (Z.of_nat i) gp station Hokp Hget) as Hspec.
      cbv zeta in Hspec.
      destruct (rom_scan_station E (Z.of_nat i) gp) as [r g2].
      cbn [fst snd] in Hspec.
      destruct Hspec as (added & _ & _ & Hr & Hst & Hsc2 & _ & _ & Hok2 & Hcf2
                         & _ & _ & Hf2 & Hs2).
      rewrite Nat2Z.id in Hst.
      change (rom_catalog.stations (globals.g_rom_catalog gp))
        with (rom_catalog.stations c) in Hst.
      change (rom_catalog.station_count (globals.g_rom_catalog gp))
        with (rom_catalog.station_count c) in Hsc2.
      change (globals.iFirstEntry gp) with (globals.iFirstEntry g) in Hf2.
      change (globals.iSelectedEntry gp) with (globals.iSelectedEntry g) in Hs2.
      replace (Z.of_nat i + 1) with (Z.of_nat (S i)) by lia.
      destruct (IH (S i) (total + r) (trace ++ [(Z.of_nat i, progress)]) g2)
        as (g' & Hrun & Hok' & Hsc' & Hen' & Hlow' & Hf' & Hs');
        [lia | exact Hcf2 | exact Hok2 | now rewrite Hsc2 |].
      assert (Hen2 : forall j,
                 rom_station.enabled
                   (default rom_station.zero
                      (rom_catalog.stations (globals.g_rom_catalog g2) !! j))
                 = rom_station.enabled
                     (default rom_station.zero (rom_catalog.stations c !! j))).
      { intros j. rewrite Hst. now apply enabled_after_scan. }
      exists g'. rewrite Hrun.
      rewrite (enabled_slots_from_ext c (globals.g_rom_catalog g2) (S i) n Hen2).
      rewrite Hsc2. split.
      { cbn [map sum_Z fold_right]. rewrite <- app_assoc. cbn [app]. fold progress.
        assert (Hri : slot_count (globals.g_rom_catalog g') (Z.of_nat i) = r).
        { unfold slot_count. rewrite Nat2Z.id, (Hlow' i) by lia.
          rewrite Hst, list_lookup_insert_eq by (eapply lookup_lt_Some; exact Hslot).
          cbn. now rewrite Hr. }
        rewrite Hri. fold (sum_Z (map (slot_count (globals.g_rom_catalog g'))
                                    (enabled_slots_from c (S i) n))).
        rewrite Z.add_assoc. reflexivity. }
      split; [exact Hok'|].
      split; [now rewrite Hsc'|].
      split; [intros j; now rewrite Hen'|].
      split.
      { intros j Hj. rewrite Hlow' by lia. rewrite Hst.
        apply list_lookup_insert_ne. lia. }
      split; [now rewrite Hf' | now rewrite Hs']. }
    all: replace (Z.of_nat i + 1) with (Z.of_nat (S i)) by lia.
    all: destruct (IH (S i) total trace g)
        as (g' & Hrun & Hok' & Hsc' & Hen' & Hlow' & Hf' & Hs');
        [lia | exact Hcf | exact Hok | exact Hsc |].
    all: exists g'; rewrite Hrun; fold c.
    all: split; [reflexivity|]; split; [exact Hok'|]; split; [exact Hsc'|];
      split; [exact Hen'|]; split; [|split; assumption].
    all: intros j Hj; apply Hlow'; lia.
Qed.

Lemma scan_all_loop_no_count (E : env_t) (n : nat) :
  forall (i : nat) (total : Z) (trace : progress_trace) (g : globals_t),
  globals.scan_cancel_flag g = 0 ->
  rom_catalog.station_count (globals.g_rom_catalog g) = 0 ->
  scan_all_loop E n (Z.of_nat i) total trace g
  = match enabled_slots_from (globals.g_rom_catalog g) i n with
    | [] => Some (total, trace, g)
    | _ :: _ => None
    end.
Proof.
  induction n as [|n IH]; intros i total trace g Hcf Hsc; [reflexivity|].
  cbn [scan_all_loop]. rewrite Hcf. cbn [Z.eqb negb]. cbv zeta.
  rewrite Nat2Z.id, enabled_slots_from_S. unfold slot_enabled.
  destruct (negb (rom_station.enabled _ =? 0)).
  - rewrite Hsc. reflexivity.
  - replace (Z.of_nat i + 1) with (Z.of_nat (S i)) by lia.
    now apply IH.
Qed.

Lemma enabled_slots_from_all (c : rom_catalog_t) :
  enabled_slots_from c 0 (Z.to_nat ROM_MAX_STATIONS) = enabled_slots c.
Proof. unfold enabled_slots_from, enabled_slots. reflexivity. Qed.

Lemma enabled_slots_from_stations (c c' : rom_catalog_t) (i n : nat) :
  rom_catalog.stations c' = rom_catalog.stations c ->
  enabled_slots_from c' i n = enabled_slots_from c i n.
Proof. intros Hst. unfold enabled_slots_from. now rewrite Hst. Qed.

Lemma scaled_slots (d : Z) (l : list Z) :
  Forall (fun j => 0 <= j < ROM_MAX_STATIONS) l ->
  map (fun j => (j, u32 (j * 100) / d)) l = map (fun j => (j, j * 100 / d)) l.
Proof.
  induction 1 as [|j l Hj Hl IH]; [reflexivity|].
  cbn [map]. rewrite IH. do 2 f_equal.
  unfold u32. rewrite Z.mod_small; [reflexivity|].
  unfold ROM_MAX_STATIONS in Hj. lia.
Qed.

(** X20. With the store allocated and a positive [station_count],
    [rom_scan_all] returns; the progress shown while the station in slot
    [j] is scanned is [j * 100 / station_count], for the enabled slots in
    slot order; the total is the sum of the counts the scan leaves in the
    enabled slots; the same slots are enabled afterwards and
    [station_count] is unchanged; at the end the progress is 100, the
    catalog is not scanning, and the browse cursor is where it was. *)
Theorem rom_scan_all_totals (E : env_t) (g : globals_t) :
  store_ok (globals.g_rom_catalog g) ->
  0 < rom_catalog.station_count (globals.g_rom_catalog g) ->
  let c := globals.g_rom_catalog g in
  exists total trace g',
    rom_scan_all E g = Some (total, trace, g')
    /\ trace = map (fun j => (j, j * 100 / rom_catalog.station_count c))
                 (enabled_slots c)
    /\ total = sum_Z (map (slot_count (globals.g_rom_catalog g')) (enabled_slots c))
    /\ enabled_slots (globals.g_rom_catalog g') = enabled_slots c
    /\ rom_catalog.station_count (globals.g_rom_catalog g')
       = rom_catalog.station_count c
    /\ rom_scan_progress g' = 100
    /\ rom_catalog.scanning (globals.g_rom_catalog g') = 0
    /\ globals.iFirstEntry g' = globals.iFirstEntry g
    /\ globals.iSelectedEntry g' = globals.iSelectedEntry g.
Proof.
  intros Hok Hsc. cbv zeta. unfold rom_scan_all.
  set (g1 := globals.with_catalog (rom_catalog.set_scanning 1)
               (globals.set_scan_cancel_flag 0 g)).
  assert (Hst1 : rom_catalog.stations (globals.g_rom_catalog g1)
                 = rom_catalog.stations (globals.g_rom_catalog g)) by reflexivity.
  assert (Hsc1 : rom_catalog.station_count (globals.g_rom_catalog g1)
                 = rom_catalog.station_count (globals.g_rom_catalog g))
    by reflexivity.
  assert (Hok1 : store_ok (globals.g_rom_catalog g1)) by exact Hok.
  assert (Hcf1 : globals.scan_cancel_flag g1 = 0) by reflexivity.
  assert (Hf1 : globals.iFirstEntry g1 = globals.iFirstEntry g) by reflexivity.
  assert (Hs1 : globals.iSelectedEntry g1 = globals.iSelectedEntry g)
    by reflexivity.
  clearbody g1.
  destruct (scan_all_loop_spec E (Z.to_nat ROM_MAX_STATIONS) 0 0 [] g1)
    as (g' & Hrun & Hok' & Hsc' & Hen' & _ & Hf' & Hs');
    [apply Nat.le_refl | exact Hcf1 | exact Hok1 | rewrite Hsc1; lia |].
  change (Z.of_nat 0) with 0 in Hrun. rewrite Hrun. clear Hrun.
  rewrite (enabled_slots_from_stations _ _ 0 (Z.to_nat ROM_MAX_STATIONS) Hst1).
  rewrite enabled_slots_from_all, Hsc1.
  exists (0 + sum_Z (map (slot_count (globals.g_rom_catalog g'))
                       (enabled_slots (globals.g_rom_catalog g)))).
  eexists. eexists. split; [reflexivity|].
  split.
  { cbn [app]. apply scaled_slots.
    rewrite <- enabled_slots_from_all.
    eapply Forall_impl; [apply enabled_slots_from_range|].
    cbn beta. intros j Hj.
    change (Z.of_nat (0 + Z.to_nat ROM_MAX_STATIONS)) with ROM_MAX_STATIONS in Hj.
    change (Z.of_nat 0) with 0 in Hj. exact Hj. }
  split.
  { rewrite Z.add_0_l. apply (f_equal sum_Z), slot_count_ext.
    apply Forall_forall. intros j _. reflexivity. }
  split.
  { rewrite <- !enabled_slots_from_all.
    apply enabled_slots_from_ext. intros j.
    rewrite <- Hst1. apply (Hen' j). }
  split; [rewrite <- Hsc1; exact Hsc'|].
  split; [reflexivity|].
  split; [reflexivity|].
  split; [rewrite <- Hf1; exact Hf' | rewrite <- Hs1; exact Hs'].
Qed.

(** X21. With [station_count] 0 the call gives no result, the division
    for the progress being a division by zero, exactly when some slot is
    enabled. *)
Theorem rom_scan_all_divides_by_zero (E : env_t) (g : globals_t) :
  rom_catalog.station_count (globals.g_rom_catalog g) = 0 ->
  rom_scan_all E g = None <-> enabled_slots (globals.g_rom_catalog g) <> [].
Proof.
  intros Hsc. unfold rom_scan_all.
  set (g1 := globals.with_catalog (rom_catalog.set_scanning 1)
               (globals.set_scan_cancel_flag 0 g)).
  assert (Hst1 : rom_catalog.stations (globals.g_rom_catalog g1)
                 = rom_catalog.stations (globals.g_rom_catalog g)) by reflexivity.
  pose proof (scan_all_loop_no_count E (Z.to_nat ROM_MAX_STATIONS) 0 0 [] g1
                eq_refl Hsc) as Hrun.
  clearbody g1.
  change (Z.of_nat 0) with 0 in Hrun. rewrite Hrun. clear Hrun.
  rewrite (enabled_slots_from_stations _ _ 0 (Z.to_nat ROM_MAX_STATIONS) Hst1).
  rewrite enabled_slots_from_all.
  destruct (enabled_slots (globals.g_rom_catalog g)); split;
    (discriminate || congruence).
Qed.

(** ** The further theorems at work on the sample card *)

Lemma rom_station_add_lowest_free_witness :
  take (Z.to_nat ROM_MAX_STATIONS)
    (rom_catalog.stations (globals.g_rom_catalog sample_stations)) !! 2%nat
  = Some rom_station.zero
  /\ rom_station.enabled rom_station.zero = 0
  /\ fst (rom_station_add (lit "Game Boy Advance") (lit "GBA") (lit "GBA")
            (lit "GBA") (lit "gba") sample_stations) = 2.
Proof.
  assert (H1 : take (Z.to_nat ROM_MAX_STATIONS)
                 (rom_catalog.stations (globals.g_rom_catalog sample_stations))
               !! 2%nat = Some rom_station.zero) by (vm_compute; reflexivity).
  assert (H2 : rom_station.enabled rom_station.zero = 0) by reflexivity.
  split; [exact H1|]. split; [exact H2|].
  refine (proj1 (proj2 (rom_station_add_lowest_free (lit "Game Boy Advance")
                          (lit "GBA") (lit "GBA") (lit "GBA") (lit "gba")
                          sample_stations) 2%nat rom_station.zero H1 H2 _)).
  intros j s' Hj Hs.
  destruct j as [|[|j]]; [| |lia]; vm_compute in Hs; injection Hs as <-;
    discriminate.
Defined.

Lemma rom_catalog_load_counts_witness :
  rom_catalog.initialized (globals.g_rom_catalog sample_stations) <> 0
  /\ fst (rom_catalog_load sample_env sample_stations) = 0.
Proof.
  assert (H : rom_catalog.initialized (globals.g_rom_catalog sample_stations) <> 0)
    by (vm_compute; discriminate).
  split; [exact H|].
  exact (proj1 (proj1 (proj2 (rom_catalog_load_counts sample_env sample_stations))
                  H)).
Defined.

Lemma extract_display_name_stem_witness :
  (0 < 256)%nat
  /\ ~ In underscore (extract_display_name (lit "Super_Mario.nes") 256).
Proof.
  assert (H : (0 < 256)%nat) by lia.
  split; [exact H|].
  exact (proj1 (extract_display_name_stem (lit "Super_Mario.nes") 256 H)).
Defined.

Lemma match_extension_ignores_case_witness :
  map tolower (lit "Metroid.SMC") = map tolower (lit "metroid.smc")
  /\ map tolower (lit "sfc smc bin") = map tolower (lit "SFC SMC BIN")
  /\ match_extension (lit "Metroid.SMC") (Some (lit "sfc smc bin"))
     = match_extension (lit "metroid.smc") (Some (lit "SFC SMC BIN")).
Proof.
  assert (H1 : map tolower (lit "Metroid.SMC") = map tolower (lit "metroid.smc"))
    by reflexivity.
  assert (H2 : map tolower (lit "sfc smc bin") = map tolower (lit "SFC SMC BIN"))
    by reflexivity.
  split; [exact H1|]. split; [exact H2|].
  exact (match_extension_ignores_case _ _ _ _ H1 H2).
Defined.

Lemma url_encode_fits_and_safe_witness :
  (4 <= 512)%nat
  /\ (length (url_encode (lit "Zelda 3 (USA)") 512) < 512)%nat.
Proof.
  assert (H : (4 <= 512)%nat) by lia.
  split; [exact H|].
  exact (proj1 (url_encode_fits_and_safe (lit "Zelda 3 (USA)") 512 H)).
Defined.

Lemma url_encode_injective_witness :
  (3 * length (lit "Zelda 3") + 4 <= 512)%nat
  /\ (3 * length (lit "Zelda+3") + 4 <= 512)%nat
  /\ lit "Zelda 3" <> lit "Zelda+3"
  /\ url_encode (lit "Zelda 3") 512 <> url_encode (lit "Zelda+3") 512.
Proof.
  assert (H1 : (3 * length (lit "Zelda 3") + 4 <= 512)%nat) by (simpl; lia).
  assert (H2 : (3 * length (lit "Zelda+3") + 4 <= 512)%nat) by (simpl; lia).
  assert (H3 : lit "Zelda 3" <> lit "Zelda+3") by discriminate.
  split; [exact H1|]. split; [exact H2|]. split; [exact H3|].
  exact (url_encode_injective _ _ 512 H1 H2 H3).
Defined.

Lemma rom_browse_scan_keeps_cursor_witness :
  0 < OsdGetSize sample_env
  /\ cursor_ok sample_env sample_browsing
  /\ cursor_ok sample_env (rom_browse_scan sample_env SCANF_NEXT_PAGE sample_browsing).
Proof.
  assert (H1 : 0 < OsdGetSize sample_env) by reflexivity.
  assert (H2 : cursor_ok sample_env sample_browsing).
  { unfold cursor_ok. vm_compute. repeat split; discriminate. }
  split; [exact H1|]. split; [exact H2|].
  exact (proj1 (rom_browse_scan_keeps_cursor sample_env SCANF_NEXT_PAGE
                  sample_browsing H1 H2)).
Defined.

Lemma compare_roms_numeric_witness :
  rom_catalog.roms (globals.g_rom_catalog sample_scanned) !! 0%nat
  = Some sample_first
  /\ rom_catalog.roms (globals.g_rom_catalog sample_scanned) !! 1%nat
     = Some sample_second
  /\ uint32_range (rom_entry.size sample_first)
  /\ uint32_range (rom_entry.size sample_second)
  /\ uint32_range (rom_entry.date sample_first)
  /\ uint32_range (rom_entry.date sample_second)
  /\ - 2 ^ 31 <= rom_entry.size sample_first - rom_entry.size sample_second < 2 ^ 31
  /\ compare_roms (globals.g_rom_catalog sample_scanned) ROM_SORT_SIZE_ASC 0 1
     = rom_entry.size sample_first - rom_entry.size sample_second.
Proof.
  assert (H1 : rom_catalog.roms (globals.g_rom_catalog sample_scanned) !! 0%nat
               = Some sample_first) by (vm_compute; reflexivity).
  assert (H2 : rom_catalog.roms (globals.g_rom_catalog sample_scanned) !! 1%nat
               = Some sample_second) by (vm_compute; reflexivity).
  assert (R1 : uint32_range (rom_entry.size sample_first))
    by (vm_compute; split; [discriminate | reflexivity]).
  assert (R2 : uint32_range (rom_entry.size sample_second))
    by (vm_compute; split; [discriminate | reflexivity]).
  assert (R3 : uint32_range (rom_entry.date sample_first))
    by (vm_compute; split; [discriminate | reflexivity]).
  assert (R4 : uint32_range (rom_entry.date sample_second))
    by (vm_compute; split; [discriminate | reflexivity]).
  assert (H3 : - 2 ^ 31 <= rom_entry.size sample_first - rom_entry.size sample_second
               < 2 ^ 31)
    by (vm_compute; split; [discriminate | reflexivity]).
  split; [exact H1|]. split; [exact H2|]. split; [exact R1|]. split; [exact R2|].
  split; [exact R3|]. split; [exact R4|]. split; [exact H3|].
  exact (proj1 (compare_roms_numeric (globals.g_rom_catalog sample_scanned) 0 1
                  sample_first sample_second H1 H2 R1 R2 R3 R4) H3).
Defined.

Lemma rom_sort_rearranges_witness :
  (forall cmp l, Permutation (qsort sample_env cmp l) l)
  /\ globals.filtered_count (rom_sort sample_env ROM_SORT_SIZE_DESC sample_browsing)
     = globals.filtered_count sample_browsing.
Proof.
  assert (H : forall cmp l, Permutation (qsort sample_env cmp l) l)
    by exact insertion_sort_perm.
  split; [exact H|].
  pose proof (rom_sort_rearranges sample_env ROM_SORT_SIZE_DESC sample_browsing H)
    as W.
  cbv zeta in W. destruct W as (_ & _ & W & _). exact W.
Defined.

Lemma rom_filter_set_selects_first_witness :
  station_ids_in_range (globals.g_rom_catalog sample_scanned)
  /\ int_range (globals.browse_station_filter sample_scanned)
  /\ alloc_ok sample_env (view_capacity (globals.g_rom_catalog sample_scanned))
     = true
  /\ globals.search_filter (rom_filter_set sample_env (lit "zel") sample_scanned)
     = take 255 (lit "zel").
Proof.
  assert (H1 : station_ids_in_range (globals.g_rom_catalog sample_scanned)).
  { unfold station_ids_in_range, uint32_range.
    refine (@bool_decide_unpack _ (Forall_dec _ _) _). vm_compute. exact I. }
  assert (H2 : int_range (globals.browse_station_filter sample_scanned)).
  { unfold int_range. vm_compute. split; [discriminate | reflexivity]. }
  assert (H3 : alloc_ok sample_env
                 (view_capacity (globals.g_rom_catalog sample_scanned)) = true)
    by reflexivity.
  split; [exact H1|]. split; [exact H2|]. split; [exact H3|].
  exact (proj1 (rom_filter_set_selects_first sample_env (lit "zel") sample_scanned
                  H1 H2 H3)).
Defined.

Lemma download_file_cleans_up_witness :
  fst (download_file sample_online (lit "https://thumbnails.libretro.com/Zelda.png")
         (lit "/media/fat/games/previews/NES/Zelda.png")
         (world.initial (fun _ => None))) = 0.
Proof.
  pose proof (download_file_cleans_up sample_online
                (lit "https://thumbnails.libretro.com/Zelda.png")
                (lit "/media/fat/games/previews/NES/Zelda.png")
                (world.initial (fun _ => None))) as W.
  cbv zeta in W. destruct W as (_ & W & _).
  apply (proj2 W). split; [reflexivity | vm_compute; discriminate].
Defined.


Lemma fetched_preview_is_cached_witness :
  rom_station_get (globals.g_rom_catalog sample_scanned)
    (rom_entry.station_id sample_rom) = Some sample_nes
  /\ (length (full_games_dir sample_online ++ lit "/" ++ PREVIEW_CACHE_DIR ++ lit "/"
              ++ rom_station.short_name sample_nes) <= 511)%nat
  /\ fst (rom_preview_fetch_online sample_online
            (globals.g_rom_catalog sample_scanned) (Some sample_rom)
            (world.initial (fun _ => None))) = 0
  /\ rom_preview_cache_exists sample_online (globals.g_rom_catalog sample_scanned)
       (Some sample_rom)
       (snd (rom_preview_fetch_online sample_online
               (globals.g_rom_catalog sample_scanned) (Some sample_rom)
               (world.initial (fun _ => None)))) = true.
Proof.
  assert (H1 : rom_station_get (globals.g_rom_catalog sample_scanned)
                 (rom_entry.station_id sample_rom) = Some sample_nes)
    by (vm_compute; reflexivity).
  assert (H2 : (length (full_games_dir sample_online ++ lit "/" ++ PREVIEW_CACHE_DIR
                        ++ lit "/" ++ rom_station.short_name sample_nes)
                <= 511)%nat)
    by (apply Nat.leb_le; vm_compute; reflexivity).
  assert (H3 : fst (rom_preview_fetch_online sample_online
                      (globals.g_rom_catalog sample_scanned) (Some sample_rom)
                      (world.initial (fun _ => None))) = 0)
    by (vm_compute; reflexivity).
  split; [exact H1|]. split; [exact H2|]. split; [exact H3|].
  exact (fetched_preview_is_cached sample_online
           (globals.g_rom_catalog sample_scanned) sample_rom sample_nes
           (world.initial (fun _ => None)) H1 H2 H3).
Defined.

Lemma fetch_async_in_progress_until_run_witness :
  pthread_create sample_online = 0
  /\ rom_preview_fetch_poll
       (snd (rom_preview_fetch_async sample_online
               (globals.g_rom_catalog sample_scanned) (Some sample_rom)
               (world.initial (fun _ => None)))) = 0.
Proof.
  assert (H : pthread_create sample_online = 0) by reflexivity.
  split; [exact H|].
  pose proof (fetch_async_in_progress_until_run sample_online sample_online
                (globals.g_rom_catalog sample_scanned)
                (globals.g_rom_catalog sample_scanned) (Some sample_rom)
                (world.initial (fun _ => None)) H) as W.
  cbv zeta in W. destruct W as (_ & _ & _ & W & _). exact W.
Defined.

Lemma fetch_async_supersedes_pending_witness :
  world.fetch_thread sample_fetching = Some (Some sample_rom)
  /\ world.fetch_in_progress sample_fetching <> 0
  /\ pthread_create sample_online = 0
  /\ world.files
       (snd (rom_preview_fetch_async sample_online
               (globals.g_rom_catalog sample_scanned) (Some sample_second)
               sample_fetching))
     = world.files sample_fetching.
Proof.
  assert (H1 : world.fetch_thread sample_fetching = Some (Some sample_rom))
    by (vm_compute; reflexivity).
  assert (H2 : world.fetch_in_progress sample_fetching <> 0)
    by (vm_compute; discriminate).
  assert (H3 : pthread_create sample_online = 0) by reflexivity.
  split; [exact H1|]. split; [exact H2|]. split; [exact H3|].
  pose proof (fetch_async_supersedes_pending sample_online
                (globals.g_rom_catalog sample_scanned) (Some sample_rom)
                (Some sample_second) sample_fetching H1 H2 H3) as W.
  cbv zeta in W. destruct W as (_ & _ & W & _). exact W.
Defined.

Lemma rom_preview_batch_fetch_reports_witness :
  rom_station_get (globals.g_rom_catalog sample_scanned) 0 <> None
  /\ 0 <= fst (rom_preview_batch_fetch sample_no_art sample_scanned 0 None
                 (world.initial (fun _ => None))).
Proof.
  assert (H : rom_station_get (globals.g_rom_catalog sample_scanned) 0 <> None)
    by (vm_compute; discriminate).
  split; [exact H|].
  pose proof (rom_preview_batch_fetch_reports sample_no_art sample_scanned 0 None
                (world.initial (fun _ => None))) as W.
  cbv zeta in W. destruct W as (_ & W).
  destruct (W H) as (m & _ & _ & W' & _). exact (proj1 W').
Defined.

Lemma rom_scan_station_replaces_witness :
  store_ok (globals.g_rom_catalog sample_scanned)
  /\ rom_station_get (globals.g_rom_catalog sample_scanned) 0 = Some sample_nes
  /\ rom_station.id sample_nes = 0
  /\ rom_catalog.station_count
       (globals.g_rom_catalog (snd (rom_scan_station sample_env 0 sample_scanned)))
     = rom_catalog.station_count (globals.g_rom_catalog sample_scanned).
Proof.
  assert (H1 : store_ok (globals.g_rom_catalog sample_scanned)).
  { unfold store_ok. repeat split;
      [apply Nat.ltb_lt | apply Nat.leb_le | apply Nat.leb_le];
      vm_compute; reflexivity. }
  assert (H2 : rom_station_get (globals.g_rom_catalog sample_scanned) 0
               = Some sample_nes) by (vm_compute; reflexivity).
  assert (H3 : rom_station.id sample_nes = 0) by (vm_compute; reflexivity).
  split; [exact H1|]. split; [exact H2|]. split; [exact H3|].
  pose proof (rom_scan_station_replaces sample_env 0 sample_scanned sample_nes
                H1 H2 H3) as W.
  cbv zeta in W. destruct W as (_ & _ & _ & W & _). exact W.
Defined.

Lemma rom_scan_all_totals_witness :
  store_ok (globals.g_rom_catalog sample_stations)
  /\ 0 < rom_catalog.station_count (globals.g_rom_catalog sample_stations)
  /\ exists total trace g',
       rom_scan_all sample_env sample_stations = Some (total, trace, g').
Proof.
  assert (H1 : store_ok (globals.g_rom_catalog sample_stations)).
  { unfold store_ok. repeat split;
      [apply Nat.ltb_lt | apply Nat.leb_le | apply Nat.leb_le];
      vm_compute; reflexivity. }
  assert (H2 : 0 < rom_catalog.station_count (globals.g_rom_catalog sample_stations))
    by (vm_compute; reflexivity).
  split; [exact H1|]. split; [exact H2|].
  pose proof (rom_scan_all_totals sample_env sample_stations H1 H2) as W.
  cbv zeta in W. destruct W as (total & trace & g' & W & _).
  exists total, trace, g'. exact W.
Defined.

Lemma rom_scan_all_divides_by_zero_witness :
  rom_catalog.station_count (globals.g_rom_catalog sample_unregistered) = 0
  /\ enabled_slots (globals.g_rom_catalog sample_unregistered) <> []
  /\ rom_scan_all sample_env sample_unregistered = None.
Proof.
  assert (H1 : rom_catalog.station_count (globals.g_rom_catalog sample_unregistered)
               = 0) by (vm_compute; reflexivity).
  assert (H2 : enabled_slots (globals.g_rom_catalog sample_unregistered) <> [])
    by (vm_compute; discriminate).
  split; [exact H1|]. split; [exact H2|].
  exact (proj2 (rom_scan_all_divides_by_zero sample_env sample_unregistered H1) H2).
Defined.
